(** * man2man: the man page to JSON converter (man2man.py)

    A shallow embedding of the parsing heuristics and of the output merge of
    man2man.py, with the properties its specification states.

    Modelling choices.
    - A Python [str] is a [string]; a character is an [ascii].  The Unicode
      classes of Python's [re] and [str] methods are taken on ASCII: [\s] and
      [str.strip] know the characters 9-13 and 28-32, [\w] is
      [[a-zA-Z0-9_]], [str.lower] maps [A-Z] to [a-z].  The en dash and the
      em dash of the NAME pattern are their UTF-8 byte sequences.
    - Python's [re] is a backtracking matcher: [rmatch] below follows its
      order of choices (left alternative first, greedy or lazy repetition,
      atomic lookahead), [re_search] tries the start positions from left to
      right, and [re_finditer] iterates as Python 3.7 and later do, empty
      matches included.  Every pattern of the source is written out as a
      [regex] term, with the flags of its call applied.
    - The pattern rf'\b{command}\b' is built from the command name.  For a
      name without pattern operators it is the characters of the name
      between two word boundaries, a dot standing for any character but
      the line break.  A name such as "[", whose first operator is an
      opening bracket that no closing bracket follows, does not make a
      pattern: [re.error].  For any other name with an operator the
      pattern is what Python's pattern syntax makes of the name,
      [re.error] or a pattern.  That is a parameter [compile] of the
      model, which gives, for a name, the error or what the substitution
      with the pattern returns; the properties hold for every such
      parameter.  An uncaught [re.error] ends the program with a traceback
      and the status 1.
    - The processes and the network are the [sources] of the retrieval,
      which returns the page and the lines it prints.  The files are a
      [world] that [main] reads and rewrites; a file holds the text of a
      JSON value, which [json.load] reads back as that value, or something
      that [json.load] refuses, with the exception it raises.  A write can
      fail when the file is opened, or later, and then leaves the file
      truncated. *)

From Stdlib Require Import String Ascii List Bool Arith ZArith Lia.
Import ListNotations.
Open Scope string_scope.

(** ** Characters and the [str] methods the program uses *)

Module Str.

Definition code (a : ascii) : nat := nat_of_ascii a.

Definition between (lo hi : nat) (a : ascii) : bool :=
  Nat.leb lo (code a) && Nat.leb (code a) hi.

Definition is_upper : ascii -> bool := between 65 90.
Definition is_lower : ascii -> bool := between 97 122.
Definition is_digit : ascii -> bool := between 48 57.
Definition is_alpha (a : ascii) : bool := is_upper a || is_lower a.

(** [\w] *)
Definition is_word (a : ascii) : bool :=
  is_alpha a || is_digit a || Ascii.eqb a "_".

(** [\s], and what [str.strip] removes *)
Definition is_space (a : ascii) : bool :=
  between 9 13 a || between 28 32 a.

Definition lower_char (a : ascii) : ascii :=
  if is_upper a then ascii_of_nat (code a + 32) else a.

(** [s.lower()] *)
Fixpoint lower (s : string) : string :=
  match s with
  | EmptyString => EmptyString
  | String a s' => String (lower_char a) (lower s')
  end.

Fixpoint lstrip_by (f : ascii -> bool) (s : string) : string :=
  match s with
  | EmptyString => EmptyString
  | String a s' => if f a then lstrip_by f s' else s
  end.

(** What is left of [s] once the characters of [f] at its end are removed:
    a character stays when it is not in [f] or something after it stays. *)
Fixpoint rstrip_by (f : ascii -> bool) (s : string) : string :=
  match s with
  | EmptyString => EmptyString
  | String a s' =>
      match rstrip_by f s' with
      | EmptyString => if f a then EmptyString else String a EmptyString
      | t => String a t
      end
  end.

(** [s.strip()] *)
Definition strip (s : string) : string :=
  rstrip_by is_space (lstrip_by is_space s).

(** [s.rstrip('.')] *)
Definition rstrip_dots (s : string) : string :=
  rstrip_by (Ascii.eqb ".") s.

(** [s.startswith(p)] *)
Definition startswith (p s : string) : bool := String.prefix p s.

(** [p in s] on two strings *)
Fixpoint contains (p s : string) : bool :=
  String.prefix p s ||
  match s with
  | EmptyString => false
  | String _ s' => contains p s'
  end.

(** [a in s] for a one-character string [a] *)
Fixpoint has_char (a : ascii) (s : string) : bool :=
  match s with
  | EmptyString => false
  | String b s' => Ascii.eqb a b || has_char a s'
  end.

(** [s.split(sep)] for a one-character separator: never an empty list. *)
Fixpoint split_char (sep : ascii) (s : string) : list string :=
  match s with
  | EmptyString => [EmptyString]
  | String a s' =>
      if Ascii.eqb a sep then EmptyString :: split_char sep s'
      else match split_char sep s' with
           | [] => [String a EmptyString]
           | l :: ls => String a l :: ls
           end
  end.

(** [sep.join(l)] *)
Fixpoint join (sep : string) (l : list string) : string :=
  match l with
  | [] => EmptyString
  | [x] => x
  | x :: l' => x ++ sep ++ join sep l'
  end.

(** [s[:n]] *)
Fixpoint take (n : nat) (s : string) : string :=
  match n, s with
  | S n', String a s' => String a (take n' s')
  | _, _ => EmptyString
  end.

(** [s[n:]] *)
Fixpoint drop (n : nat) (s : string) : string :=
  match n, s with
  | S n', String _ s' => drop n' s'
  | _, _ => s
  end.

(** [s[i:j]] *)
Definition slice (i j : nat) (s : string) : string := take (j - i) (drop i s).

(** [x in l] for a list of strings *)
Definition mem (x : string) (l : list string) : bool :=
  existsb (String.eqb x) l.

(** The truth value of a string: the empty string is false. *)
Definition nonempty (s : string) : bool :=
  match s with EmptyString => false | _ => true end.

Definition nl : ascii := "010"%char.

(** Whether the first character of [s] is a word character. *)
Definition starts_with_word (s : string) : bool :=
  match s with
  | EmptyString => false
  | String a _ => is_word a
  end.

(** Whether the last character of [s] is a word character. *)
Fixpoint ends_with_word (s : string) : bool :=
  match s with
  | EmptyString => false
  | String a EmptyString => is_word a
  | String _ s' => ends_with_word s'
  end.

Definition is_word_char (o : option ascii) : bool :=
  match o with Some a => is_word a | None => false end.

End Str.

(** ** Regular expressions, as Python's [re] matches them *)

Module Re.

Inductive regex : Type :=
| Eps                                   (* the empty pattern *)
| Chr (f : ascii -> bool)               (* one character: literal, class or dot *)
| Seq (r1 r2 : regex)
| Alt (r1 r2 : regex)                   (* r1|r2 *)
| Star (greedy : bool) (r : regex)      (* r* and r*? *)
| Group (n : nat) (r : regex)           (* the n-th capturing group *)
| Look (r : regex)                      (* (?=r) *)
| WordB                                 (* \b *)
| EndZ                                  (* \Z *)
| Dollar.                               (* $ without re.MULTILINE *)

(** Where the matcher stands: the character before, the offset, what is left. *)
Record cursor : Type := Cursor {
  c_prev : option ascii;
  c_pos : nat;
  c_rest : string
}.

Definition caps : Type := list (nat * string).

Definition result : Type := (cursor * caps)%type.

Definition kont : Type := cursor -> caps -> option result.

Definition word_before (c : cursor) : bool := Str.is_word_char (c_prev c).

Definition word_after (c : cursor) : bool := Str.starts_with_word (c_rest c).

Definition step (c : cursor) : option (ascii * cursor) :=
  match c_rest c with
  | EmptyString => None
  | String a s' => Some (a, Cursor (Some a) (S (c_pos c)) s')
  end.

(** The rounds of a repetition whose body is matched by [body] and whose
    rest of the pattern is [k].  A greedy repetition tries one more round
    before it tries to stop, a lazy one stops first.  A round counts only
    when the body has consumed a character. *)
Fixpoint star_loop (body : cursor -> caps -> kont -> option result)
  (greedy : bool) (k : kont) (fuel : nat) (c : cursor) (g : caps)
  {struct fuel} : option result :=
  match fuel with
  | O => k c g
  | S fuel' =>
      let again : kont := fun c' g' =>
        if Nat.ltb (c_pos c) (c_pos c')
        then star_loop body greedy k fuel' c' g' else None in
      if greedy then
        match body c g again with
        | Some x => Some x
        | None => k c g
        end
      else
        match k c g with
        | Some x => Some x
        | None => body c g again
        end
  end.

(** The backtracking matcher, in continuation style: [k] is the rest of the
    pattern.  As every round of a repetition consumes a character,
    [S (length rest)] rounds are enough ([star_loop_fuel] below). *)
Fixpoint rmatch (r : regex) (c : cursor) (g : caps) (k : kont) {struct r}
  : option result :=
  match r with
  | Eps => k c g
  | Chr f =>
      match step c with
      | Some (a, c') => if f a then k c' g else None
      | None => None
      end
  | Seq r1 r2 => rmatch r1 c g (fun c' g' => rmatch r2 c' g' k)
  | Alt r1 r2 =>
      match rmatch r1 c g k with
      | Some x => Some x
      | None => rmatch r2 c g k
      end
  | Star greedy r1 =>
      star_loop (rmatch r1) greedy k (S (String.length (c_rest c))) c g
  | Group n r1 =>
      rmatch r1 c g (fun c' g' =>
        k c' ((n, Str.take (c_pos c' - c_pos c) (c_rest c)) :: g'))
  | Look r1 =>
      match rmatch r1 c g (fun c' g' => Some (c', g')) with
      | Some (_, g') => k c g'
      | None => None
      end
  | WordB => if xorb (word_before c) (word_after c) then k c g else None
  | EndZ =>
      match c_rest c with
      | EmptyString => k c g
      | _ => None
      end
  | Dollar =>
      match c_rest c with
      | EmptyString => k c g
      | String a EmptyString => if Ascii.eqb a Str.nl then k c g else None
      | _ => None
      end
  end.

(** A match: where it starts, where it ends, its groups. *)
Record rmatch_result : Type := Match {
  m_start : nat;
  m_end : cursor;
  m_caps : caps
}.

Definition m_stop (m : rmatch_result) : nat := c_pos (m_end m).

(** [m.group(n)]; a group that took no part gives [None]. *)
Fixpoint lookup_group (n : nat) (g : caps) : option string :=
  match g with
  | [] => None
  | (i, s) :: g' => if Nat.eqb i n then Some s else lookup_group n g'
  end.

Definition group (n : nat) (m : rmatch_result) : option string :=
  lookup_group n (m_caps m).

(** What [findall] and [group] give for a group: its text, or the empty
    string when it took no part. *)
Definition group_text (n : nat) (m : rmatch_result) : string :=
  match group n m with Some s => s | None => EmptyString end.

(** The last step of a match: with [adv], an empty match is refused. *)
Definition accept (adv : bool) (c0 : cursor) : kont :=
  fun c g => if adv && Nat.eqb (c_pos c) (c_pos c0) then None else Some (c, g).

(** The leftmost match at or after the cursor. [adv] refuses an empty match
    at the first position only, as after an empty match of an iteration. *)
Fixpoint search_at (r : regex) (adv : bool) (p : option ascii) (i : nat)
  (s : string) {struct s} : option rmatch_result :=
  match rmatch r (Cursor p i s) [] (accept adv (Cursor p i s)) with
  | Some (c', g) => Some (Match i c' g)
  | None =>
      match s with
      | EmptyString => None
      | String a s' => search_at r false (Some a) (S i) s'
      end
  end.

(** [re.search(r, s)] *)
Definition re_search (r : regex) (s : string) : option rmatch_result :=
  search_at r false None 0 s.

Definition re_found (r : regex) (s : string) : bool :=
  match re_search r s with Some _ => true | None => false end.

(** The successive matches of [re.finditer]: after a match the search goes
    on at its end, and after an empty match it may not match empty there
    again.  Two rounds for each position are enough. *)
Fixpoint finditer_from (fuel : nat) (r : regex) (adv : bool) (c : cursor)
  : list rmatch_result :=
  match fuel with
  | O => []
  | S fuel' =>
      match search_at r adv (c_prev c) (c_pos c) (c_rest c) with
      | None => []
      | Some m =>
          m :: finditer_from fuel' r (Nat.eqb (m_stop m) (m_start m)) (m_end m)
      end
  end.

Definition re_finditer (r : regex) (s : string) : list rmatch_result :=
  finditer_from (2 * String.length s + 2) r false (Cursor None 0 s).

(** [re.findall(r, s)] for a pattern with one group: the texts of group 1. *)
Definition re_findall1 (r : regex) (s : string) : list string :=
  map (group_text 1) (re_finditer r s).

(** The pieces of [s] between the matches [ms], from offset [i] on, each
    followed by [repl], and the rest after the last match. *)
Fixpoint splice (repl : string) (s : string) (i : nat) (ms : list rmatch_result)
  : string :=
  match ms with
  | [] => Str.drop i s
  | m :: ms' =>
      Str.slice i (m_start m) s ++ repl ++ splice repl s (m_stop m) ms'
  end.

(** [re.sub(r, repl, s, count)] for a replacement without group references;
    [count = 0] replaces every match. *)
Definition re_sub (r : regex) (repl : string) (s : string) (count : nat)
  : string :=
  let ms := re_finditer r s in
  splice repl s 0 (match count with O => ms | _ => firstn count ms end).

Fixpoint pieces (s : string) (i : nat) (ms : list rmatch_result) : list string :=
  match ms with
  | [] => [Str.drop i s]
  | m :: ms' => Str.slice i (m_start m) s :: pieces s (m_stop m) ms'
  end.

(** [re.split(r, s)] for a pattern without groups. *)
Definition re_split (r : regex) (s : string) : list string :=
  pieces s 0 (re_finditer r s).

(** *** Pattern syntax *)

Definition chr (a : ascii) : regex := Chr (Ascii.eqb a).

(** A character under re.IGNORECASE. *)
Definition chr_i (a : ascii) : regex :=
  Chr (fun b => Ascii.eqb (Str.lower_char b) (Str.lower_char a)).

Fixpoint lit (s : string) : regex :=
  match s with
  | EmptyString => Eps
  | String a EmptyString => chr a
  | String a s' => Seq (chr a) (lit s')
  end.

Fixpoint lit_i (s : string) : regex :=
  match s with
  | EmptyString => Eps
  | String a EmptyString => chr_i a
  | String a s' => Seq (chr_i a) (lit_i s')
  end.

Fixpoint seq (l : list regex) : regex :=
  match l with
  | [] => Eps
  | [r] => r
  | r :: l' => Seq r (seq l')
  end.

Fixpoint alt (l : list regex) : regex :=
  match l with
  | [] => Eps
  | [r] => r
  | r :: l' => Alt r (alt l')
  end.

Definition star (r : regex) : regex := Star true r.          (* r*  *)
Definition plus (r : regex) : regex := Seq r (Star true r).  (* r+  *)
Definition opt (r : regex) : regex := Alt r Eps.             (* r?  *)
Definition star_lazy (r : regex) : regex := Star false r.    (* r*? *)
Definition plus_lazy (r : regex) : regex := Seq r (Star false r). (* r+? *)
Definition one_or_two (r : regex) : regex := Seq r (opt r).  (* r{1,2} *)

Definition space : regex := Chr Str.is_space.                        (* \s *)
Definition nonspace : regex := Chr (fun a => negb (Str.is_space a)). (* \S *)
Definition word : regex := Chr Str.is_word.                          (* \w *)
Definition any : regex := Chr (fun _ => true)  (* . under re.DOTALL *).
Definition newline : regex := chr Str.nl.                            (* \n *)

End Re.

(** ** The records of the program *)

(** The values of the [param-type] field. *)
Inductive param_kind : Type :=
| Flag              (* "flag" *)
| Opt               (* "option" *)
| OptEquals         (* "option-equals" *)
| OptKvEquals       (* "option-kv-equals" *)
| OptKvColon        (* "option-kv-colon" *)
| Positional.       (* "positional" *)

Definition param_kind_text (k : param_kind) : string :=
  match k with
  | Flag => "flag"
  | Opt => "option"
  | OptEquals => "option-equals"
  | OptKvEquals => "option-kv-equals"
  | OptKvColon => "option-kv-colon"
  | Positional => "positional"
  end.

(** A parameter dict: the keys [name] and [param-type] are always there,
    [position], [value-type] and [description] only when the code sets them. *)
Record param : Type := Param {
  name : string;
  param_type : param_kind;
  position : option nat;
  value_type : option string;
  description : option string
}.

(** The dict under the key [tool]. *)
Record tool : Type := Tool {
  tool_name : string;
  tool_description : string;
  parameters : list param
}.

Import Re.

(** ** The description extractor *)

Definition en_dash : string := String "226" (String "128" (String "147" "")).
Definition em_dash : string := String "226" (String "128" (String "148" "")).

(** r'NAME\s*\n\s*\S+\s*[DASH]\s*(.+?)(?=\n\S|\n\n)' with re.DOTALL, where
    DASH is the class of the hyphen, the en dash and the em dash *)
Definition name_re : regex :=
  seq [lit "NAME"; star space; newline; star space; plus nonspace; star space;
       alt [chr "-"; lit en_dash; lit em_dash]; star space;
       Group 1 (plus_lazy any);
       Look (Alt (Seq newline nonspace) (Seq newline newline))].

(** r'DESCRIPTION\s*\n\s*(.+?)(?=\n\S+\n|\n\n\S)' with re.DOTALL *)
Definition description_re : regex :=
  seq [lit "DESCRIPTION"; star space; newline; star space;
       Group 1 (plus_lazy any);
       Look (Alt (seq [newline; plus nonspace; newline])
                 (seq [newline; newline; nonspace]))].

(** r'\s+' *)
Definition spaces_re : regex := plus space.

(** r'[.!?]\s+' *)
Definition sentence_end_re : regex :=
  Seq (Chr (fun a => Str.has_char a ".!?")) (plus space).

Definition no_description : string := "No description available".

(** [extract_description(man_content)] *)
Definition extract_description (man_content : string) : string :=
  match re_search name_re man_content with
  | Some name_match =>
      re_sub spaces_re " " (Str.strip (group_text 1 name_match)) 0
  | None =>
      match re_search description_re man_content with
      | Some desc_match =>
          match re_split sentence_end_re (Str.strip (group_text 1 desc_match)) with
          | first :: _ => Str.strip first
          | [] => no_description
          end
      | None => no_description
      end
  end.

(** ** The classification of an option *)

Definition word_of (l : list string) : regex :=
  seq [WordB; Group 1 (alt (map lit l)); WordB].

(** r'\b(toggle|enable|disable|flag)\b' *)
Definition flag_words : list string := ["toggle"; "enable"; "disable"; "flag"].

Definition flag_word_re : regex := word_of flag_words.

(** r'\b\w+=\w+\b' *)
Definition kv_equals_re : regex :=
  seq [WordB; plus word; chr "="; plus word; WordB].

(** r'\bname=value\b' with re.IGNORECASE *)
Definition name_value_re : regex := seq [WordB; lit_i "name=value"; WordB].

(** r'\b\w+:\w+\b' *)
Definition kv_colon_re : regex :=
  seq [WordB; plus word; chr ":"; plus word; WordB].

(** r'\busername:password\b' with re.IGNORECASE *)
Definition username_password_re : regex :=
  seq [WordB; lit_i "username:password"; WordB].

(** r'\bname:value\b' with re.IGNORECASE *)
Definition name_colon_value_re : regex :=
  seq [WordB; lit_i "name:value"; WordB].

(** r'--\w+=' *)
Definition long_equals_re : regex := seq [lit "--"; plus word; chr "="].

(** r'\s+\w+(?:\s+|\]|$)' *)
Definition takes_value_re : regex :=
  seq [plus space; plus word; alt [plus space; chr "]"; Dollar]].

(** r'\b(specify|set|use|take|accept|require)\b' *)
Definition value_verbs : list string :=
  ["specify"; "set"; "use"; "take"; "accept"; "require"].

Definition value_verb_re : regex := word_of value_verbs.

(** f"{param_name} {first_line} {description}" *)
Definition combined_text (param_name description first_line : string) : string :=
  param_name ++ " " ++ first_line ++ " " ++ description.

(** [classify_parameter_type(param_name, description, first_line)] *)
Definition classify_parameter_type (param_name description first_line : string)
  : param_kind :=
  if re_found flag_word_re (Str.lower description) then Flag
  else
    let combined := combined_text param_name description first_line in
    if re_found kv_equals_re combined
       && negb (Str.has_char "=" param_name)
       && re_found name_value_re combined
    then OptKvEquals
    else if re_found kv_colon_re combined
       && negb (Str.has_char ":" param_name)
       && (re_found username_password_re combined
           || re_found name_colon_value_re combined)
    then OptKvColon
    else if Str.has_char "=" param_name || re_found long_equals_re description
    then OptEquals
    else if re_found takes_value_re param_name then Opt
    else if Str.startswith "-" param_name
            && Nat.eqb (String.length param_name) 2
    then if re_found value_verb_re (Str.lower description) then Opt else Flag
    else Opt.

(** ** The value type of an option *)

(** TOKEN, the group of the first three value patterns: \w+(?:[_-]\w+)* *)
Definition value_token : regex :=
  Seq (plus word) (star (Seq (Chr (fun a => Str.has_char a "_-")) (plus word))).

(** The four patterns of [value_patterns], in their order. *)
Definition value_patterns : list regex :=
  [ (* r'[-<](TOKEN)[>\]]' *)
    seq [Chr (fun a => Str.has_char a "-<"); Group 1 value_token;
         Chr (fun a => Str.has_char a ">]")];
    (* r'\s+(TOKEN)\s*\.\.\.' *)
    seq [plus space; Group 1 value_token; star space; lit "..."];
    (* r'=(TOKEN)' *)
    seq [chr "="; Group 1 value_token];
    (* r'\s+([A-Z][A-Z_]+)\b' *)
    seq [plus space;
         Group 1 (Seq (Chr Str.is_upper)
                      (plus (Chr (fun a => Str.is_upper a || Ascii.eqb a "_"))));
         WordB] ].

Definition normalize_value_type (value_type : string) : string :=
  if Str.mem value_type ["file"; "path"; "filename"; "filepath"] then "file-path"
  else if Str.mem value_type ["num"; "number"; "n"; "count"] then "number"
  else if Str.mem value_type ["string"; "str"; "text"] then "string"
  else if Str.mem value_type ["pid"; "process"] then "pid"
  else if Str.mem value_type ["dir"; "directory"] then "directory"
  else value_type.

(** The loop over [value_patterns]: the first pattern that matches decides. *)
Fixpoint first_value_match (patterns : list regex) (param_text : string)
  : option string :=
  match patterns with
  | [] => None
  | pattern :: rest =>
      match re_search pattern param_text with
      | Some m => Some (normalize_value_type (Str.lower (group_text 1 m)))
      | None => first_value_match rest param_text
      end
  end.

Definition description_hint (description : string) : option string :=
  let desc_lower := Str.lower description in
  if Str.contains "file" desc_lower || Str.contains "path" desc_lower
  then Some "file-path"
  else if Str.contains "number" desc_lower || Str.contains "numeric" desc_lower
  then Some "number"
  else if Str.contains "directory" desc_lower then Some "directory"
  else if Str.contains "pid" desc_lower || Str.contains "process id" desc_lower
  then Some "pid"
  else None.

(** [extract_value_type(param_text, description)] *)
Definition extract_value_type (param_text description : string) : option string :=
  match first_value_match value_patterns param_text with
  | Some value_type => Some value_type
  | None => description_hint description
  end.

(** ** The option parser *)

(** r'(?:OPTIONS|The following options are available:?)\s*\n(.*?)(?=\n[A-Z][A-Z\s]+\n|\Z)'
    with re.DOTALL | re.MULTILINE | re.IGNORECASE: the letters of the
    header and the classes [A-Z] match both cases. *)
Definition options_re : regex :=
  seq [Alt (lit_i "OPTIONS")
           (Seq (lit_i "The following options are available") (opt (chr ":")));
       star space; newline;
       Group 1 (star_lazy any);
       Look (Alt (seq [newline; Chr Str.is_alpha;
                       plus (Chr (fun a => Str.is_alpha a || Str.is_space a));
                       newline])
                 EndZ)].

(** r'\n(?=\s+-)' *)
Definition entry_start_re : regex :=
  Seq newline (Look (Seq (plus space) (chr "-"))).

(** r'(-{1,2}[a-zA-Z0-9_-]+(?:=\S+)?|\-[a-zA-Z](?:\s+\S+)?)' *)
Definition option_pattern : regex :=
  Group 1
    (Alt (seq [one_or_two (chr "-");
               plus (Chr (fun a => Str.is_word a || Ascii.eqb a "-"));
               opt (Seq (chr "=") (plus nonspace))])
         (seq [chr "-"; Chr Str.is_alpha; opt (Seq (plus space) (plus nonspace))])).

(** What the loop body of [parse_options] takes from an entry before it
    builds the record. *)
Record entry_parts : Type := EntryParts {
  e_first_line : string;
  e_primary_option : string;
  e_description : string
}.

(** [for line in lines[1:]]: the later lines that are not blank, stripped. *)
Definition later_lines (lines : list string) : list string :=
  filter Str.nonempty (map Str.strip (tl lines)).

(** The first part of the loop body; [None] is a [continue]. *)
Definition split_entry (entry : string) : option entry_parts :=
  if negb (Str.nonempty (Str.strip entry)) then None
  else
    match Str.split_char Str.nl (Str.strip entry) with
    | [] => None
    | (first :: _) as lines =>
        let first_line := Str.strip first in
        if negb (Str.startswith "-" first_line) then None
        else
          match re_findall1 option_pattern first_line with
          | [] => None
          | (primary_option :: _) as option_matches =>
              let desc_on_first :=
                Str.strip (re_sub option_pattern "" first_line
                             (List.length option_matches)) in
              let description_lines :=
                ((if Str.nonempty desc_on_first then [desc_on_first] else [])
                 ++ later_lines lines)%list in
              Some {| e_first_line := first_line;
                      e_primary_option := primary_option;
                      e_description :=
                        Str.strip (re_sub spaces_re " "
                                     (Str.join " " description_lines) 0) |}
          end
    end.

(** The truth value of an optional string: [None] and [""] are false. *)
Definition truthy (o : option string) : option string :=
  match o with
  | Some s => if Str.nonempty s then Some s else None
  | None => None
  end.

(** The second part of the loop body: the record of an entry. *)
Definition entry_param (e : entry_parts) : param :=
  let param_type :=
    classify_parameter_type (e_primary_option e) (e_description e)
      (e_first_line e) in
  let value_type :=
    match param_type with
    | Flag => None
    | _ => extract_value_type (e_first_line e) (e_description e)
    end in
  {| name := Str.strip (e_primary_option e);
     param_type := param_type;
     position := None;
     value_type := truthy value_type;
     description :=
       if Str.nonempty (e_description e)
       then Some (Str.take 200 (e_description e)) else None |}.

Definition parse_entry (entry : string) : option param :=
  option_map entry_param (split_entry entry).

(** The entries of the options text: [re.split(r'\n(?=\s+-)', options_text)]. *)
Definition option_entries (options_text : string) : list string :=
  re_split entry_start_re options_text.

Fixpoint collect {A B : Type} (f : A -> option B) (l : list A) : list B :=
  match l with
  | [] => []
  | a :: l' =>
      match f a with
      | Some b => b :: collect f l'
      | None => collect f l'
      end
  end.

(** [parse_options(man_content)] *)
Definition parse_options (man_content : string) : list param :=
  match re_search options_re man_content with
  | None => []
  | Some options_match =>
      collect parse_entry (option_entries (group_text 1 options_match))
  end.

(** ** The positional argument parser *)

Definition upper_us : regex :=
  Chr (fun a => Str.is_upper a || Ascii.eqb a "_").           (* [A-Z_] *)

(** r'SYNOPSIS\s*\n\s*(.+?)(?=\n\n|\n[A-Z])' with re.DOTALL *)
Definition synopsis_re : regex :=
  seq [lit "SYNOPSIS"; star space; newline; star space;
       Group 1 (plus_lazy any);
       Look (Alt (Seq newline newline) (Seq newline (Chr Str.is_upper)))].

(** The characters that are operators in a pattern, the dot apart. *)
Definition operator_char (a : ascii) : bool :=
  Str.has_char a "^$*+?{}[]\|()".

Fixpoint no_operators (s : string) : bool :=
  match s with
  | EmptyString => true
  | String a s' => negb (operator_char a) && no_operators s'
  end.

(** A character of the command name, as a pattern: the dot is any
    character but the line break (the call has no re.DOTALL), another
    character is itself. *)
Definition name_char (a : ascii) : regex :=
  if Ascii.eqb a "." then Chr (fun b => negb (Ascii.eqb b Str.nl)) else chr a.

Fixpoint name_pattern (s : string) : regex :=
  match s with
  | EmptyString => Eps
  | String a EmptyString => name_char a
  | String a s' => Seq (name_char a) (name_pattern s')
  end.

(** A name whose first operator is an opening bracket that no closing
    bracket follows: the bracket opens a character set that nothing
    closes, and Python's [re] refuses the pattern. *)
Fixpoint opens_set (s : string) : bool :=
  match s with
  | EmptyString => false
  | String a s' =>
      if Ascii.eqb a "[" then negb (Str.has_char "]" s')
      else negb (operator_char a) && opens_set s'
  end.

(** What [re.sub(rf'\b{command}\b', '', synopsis)] comes to for a command
    name: [re.error], when the name does not make a pattern, or the
    function that takes the matches of the pattern out of the synopsis. *)
Inductive command_pattern : Type :=
| ReError
| Compiled (sub : string -> string).

(** rf'\b{command}\b': the command name is put into the pattern as it is.
    A name without operators is matched character by character, a dot
    standing for any character; a name that opens a character set without
    closing it raises [re.error]; for any other name the pattern is what
    Python's pattern syntax makes of it, which [compile] says. *)
Definition command_re (compile : string -> command_pattern) (command : string)
  : command_pattern :=
  if no_operators command
  then Compiled (fun synopsis =>
                   re_sub (seq [WordB; name_pattern command; WordB]) ""
                     synopsis 0)
  else if opens_set command then ReError
  else compile command.

(** r'\[?-{1,2}\w+(?:\s+\w+)?\]?' *)
Definition option_like_re : regex :=
  seq [opt (chr "["); one_or_two (chr "-"); plus word;
       opt (Seq (plus space) (plus word)); opt (chr "]")].

(** r'\[?([A-Z_]+|\w+\.\.\.)(?:\s+[A-Z_]+|\s+\w+\.\.\.)?\]?' *)
Definition positional_pattern : regex :=
  seq [opt (chr "[");
       Group 1 (Alt (plus upper_us) (Seq (plus word) (lit "...")));
       opt (Alt (Seq (plus space) (plus upper_us))
                (seq [plus space; plus word; lit "..."]));
       opt (chr "]")].

(** The value type of a positional argument, from its token. *)
Definition positional_value_type (pos_arg : string) : string :=
  let arg_lower := Str.lower pos_arg in
  if Str.contains "file" arg_lower || Str.contains "path" arg_lower
  then "file-path"
  else if Str.contains "dir" arg_lower then "directory"
  else if Str.contains "pid" arg_lower then "pid"
  else Str.rstrip_dots arg_lower.

Definition positional_param (idx : nat) (pos_arg : string) : param :=
  {| name := Str.strip pos_arg;
     param_type := Positional;
     position := Some idx;
     value_type := Some (positional_value_type pos_arg);
     description := None |}.

(** The loop over [enumerate(positional_matches, idx)]. *)
Fixpoint positional_loop (idx : nat) (positional_matches : list string)
  : list param :=
  match positional_matches with
  | [] => []
  | pos_arg :: rest =>
      ((if Str.nonempty (Str.strip pos_arg)
        then [positional_param idx pos_arg] else [])
       ++ positional_loop (S idx) rest)%list
  end.

(** The synopsis with the command name, by [sub], and the option-like
    tokens removed. *)
Definition clean_synopsis (sub : string -> string) (synopsis : string)
  : string :=
  re_sub option_like_re "" (sub synopsis) 0.

(** [parse_positional_args(man_content, command)].  [None] is [re.error],
    raised for a command name that does not make a pattern when the page
    has a SYNOPSIS section. *)
Definition parse_positional_args (compile : string -> command_pattern)
  (man_content command : string) : option (list param) :=
  match re_search synopsis_re man_content with
  | None => Some []
  | Some synopsis_match =>
      let synopsis := Str.strip (group_text 1 synopsis_match) in
      match command_re compile command with
      | ReError => None
      | Compiled sub =>
          Some (positional_loop 1
                  (re_findall1 positional_pattern
                     (clean_synopsis sub synopsis)))
      end
  end.

(** ** The retrieval of the page *)

(** What the pipe [man command | col -b] comes to: the return code of [col]
    with what it wrote, or one of the two exceptions that [get_man_page]
    catches. *)
Inductive local_outcome : Type :=
| Piped (returncode : Z) (stdout : string)
| CalledProcessError
| FileNotFoundError.

(** What the [try] block of [get_man_page_from_web] comes to: an exception
    of [requests], any other exception, or a response with its status code
    and the text of its content division, if it has one. *)
Inductive web_outcome : Type :=
| RequestException
| OtherException
| Response (status_code : nat) (content_div : option string).

(** The commands and the network, as the retrieval sees them. *)
Record sources : Type := Sources {
  local_page : string -> local_outcome;
  web_page : string -> web_outcome
}.

(** The lines that the retrieval prints on the error stream, and the
    request that it sends. *)
Inductive event : Type :=
| Fetching (url : string)            (* Fetching man page from {url}... *)
| HttpGet (url : string)             (* requests.get(url, timeout=10) *)
| StatusError (status_code : nat)    (* Error: Could not fetch man page from web (status {code}) *)
| NoContentError                     (* Error: Could not parse web man page *)
| FetchError                         (* Error fetching from web: {e} *)
| WebParseError                      (* Error parsing web man page: {e} *)
| LocalNotFound (command : string)   (* Local man page not found for '{command}', trying web... *)
| ToolsNotFound.                     (* 'man' or 'col' command not found, trying web... *)

Definition man_url (command : string) : string :=
  "https://linux.die.net/man/1/" ++ command.

(** [get_man_page_from_web(command)]: what it returns and what it does. *)
Definition get_man_page_from_web (src : sources) (command : string)
  : option string * list event :=
  let url := man_url command in
  match web_page src url with
  | Response status_code content_div =>
      if negb (Nat.eqb status_code 200)
      then (None, [Fetching url; HttpGet url; StatusError status_code])
      else
        match content_div with
        | None => (None, [Fetching url; HttpGet url; NoContentError])
        | Some text => (Some text, [Fetching url; HttpGet url])
        end
  | RequestException => (None, [Fetching url; HttpGet url; FetchError])
  | OtherException => (None, [Fetching url; HttpGet url; WebParseError])
  end.

Definition and_then (e : event) (r : option string * list event)
  : option string * list event :=
  (fst r, e :: snd r).

(** [get_man_page(command)] *)
Definition get_man_page (src : sources) (command : string)
  : option string * list event :=
  match local_page src command with
  | Piped returncode stdout =>
      if negb (Z.eqb returncode 0%Z) || negb (Str.nonempty (Str.strip stdout))
      then and_then (LocalNotFound command) (get_man_page_from_web src command)
      else (Some stdout, [])
  | CalledProcessError =>
      and_then (LocalNotFound command) (get_man_page_from_web src command)
  | FileNotFoundError =>
      and_then ToolsNotFound (get_man_page_from_web src command)
  end.

(** The page that [get_man_page] returns. *)
Definition retrieve (src : sources) (command : string) : option string :=
  fst (get_man_page src command).

(** The lines among the events: all but the request. *)
Definition printed (l : list event) : list event :=
  filter (fun e => match e with HttpGet _ => false | _ => true end) l.

(** ** The assembly of the record *)

(** [man_to_json(command)], given what [get_man_page] returns.  The outer
    [None] is the [re.error] of [parse_positional_args]; the inner one is
    Python's [None], returned when no page was retrieved or the page is
    empty. *)
Definition man_to_json (compile : string -> command_pattern)
  (get_man_page : string -> option string) (command : string)
  : option (option tool) :=
  match get_man_page command with
  | None => Some None
  | Some man_content =>
      if negb (Str.nonempty man_content) then Some None
      else
        let description := extract_description man_content in
        let options := parse_options man_content in
        match parse_positional_args compile man_content command with
        | None => None
        | Some positional =>
            Some (Some {| tool_name := command;
                          tool_description := description;
                          parameters := (positional ++ options)%list |})
        end
  end.

(** ** The output document *)

#[local] Set Warnings "-register-all".

(** What [json.load] gives and [json.dump] takes.  A dict keeps its keys in
    the order of insertion, so an object is an association list. *)
Inductive json : Type :=
| JNull
| JBool (b : bool)
| JInt (n : Z)
| JFloat (digits : string)
| JStr (s : string)
| JList (items : list json)
| JObj (fields : list (string * json)).

Definition option_field (key : string) (o : option json) : list (string * json) :=
  match o with Some v => [(key, v)] | None => [] end.

(** The dict of a parameter, with its keys in the order the code sets them. *)
Definition param_json (p : param) : json :=
  JObj ([("name", JStr (name p));
         ("param-type", JStr (param_kind_text (param_type p)))]
        ++ option_field "position"
             (option_map (fun n => JInt (Z.of_nat n)) (position p))
        ++ option_field "value-type" (option_map JStr (value_type p))
        ++ option_field "description" (option_map JStr (description p)))%list.

(** [result["tool"]] *)
Definition tool_json (t : tool) : json :=
  JObj [("name", JStr (tool_name t));
        ("description", JStr (tool_description t));
        ("parameters", JList (map param_json (parameters t)))].

(** [result] *)
Definition result_json (t : tool) : json := JObj [("tool", tool_json t)].

(** [d[key]] and [key in d] on a dict *)
Fixpoint lookup (key : string) (fields : list (string * json)) : option json :=
  match fields with
  | [] => None
  | (k, v) :: rest => if String.eqb k key then Some v else lookup key rest
  end.

Definition has_key (key : string) (fields : list (string * json)) : bool :=
  match lookup key fields with Some _ => true | None => false end.

(** The dict after its value under [key], a key it has, was changed in place. *)
Fixpoint update (key : string) (v : json) (fields : list (string * json))
  : list (string * json) :=
  match fields with
  | [] => []
  | (k, x) :: rest =>
      if String.eqb k key then (k, v) :: rest else (k, x) :: update key v rest
  end.

Definition is_str (s : string) (v : json) : bool :=
  match v with JStr x => String.eqb x s | _ => false end.

(** ["tools" in existing_data]: a key of a dict, an item of a list, a part
    of a string; on anything else a TypeError, [None]. *)
Definition tools_in (existing_data : json) : option bool :=
  match existing_data with
  | JObj fields => Some (has_key "tools" fields)
  | JList items => Some (existsb (is_str "tools") items)
  | JStr s => Some (Str.contains "tools" s)
  | _ => None
  end.

Inductive merged : Type :=
| Merged (document : json)    (* the document to write *)
| NotAnArray                  (* 'tools' is there and is not a list *)
| Raised.                     (* an exception of Python *)

(** Lines 391-398 of [main]: the document with the new tool appended. *)
Definition append_tool (existing_data new_tool : json) : merged :=
  match tools_in existing_data with
  | None => Raised
  | Some false => Merged (JObj [("tools", JList [new_tool])])
  | Some true =>
      match existing_data with
      | JObj fields =>
          match lookup "tools" fields with
          | Some (JList tools) =>
              Merged (JObj (update "tools" (JList (tools ++ [new_tool])) fields))
          | Some _ => NotAnArray
          | None => Raised
          end
      | _ => Raised
      end
  end.

(** ** Files *)

(** What a file holds: the text of a JSON value with its layout; a text
    that is not JSON; a beginning of the text of a value, left by a write
    that failed; or something on which [json.load] raises another exception
    than [json.JSONDecodeError] (bytes that are not a text, a number too
    long to read). *)
Inductive content : Type :=
| Garbled (text : string)
| Encoded (indent : option nat) (v : json)
| Truncated (indent : option nat) (v : json)
| Unloadable (text : string).

(** What [json.load] comes to: the value, [json.JSONDecodeError], or
    another exception. *)
Inductive loaded : Type :=
| Loaded (v : json)
| JSONDecodeError
| OtherError.

(** [json.load(f)].  What [json.dump] wrote is read back as the value
    written; a beginning of the text of a mapping is not JSON. *)
Definition json_load (c : content) : loaded :=
  match c with
  | Encoded _ v => Loaded v
  | Garbled _ | Truncated _ _ => JSONDecodeError
  | Unloadable _ => OtherError
  end.

Definition json_dump (v : json) (indent : option nat) : content :=
  Encoded indent v.

(** What [with open(path, 'w') as f: json.dump(data, f, indent=indent)]
    comes to: the document is written; [open] raises; or [open] succeeds,
    which empties the file, and the writing raises. *)
Inductive write_result : Type :=
| Written
| OpenFails
| DumpFails.

(** The files by path, whether [open] succeeds on a path for reading, and
    what a write to a path comes to. *)
Record world : Type := World {
  files : string -> option content;
  can_read : string -> bool;
  writing : string -> write_result
}.

(** A write to the path goes through. *)
Definition can_write (w : world) (path : string) : bool :=
  match writing w path with Written => true | _ => false end.

Definition write_file (path : string) (c : content) (w : world) : world :=
  {| files := fun p => if String.eqb p path then Some c else files w p;
     can_read := can_read w;
     writing := writing w |}.

(** The lines on the error stream: those of the retrieval, those of [main],
    and the traceback of an exception that nothing catches. *)
Inductive message : Type :=
| Retrieval (e : event)                  (* a line of [get_man_page] or [get_man_page_from_web] *)
| NotAnArrayError                        (* Error: Existing file's 'tools' is not an array *)
| Appended (command path : string)       (* Appended {command} to {path} *)
| ParseError (path : string)             (* Error: Could not parse existing JSON file {path} *)
| WriteError                             (* Error writing to file: {e} *)
| Created (path command : string)        (* Created {path} with {command} *)
| Traceback.                             (* Traceback (most recent call last): ... re.error *)

Record args : Type := Args {
  command : string;
  output_file : option string;
  pretty : bool
}.

(** A run of the program: the status it ends with (what [main] returns, or
    1 after an exception that nothing catches), the files after it, and
    what it printed on the error stream and on the standard output. *)
Record run : Type := Run {
  exit_code : nat;
  after : world;
  stderr : list message;
  stdout : list content
}.

Definition failed (w : world) (msgs : list message) : run :=
  {| exit_code := 1; after := w; stderr := msgs; stdout := [] |}.

(** [with open(path, 'w') as f: json.dump(data, f, indent=indent)], then the
    message [done].  An exception is caught and reported: when [open]
    raised it, the file is as before; when the writing raised it, the file
    holds a beginning of the text. *)
Definition write_document (path : string) (data : json) (indent : option nat)
  (done : message) (w : world) : run :=
  match writing w path with
  | Written =>
      {| exit_code := 0;
         after := write_file path (json_dump data indent) w;
         stderr := [done];
         stdout := [] |}
  | OpenFails => failed w [WriteError]
  | DumpFails =>
      {| exit_code := 1;
         after := write_file path (Truncated indent data) w;
         stderr := [WriteError];
         stdout := [] |}
  end.

(** The branch of [main] for an output file: lines 383-421. *)
Definition write_tool (path : string) (a : args) (result : tool) (w : world)
  : run :=
  let indent := if pretty a then Some 2 else None in
  match files w path with
  | Some existing =>
      if negb (can_read w path) then failed w [WriteError]
      else
        match json_load existing with
        | JSONDecodeError => failed w [ParseError path]
        | OtherError => failed w [WriteError]
        | Loaded existing_data =>
            match append_tool existing_data (tool_json result) with
            | Raised => failed w [WriteError]
            | NotAnArray => failed w [NotAnArrayError]
            | Merged document =>
                write_document path document indent
                  (Appended (command a) path) w
            end
        end
  | None =>
      write_document path (JObj [("tools", JList [tool_json result])])
        indent (Created path (command a)) w
  end.

(** The part of [main] under [# Handle output]: to the file when
    [args.output_file] is a string that is not empty, else to the
    standard output. *)
Definition handle_output (a : args) (result : tool) (w : world) : run :=
  match output_file a with
  | Some ((String _ _) as path) => write_tool path a result w
  | _ =>
      {| exit_code := 0; after := w; stderr := [];
         stdout := [json_dump (result_json result)
                      (if pretty a then Some 2 else None)] |}
  end.

(** The lines that the retrieval prints for a command. *)
Definition retrieval_lines (src : sources) (command : string) : list message :=
  map Retrieval (printed (snd (get_man_page src command))).

(** The run [r], after [lines] were printed on the error stream. *)
Definition said_before (lines : list message) (r : run) : run :=
  {| exit_code := exit_code r;
     after := after r;
     stderr := (lines ++ stderr r)%list;
     stdout := stdout r |}.

(** The program, given the parsed arguments: [main()], whose value goes to
    [sys.exit].  The retrieval prints first, within [man_to_json]; a
    [re.error] from [man_to_json] is not caught, so the program ends with
    a traceback and the status 1 before anything is written. *)
Definition main (compile : string -> command_pattern) (src : sources)
  (a : args) (w : world) : run :=
  said_before (retrieval_lines src (command a))
    match man_to_json compile (retrieve src) (command a) with
    | None => failed w [Traceback]
    | Some None => failed w []
    | Some (Some result) => handle_output a result w
    end.

(** * Definitions for the statements *)

(** ** Cursors *)

(** The character before the position reached after [pre]. *)
Fixpoint last_char (p : option ascii) (pre : string) : option ascii :=
  match pre with
  | EmptyString => p
  | String a pre' => last_char (Some a) pre'
  end.

(** [c'] is [c] moved forward over some characters. *)
Definition reach (c c' : cursor) : Prop :=
  exists u,
    c_rest c = u ++ c_rest c' /\ c_pos c' = c_pos c + String.length u.

(** The result of a match depends on the rest of the pattern only at the
    cursors ahead. *)
Definition respects (body : cursor -> caps -> kont -> option result) : Prop :=
  forall c g k1 k2,
    (forall c' g', reach c c' -> k1 c' g' = k2 c' g') ->
    body c g k1 = body c g k2.

(** A match is a match of the rest of the pattern at a cursor ahead. *)
Definition lands (body : cursor -> caps -> kont -> option result) : Prop :=
  forall c g k x,
    body c g k = Some x ->
    exists c' g', reach c c' /\ k c' g' = Some x.

(** A cursor, a result and a match with their offsets moved by [d]. *)
Definition shift (d : nat) (c : cursor) : cursor :=
  Cursor (c_prev c) (c_pos c + d) (c_rest c).

Definition shift_result (d : nat) (x : result) : result :=
  (shift d (fst x), snd x).

Definition shift_match (d : nat) (m : rmatch_result) : rmatch_result :=
  Match (m_start m + d) (shift d (m_end m)) (m_caps m).

(** [k'] is [k] at the offsets moved by [d]. *)
Definition shifted (d : nat) (k k' : kont) : Prop :=
  forall c g, k' (shift d c) g = option_map (shift_result d) (k c g).

(** ** Words *)

(** [s] contains [w] as a word: an occurrence of [w] with no word character
    right before it and none right after it. *)
Definition has_word (w s : string) : Prop :=
  exists pre post,
    s = pre ++ w ++ post
    /\ Str.ends_with_word pre = false /\ Str.starts_with_word post = false.

(** ** Documents and files *)

Definition is_list (v : json) : bool :=
  match v with JList _ => true | _ => false end.

Definition indent_of (a : args) : option nat :=
  if pretty a then Some 2 else None.

(** The [tools] sequence of the document in the file at [path]. *)
Definition tools_at (w : world) (path : string) : option (list json) :=
  match files w path with
  | Some c =>
      match json_load c with
      | Loaded (JObj fields) =>
          match lookup "tools" fields with
          | Some (JList tools) => Some tools
          | _ => None
          end
      | _ => None
      end
  | None => None
  end.

(** An entry of the document in the file at [path]. *)
Definition entry_at (w : world) (path key : string) : option json :=
  match files w path with
  | Some c =>
      match json_load c with
      | Loaded (JObj fields) => lookup key fields
      | _ => None
      end
  | None => None
  end.

(** A world with one file, where every [open] and every write succeeds. *)
Definition one_file (path : string) (c : content) : world :=
  {| files := fun p => if String.eqb p path then Some c else None;
     can_read := fun _ => true;
     writing := fun _ => Written |}.

(** ** The examples of the specification *)

Definition line (s : string) : string := s ++ String Str.nl EmptyString.

Definition grep_synopsis : string :=
  line "SYNOPSIS" ++ line "    grep [OPTIONS] PATTERN [FILE]..." ++ line "".

Definition options_arg : param :=
  {| name := "OPTIONS"; param_type := Positional; position := Some 1;
     value_type := Some "options"; description := None |}.

Definition pattern_arg : param :=
  {| name := "PATTERN"; param_type := Positional; position := Some 2;
     value_type := Some "pattern"; description := None |}.

Definition file_arg : param :=
  {| name := "FILE"; param_type := Positional; position := Some 3;
     value_type := Some "file-path"; description := None |}.




(** The synopsis of a command with a dot in its name. *)
Definition ldso_synopsis : string :=
  line "SYNOPSIS" ++ line "    ld.so [OPTIONS] PROGRAM" ++ line "".

Definition program_arg : param :=
  {| name := "PROGRAM"; param_type := Positional; position := Some 2;
     value_type := Some "program"; description := None |}.

(** The synopsis of the command [[], without an OPTIONS section. *)
Definition test_synopsis : string :=
  line "SYNOPSIS" ++ line "    [ EXPRESSION ]" ++ line "".

Definition foo_name : string :=
  line "NAME" ++ line "    foo - does a thing" ++ line "".


Definition options_section (entry : string) : string :=
  line "OPTIONS" ++ line ("    " ++ entry).

Definition verbose_entry : string := "-v, --verbose    enable verbose output".

Definition verbose_param : param :=
  {| name := "-v"; param_type := Flag; position := None;
     value_type := None; description := Some ", enable verbose output" |}.

Definition cookie_entry : string :=
  "--cookie <name=value>   pass cookie as name=value".

Definition cookie_param : param :=
  {| name := "--cookie"; param_type := OptKvEquals; position := None;
     value_type := Some "value";
     description := Some "<name=value> pass cookie as name=value" |}.

(** Sources with a local page, the same for every command. *)
Definition local_only (page : string) : sources :=
  {| local_page := fun _ => Piped 0 page;
     web_page := fun _ => RequestException |}.

Definition foo_sources : sources := local_only foo_name.

(** The parameter for the examples, none of which consults it. *)
Definition no_patterns : string -> command_pattern := fun _ => ReError.

Definition foo_tool : tool :=
  {| tool_name := "foo"; tool_description := "does a thing"; parameters := [] |}.

Definition bar_tool : tool :=
  {| tool_name := "bar"; tool_description := "does a thing"; parameters := [] |}.

Definition to_file (command path : string) : args :=
  {| command := command; output_file := Some path; pretty := false |}.

Definition not_a_list_document : json := JObj [("tools", JStr "not-a-list")].

Definition versioned_document : json := JObj [("version", JInt 1)].

Definition versioned_world : world :=
  one_file "tools.json" (Encoded None versioned_document).

Definition tools_document (tools : list json) : json :=
  JObj [("tools", JList tools)].

Definition tool_A : json := JObj [("name", JStr "a")].

(** ** Runs of [main] *)

(** The file that a run writes to: [args.output_file] when it is a string
    that is not empty. *)
Definition target (a : args) : option string :=
  match output_file a with
  | Some ((String _ _) as path) => Some path
  | _ => None
  end.

(** The [tools] sequence that a run finds in the file, empty when the file
    or the sequence is not there. *)
Definition tools_before (w : world) (path : string) : list json :=
  match tools_at w path with Some tools => tools | None => [] end.

(** The messages of a run that went well. *)
Definition is_report (m : message) : bool :=
  match m with Appended _ _ | Created _ _ => true | _ => false end.

(** The error lines of [main]. *)
Definition is_error (m : message) : bool :=
  match m with
  | NotAnArrayError | ParseError _ | WriteError => true
  | _ => false
  end.

(** A world without files, where every [open] and every write succeeds. *)
Definition no_files : world :=
  {| files := fun _ => None; can_read := fun _ => true;
     writing := fun _ => Written |}.

(** What the branch of [main] for an output file does, case by case: the
    document is written; nothing is written; or the write fails after the
    file was opened, which leaves the file truncated. *)
Inductive write_case (path : string) (a : args) (result : tool) (w : world)
  : run -> Prop :=
| WroteDocument (doc : list (string * json)) (done : message) :
    can_write w path = true ->
    is_report done = true ->
    lookup "tools" doc
    = Some (JList (tools_before w path ++ [tool_json result])) ->
    write_case path a result w
      {| exit_code := 0;
         after := write_file path (json_dump (JObj doc) (indent_of a)) w;
         stderr := [done]; stdout := [] |}
| WroteNothing (m : message) :
    is_error m = true ->
    write_case path a result w (failed w [m])
| LeftTruncated (doc : list (string * json)) :
    writing w path = DumpFails ->
    write_case path a result w
      {| exit_code := 1;
         after := write_file path (Truncated (indent_of a) (JObj doc)) w;
         stderr := [WriteError]; stdout := [] |}.


Definition to_stdout (command : string) : args :=
  {| command := command; output_file := None; pretty := true |}.





(** ** What a match consumes *)

(** [den r p u rest cs]: the pattern [r], with the character [p] before
    it, can consume [u] in front of [rest], recording the groups [cs]
    (the latest first).  Every match of [rmatch] is of this kind
    ([rmatch_den] below). *)
Inductive den : regex -> option ascii -> string -> string -> caps -> Prop :=
| DEps p rest : den Eps p "" rest []
| DChr f p a rest : f a = true -> den (Chr f) p (String a "") rest []
| DSeq r1 r2 p u1 u2 rest cs1 cs2 :
    den r1 p u1 (u2 ++ rest) cs1 ->
    den r2 (last_char p u1) u2 rest cs2 ->
    den (Seq r1 r2) p (u1 ++ u2) rest (cs2 ++ cs1)%list
| DAltL r1 r2 p u rest cs : den r1 p u rest cs -> den (Alt r1 r2) p u rest cs
| DAltR r1 r2 p u rest cs : den r2 p u rest cs -> den (Alt r1 r2) p u rest cs
| DStarNil greedy r p rest : den (Star greedy r) p "" rest []
| DStarCons greedy r p u1 u2 rest cs1 cs2 :
    u1 <> "" ->
    den r p u1 (u2 ++ rest) cs1 ->
    den (Star greedy r) (last_char p u1) u2 rest cs2 ->
    den (Star greedy r) p (u1 ++ u2) rest (cs2 ++ cs1)%list
| DGroup n r p u rest cs :
    den r p u rest cs -> den (Group n r) p u rest ((n, u) :: cs)
| DLook r p u rest cs : den r p u rest cs -> den (Look r) p "" (u ++ rest) cs
| DWordB p rest :
    xorb (Str.is_word_char p) (Str.starts_with_word rest) = true ->
    den WordB p "" rest []
| DEndZ p : den EndZ p "" "" []
| DDollar p rest :
    rest = "" \/ rest = String Str.nl "" -> den Dollar p "" rest [].

(** The cursor after [u] was consumed. *)
Definition advance (c : cursor) (u rest : string) : cursor :=
  Cursor (last_char (c_prev c) u) (c_pos c + String.length u) rest.

(** [body] only gives matches of [r]. *)
Definition sound (r : regex) (body : cursor -> caps -> kont -> option result)
  : Prop :=
  forall c g k x,
    body c g k = Some x ->
    exists u rest cs,
      c_rest c = u ++ rest /\ den r (c_prev c) u rest cs
      /\ k (advance c u rest) (cs ++ g)%list = Some x.

(** [m] is a match of [r] at an occurrence in [s]: after some [pre], it
    consumes some [u] in front of some [rest]. *)
Definition match_in (r : regex) (s : string) (m : rmatch_result) : Prop :=
  exists pre u rest,
    s = pre ++ u ++ rest /\ den r (last_char None pre) u rest (m_caps m).

(** *** Classes of characters and shapes of patterns *)

Definition all_codes : list nat := List.seq 0 256.

(** Every character of the class [h] is in the class [f]. *)
Definition subclass (h f : ascii -> bool) : bool :=
  forallb (fun n => implb (h (ascii_of_nat n)) (f (ascii_of_nat n))) all_codes.

Fixpoint str_all (f : ascii -> bool) (s : string) : bool :=
  match s with
  | EmptyString => true
  | String a s' => f a && str_all f s'
  end.

Fixpoint str_any (f : ascii -> bool) (s : string) : bool :=
  match s with
  | EmptyString => false
  | String a s' => f a || str_any f s'
  end.

(** Whether [s] begins, and ends, with a character of [f]. *)
Definition begins_in (f : ascii -> bool) (s : string) : bool :=
  match s with String a _ => f a | EmptyString => false end.

Definition ends_in (f : ascii -> bool) (s : string) : bool :=
  match last_char None s with Some a => f a | None => false end.

(** The pattern has no capturing group. *)
Fixpoint no_group (r : regex) : bool :=
  match r with
  | Group _ _ => false
  | Seq r1 r2 | Alt r1 r2 => no_group r1 && no_group r2
  | Star _ r1 | Look r1 => no_group r1
  | _ => true
  end.

(** Every character that the pattern consumes is in [f]. *)
Fixpoint consumes_in (f : ascii -> bool) (r : regex) : bool :=
  match r with
  | Chr h => subclass h f
  | Seq r1 r2 | Alt r1 r2 => consumes_in f r1 && consumes_in f r2
  | Star _ r1 | Group _ r1 => consumes_in f r1
  | _ => true
  end.

(** Every match of the pattern begins with a character of [f]. *)
Fixpoint first_in (f : ascii -> bool) (r : regex) : bool :=
  match r with
  | Chr h => subclass h f
  | Seq r1 _ | Group _ r1 => first_in f r1
  | Alt r1 r2 => first_in f r1 && first_in f r2
  | _ => false
  end.

(** Whether every match of the pattern ends with a character of [f], and
    whether every match that is not empty does. *)
Fixpoint last_shape (f : ascii -> bool) (r : regex) : bool * bool :=
  match r with
  | Chr h => (subclass h f, subclass h f)
  | Seq r1 r2 =>
      let (a1, o1) := last_shape f r1 in
      let (a2, o2) := last_shape f r2 in
      (a2 || (a1 && o2), a2 || (o1 && o2))
  | Alt r1 r2 =>
      let (a1, o1) := last_shape f r1 in
      let (a2, o2) := last_shape f r2 in
      (a1 && a2, o1 && o2)
  | Star _ r1 => (false, snd (last_shape f r1))
  | Group _ r1 => last_shape f r1
  | _ => (false, true)
  end.

Definition last_in (f : ascii -> bool) (r : regex) : bool :=
  fst (last_shape f r).

(** Every match of the pattern has a character of [f]. *)
Fixpoint some_in (f : ascii -> bool) (r : regex) : bool :=
  match r with
  | Chr h => subclass h f
  | Seq r1 r2 => some_in f r1 || some_in f r2
  | Alt r1 r2 => some_in f r1 && some_in f r2
  | Group _ r1 => some_in f r1
  | _ => false
  end.

Definition not_space (a : ascii) : bool := negb (Str.is_space a).

Definition word_or_dot (a : ascii) : bool := Str.is_word a || Ascii.eqb a ".".

(** The least number of characters that a match of the pattern consumes. *)
Fixpoint min_len (r : regex) : nat :=
  match r with
  | Chr _ => 1
  | Seq r1 r2 => min_len r1 + min_len r2
  | Alt r1 r2 => Nat.min (min_len r1) (min_len r2)
  | Group _ r1 => min_len r1
  | _ => 0
  end.

Definition is_dash (a : ascii) : bool := Ascii.eqb "-" a.

(** Every text that a group of the pattern captures is made of characters
    of [f]. *)
Fixpoint captures_in (f : ascii -> bool) (r : regex) : bool :=
  match r with
  | Group _ r1 => consumes_in f r1 && captures_in f r1
  | Seq r1 r2 | Alt r1 r2 => captures_in f r1 && captures_in f r2
  | Star _ r1 | Look r1 => captures_in f r1
  | _ => true
  end.

Definition word_or_dash (a : ascii) : bool := Str.is_word a || Ascii.eqb a "-".

(** A small letter, a digit, an underscore or a hyphen. *)
Definition ident_char (a : ascii) : bool :=
  Str.is_lower a || Str.is_digit a || Ascii.eqb a "_" || Ascii.eqb a "-".

(** A page with a synopsis and an option, and its record. *)
Definition grep_page (_ : string) : option string :=
  Some (grep_synopsis ++ options_section cookie_entry).

Definition grep_tool : tool :=
  {| tool_name := "grep"; tool_description := no_description;
     parameters := [options_arg; pattern_arg; file_arg; cookie_param] |}.

(** ** One-line texts *)

(** [s] with every run of whitespace turned into one space; [in_run] says
    that the character before was whitespace. *)
Fixpoint collapse_from (in_run : bool) (s : string) : string :=
  match s with
  | EmptyString => EmptyString
  | String a s' =>
      if Str.is_space a
      then if in_run then collapse_from true s'
           else String " " (collapse_from true s')
      else String a (collapse_from false s')
  end.

Definition collapse (s : string) : string := collapse_from false s.

(** The only whitespace of [s] is single spaces: no tab, no line break and
    no two spaces in a row. *)
Fixpoint single_spaced (s : string) : bool :=
  match s with
  | EmptyString => true
  | String a s' =>
      (if Str.is_space a
       then Ascii.eqb a " " && negb (begins_in Str.is_space s') else true)
      && single_spaced s'
  end.

(** Whether a full stop, an exclamation mark or a question mark of [s] is
    followed by whitespace. *)
Fixpoint has_sentence_end (s : string) : bool :=
  match s with
  | EmptyString => false
  | String a s' =>
      (Str.has_char a ".!?" && begins_in Str.is_space s') || has_sentence_end s'
  end.

(** A page with a NAME section whose text runs over two lines, with a tab
    in the second. *)
Definition two_line_name : string :=
  line "NAME" ++ line "    foo - does a thing,"
  ++ line ("      and" ++ String "009"%char "more") ++ line "".

(** A page with a DESCRIPTION section of two sentences. *)
Definition two_sentences : string :=
  line "DESCRIPTION" ++ line "    Copies files.  Then it stops." ++ line ""
  ++ line "AUTHOR".

Definition plain_page (_ : string) : option string := Some "just some text".


(** ** The NAME section *)








(** A local page is there: [col] returned 0 and wrote more than whitespace. *)
Definition local_found (src : sources) (command : string) : bool :=
  match local_page src command with
  | Piped returncode stdout =>
      Z.eqb returncode 0%Z && Str.nonempty (Str.strip stdout)
  | _ => false
  end.

(** Sources where [col] writes a blank line and the site answers [reply]. *)
Definition blank_local (reply : web_outcome) : sources :=
  {| local_page := fun _ => Piped 0 (line "   ");
     web_page := fun _ => reply |}.

(** The error lines of [get_man_page_from_web]. *)
Definition is_web_error (e : event) : bool :=
  match e with
  | StatusError _ | NoContentError | FetchError | WebParseError => true
  | _ => false
  end.

(** The two notices of [get_man_page]. *)
Definition is_notice (command : string) (e : event) : Prop :=
  e = LocalNotFound command \/ e = ToolsNotFound.

(** The site gives a page: status 200 and a content division. *)
Definition web_found (src : sources) (command : string) : option string :=
  match web_page src (man_url command) with
  | Response status_code (Some text) =>
      if Nat.eqb status_code 200 then Some text else None
  | _ => None
  end.

(** ** The parameter objects *)

Definition param_kinds : list string :=
  ["flag"; "option"; "option-equals"; "option-kv-equals"; "option-kv-colon";
   "positional"].

(** What every parameter object of a record has: a name that is not empty
    and one of the six parameter types under keys that occur once; a
    position exactly when it is positional, and then a value type and no
    description; no value type when it is a flag. *)
Definition param_schema (fields : list (string * json)) : Prop :=
  NoDup (map fst fields)
  /\ exists n k,
       lookup "name" fields = Some (JStr n) /\ n <> ""
       /\ lookup "param-type" fields = Some (JStr k) /\ In k param_kinds
       /\ (has_key "position" fields = true <-> k = "positional")
       /\ (k = "positional" ->
           has_key "value-type" fields = true
           /\ has_key "description" fields = false)
       /\ (k = "flag" -> has_key "value-type" fields = false).

(** * The matcher and the strings *)

(** ** Strings *)

Lemma append_length (s t : string) :
  String.length (s ++ t) = String.length s + String.length t.
Proof. induction s as [|a s IH]; simpl; [|rewrite IH]; reflexivity. Qed.

Lemma append_assoc (s t u : string) : (s ++ t) ++ u = s ++ t ++ u.
Proof. induction s as [|a s IH]; simpl; [|rewrite IH]; reflexivity. Qed.

(** ** The matcher *)

Lemma reach_refl (c : cursor) : reach c c.
Proof. exists "". simpl. rewrite Nat.add_0_r. auto. Qed.

Lemma reach_trans (c1 c2 c3 : cursor) : reach c1 c2 -> reach c2 c3 -> reach c1 c3.
Proof.
  intros [u [Hu Hi]] [v [Hv Hj]]. exists (u ++ v).
  rewrite Hu, Hv, Hj, Hi, append_length, append_assoc.
  split; [reflexivity | lia].
Qed.

Lemma reach_step (c c' : cursor) (a : ascii) : step c = Some (a, c') -> reach c c'.
Proof.
  unfold step. destruct (c_rest c) as [|b s] eqn:E; [discriminate|].
  intros H. injection H as <- <-. exists (String b ""). simpl.
  split; [exact E | lia].
Qed.

Lemma reach_length (c c' : cursor) :
  reach c c' ->
  c_pos c <= c_pos c'
  /\ String.length (c_rest c)
     = (c_pos c' - c_pos c) + String.length (c_rest c').
Proof.
  intros [u [Hu Hi]]. rewrite Hu, Hi, append_length. lia.
Qed.

Lemma star_loop_respects body greedy (Hbody : respects body) (fuel : nat) :
  forall c g k1 k2,
    (forall c' g', reach c c' -> k1 c' g' = k2 c' g') ->
    star_loop body greedy k1 fuel c g = star_loop body greedy k2 fuel c g.
Proof.
  induction fuel as [|fuel IH]; intros c g k1 k2 Hk; simpl.
  - apply Hk, reach_refl.
  - rewrite (Hk c g (reach_refl c)).
    rewrite (Hbody c g _ (fun c' g' =>
               if Nat.ltb (c_pos c) (c_pos c')
               then star_loop body greedy k2 fuel c' g' else None)).
    + reflexivity.
    + intros c' g' Hc'. destruct (Nat.ltb (c_pos c) (c_pos c')); [|reflexivity].
      apply IH. intros c'' g'' Hc''. apply Hk. eapply reach_trans; eauto.
Qed.

Lemma rmatch_respects (r : regex) : respects (rmatch r).
Proof.
  unfold respects.
  induction r as [|f|r1 IH1 r2 IH2|r1 IH1 r2 IH2|greedy r1 IH1|n r1 IH1|r1 IH1| | |];
    intros c g k1 k2 Hk; cbn [rmatch].
  - apply Hk, reach_refl.
  - destruct (step c) as [[a c']|] eqn:E; [|reflexivity].
    destruct (f a); [|reflexivity]. apply Hk. eapply reach_step; eauto.
  - apply IH1. intros c' g' Hc'. apply IH2. intros c'' g'' Hc''.
    apply Hk. eapply reach_trans; eauto.
  - rewrite (IH1 c g k1 k2 Hk), (IH2 c g k1 k2 Hk). reflexivity.
  - apply star_loop_respects; [exact IH1 | exact Hk].
  - apply IH1. intros c' g' Hc'. apply Hk, Hc'.
  - destruct (rmatch r1 c g _) as [[c1 g1]|]; [apply Hk, reach_refl | reflexivity].
  - rewrite (Hk c g (reach_refl c)). reflexivity.
  - rewrite (Hk c g (reach_refl c)). reflexivity.
  - rewrite (Hk c g (reach_refl c)). reflexivity.
Qed.

Lemma star_loop_lands body greedy k (Hbody : lands body) (fuel : nat) :
  forall c g x,
    star_loop body greedy k fuel c g = Some x ->
    exists c' g', reach c c' /\ k c' g' = Some x.
Proof.
  induction fuel as [|fuel IH]; intros c g x H; simpl in H.
  - exists c, g. split; [apply reach_refl | exact H].
  - assert (Hagain : forall y,
               body c g (fun c' g' =>
                 if Nat.ltb (c_pos c) (c_pos c')
                 then star_loop body greedy k fuel c' g' else None) = Some y ->
               exists c' g', reach c c' /\ k c' g' = Some y).
    { intros y Hy. apply Hbody in Hy. destruct Hy as [c' [g' [Hc' Hy]]].
      destruct (Nat.ltb (c_pos c) (c_pos c')); [|discriminate Hy].
      apply IH in Hy. destruct Hy as [c'' [g'' [Hc'' Hy]]].
      exists c'', g''. split; [eapply reach_trans; eauto | exact Hy]. }
    destruct greedy.
    + destruct (body c g _) as [y|] eqn:E.
      * injection H as <-. apply Hagain. reflexivity.
      * exists c, g. split; [apply reach_refl | exact H].
    + destruct (k c g) as [y|] eqn:E.
      * injection H as <-. exists c, g. split; [apply reach_refl | exact E].
      * apply Hagain, H.
Qed.

Lemma rmatch_lands (r : regex) : lands (rmatch r).
Proof.
  unfold lands.
  induction r as [|f|r1 IH1 r2 IH2|r1 IH1 r2 IH2|greedy r1 IH1|n r1 IH1|r1 IH1| | |];
    intros c g k x H; cbn [rmatch] in H.
  - exists c, g. split; [apply reach_refl | exact H].
  - destruct (step c) as [[a c']|] eqn:E; [|discriminate H].
    destruct (f a); [|discriminate H].
    exists c', g. split; [eapply reach_step; eauto | exact H].
  - apply IH1 in H. destruct H as [c' [g' [Hc' H]]].
    apply IH2 in H. destruct H as [c'' [g'' [Hc'' H]]].
    exists c'', g''. split; [eapply reach_trans; eauto | exact H].
  - destruct (rmatch r1 c g k) as [y|] eqn:E.
    + injection H as <-. exact (IH1 _ _ _ _ E).
    + exact (IH2 _ _ _ _ H).
  - eapply star_loop_lands; [exact IH1 | exact H].
  - apply IH1 in H. destruct H as [c' [g' [Hc' H]]]. eauto.
  - destruct (rmatch r1 c g _) as [[c1 g1]|]; [|discriminate H].
    exists c, g1. split; [apply reach_refl | exact H].
  - destruct (xorb _ _); [|discriminate H].
    exists c, g. split; [apply reach_refl | exact H].
  - destruct (c_rest c); [|discriminate H].
    exists c, g. split; [apply reach_refl | exact H].
  - exists c, g. split; [apply reach_refl|].
    destruct (c_rest c) as [|a [|b s]]; try discriminate H; [exact H|].
    destruct (Ascii.eqb a Str.nl); [exact H | discriminate H].
Qed.

(** The rounds given to a repetition are enough: more of them change
    nothing. *)
Lemma star_loop_fuel body greedy k (Hbody : respects body) (n : nat) :
  forall c g f1 f2,
    String.length (c_rest c) <= n -> n < f1 -> n < f2 ->
    star_loop body greedy k f1 c g = star_loop body greedy k f2 c g.
Proof.
  induction n as [|n IH]; intros c g f1 f2 Hlen H1 H2;
    destruct f1 as [|f1]; try lia; destruct f2 as [|f2]; try lia; simpl.
  - rewrite (Hbody c g _ (fun c' g' =>
               if Nat.ltb (c_pos c) (c_pos c')
               then star_loop body greedy k f2 c' g' else None));
      [reflexivity|].
    intros c' g' Hc'. destruct (Nat.ltb_spec (c_pos c) (c_pos c')); [|reflexivity].
    apply reach_length in Hc'. lia.
  - rewrite (Hbody c g _ (fun c' g' =>
               if Nat.ltb (c_pos c) (c_pos c')
               then star_loop body greedy k f2 c' g' else None));
      [reflexivity|].
    intros c' g' Hc'. destruct (Nat.ltb_spec (c_pos c) (c_pos c')); [|reflexivity].
    apply reach_length in Hc'. apply IH; lia.
Qed.

Lemma star_fuel (greedy : bool) (r : regex) (c : cursor) (g : caps) (k : kont)
  (extra : nat) :
  rmatch (Star greedy r) c g k
  = star_loop (rmatch r) greedy k (S (String.length (c_rest c)) + extra) c g.
Proof.
  cbn [rmatch]. apply (star_loop_fuel _ _ _ (rmatch_respects r) (String.length (c_rest c)));
    lia.
Qed.

Lemma search_at_found (r : regex) (s : string) :
  forall adv p i m,
    search_at r adv p i s = Some m ->
    reach (Cursor p i s) (m_end m)
    /\ i <= m_start m /\ m_start m <= m_stop m
    /\ (adv = true -> i < m_stop m).
Proof.
  induction s as [|a s IH]; intros adv p i m H; simpl in H.
  - destruct (rmatch r _ [] _) as [[c' g]|] eqn:E; [|discriminate H].
    injection H as <-. apply rmatch_lands in E.
    destruct E as [c'' [g'' [Hc'' E]]]. unfold accept in E.
    destruct (adv && Nat.eqb (c_pos c'') _) eqn:Hadv; [discriminate E|].
    injection E as -> ->. pose proof (reach_length _ _ Hc'') as [Hle _].
    unfold m_stop. simpl in *. repeat split; auto.
    intros ->. simpl in Hadv. apply Nat.eqb_neq in Hadv. lia.
  - destruct (rmatch r _ [] _) as [[c' g]|] eqn:E.
    + injection H as <-. apply rmatch_lands in E.
      destruct E as [c'' [g'' [Hc'' E]]]. unfold accept in E.
      destruct (adv && Nat.eqb (c_pos c'') _) eqn:Hadv; [discriminate E|].
      injection E as -> ->. pose proof (reach_length _ _ Hc'') as [Hle _].
      unfold m_stop. simpl in *. repeat split; auto.
      intros ->. simpl in Hadv. apply Nat.eqb_neq in Hadv. lia.
    + apply IH in H. destruct H as [Hreach [Hstart [Hstop _]]].
      repeat split; try lia.
      eapply reach_trans; [|exact Hreach].
      apply (reach_step _ _ a). reflexivity.
Qed.

(** The rounds given to [re_finditer] are enough: more of them change
    nothing. *)
Lemma finditer_from_fuel (r : regex) (n : nat) :
  forall (adv : bool) (c : cursor) (f1 f2 : nat),
    2 * String.length (c_rest c) + (if adv then 1 else 2) <= n ->
    n <= f1 -> n <= f2 ->
    finditer_from f1 r adv c = finditer_from f2 r adv c.
Proof.
  induction n as [|n IH]; intros adv c f1 f2 Hn H1 H2.
  - destruct adv; lia.
  - destruct f1 as [|f1]; [lia|]. destruct f2 as [|f2]; [lia|]. simpl.
    destruct (search_at r adv (c_prev c) (c_pos c) (c_rest c)) as [m|] eqn:E;
      [|reflexivity].
    f_equal. apply search_at_found in E.
    destruct E as [Hreach [Hstart [Hstop Hadv]]].
    apply reach_length in Hreach. simpl in Hreach. unfold m_stop in *.
    apply IH; try lia.
    destruct (Nat.eqb_spec (c_pos (m_end m)) (m_start m)); destruct adv;
      try (specialize (Hadv eq_refl)); lia.
Qed.

Lemma finditer_fuel (r : regex) (s : string) (extra : nat) :
  re_finditer r s
  = finditer_from (2 * String.length s + 2 + extra) r false (Cursor None 0 s).
Proof.
  unfold re_finditer.
  apply (finditer_from_fuel r (2 * String.length s + 2)); simpl; lia.
Qed.

(** *** Offsets *)

(** A match does not depend on the offset it starts from: moving the
    cursor by [d] moves the result by [d]. *)

Lemma ltb_shift (d a b : nat) : Nat.ltb (a + d) (b + d) = Nat.ltb a b.
Proof.
  destruct (Nat.ltb_spec a b), (Nat.ltb_spec (a + d) (b + d)); auto; lia.
Qed.

Lemma eqb_shift (d a b : nat) : Nat.eqb (a + d) (b + d) = Nat.eqb a b.
Proof.
  destruct (Nat.eqb_spec a b), (Nat.eqb_spec (a + d) (b + d)); auto; lia.
Qed.

Lemma star_loop_shift (d : nat) body greedy
  (Hbody : forall c g k k', shifted d k k' ->
     body (shift d c) g k' = option_map (shift_result d) (body c g k))
  (fuel : nat) :
  forall c g k k', shifted d k k' ->
    star_loop body greedy k' fuel (shift d c) g
    = option_map (shift_result d) (star_loop body greedy k fuel c g).
Proof.
  induction fuel as [|fuel IH]; intros c g k k' Hk; simpl; [apply Hk|].
  rewrite (Hbody c g
             (fun c' g' => if Nat.ltb (c_pos c) (c_pos c')
                           then star_loop body greedy k fuel c' g' else None)).
  - rewrite (Hk c g).
    destruct greedy.
    + destruct (body c g _); reflexivity.
    + destruct (k c g); reflexivity.
  - intros c' g'. cbn [shift c_pos]. rewrite ltb_shift.
    destruct (Nat.ltb (c_pos c) (c_pos c')); [|reflexivity].
    apply IH, Hk.
Qed.

Lemma rmatch_shift (d : nat) (r : regex) :
  forall c g k k', shifted d k k' ->
    rmatch r (shift d c) g k' = option_map (shift_result d) (rmatch r c g k).
Proof.
  induction r as [|f|r1 IH1 r2 IH2|r1 IH1 r2 IH2|greedy r1 IH1|n r1 IH1|r1 IH1| | |];
    intros c g k k' Hk; cbn [rmatch].
  - apply Hk.
  - unfold step. cbn [shift c_rest c_pos].
    destruct (c_rest c) as [|a s]; [reflexivity|].
    destruct (f a); [|reflexivity].
    apply (Hk (Cursor (Some a) (S (c_pos c)) s)).
  - apply IH1. intros c' g'. apply IH2, Hk.
  - rewrite (IH1 c g k k' Hk), (IH2 c g k k' Hk).
    destruct (rmatch r1 c g k); reflexivity.
  - apply star_loop_shift; [exact IH1 | exact Hk].
  - apply IH1. intros c' g'. cbn [shift c_pos c_rest].
    replace (c_pos c' + d - (c_pos c + d)) with (c_pos c' - c_pos c) by lia.
    apply Hk.
  - rewrite (IH1 c g (fun c' g' => Some (c', g')) (fun c' g' => Some (c', g')));
      [|intros c' g'; reflexivity].
    destruct (rmatch r1 c g _) as [[c1 g1]|]; [apply Hk | reflexivity].
  - unfold word_before, word_after. cbn [shift c_prev c_rest].
    destruct (xorb _ _); [apply Hk | reflexivity].
  - cbn [shift c_rest]. destruct (c_rest c); [apply Hk | reflexivity].
  - cbn [shift c_rest]. destruct (c_rest c) as [|a [|b s]];
      try reflexivity; [apply Hk|].
    destruct (Ascii.eqb a Str.nl); [apply Hk | reflexivity].
Qed.

Lemma accept_shifted (d : nat) (adv : bool) (c0 : cursor) :
  shifted d (accept adv c0) (accept adv (shift d c0)).
Proof.
  intros c g. unfold accept. cbn [shift c_pos]. rewrite eqb_shift.
  destruct (adv && _); reflexivity.
Qed.

Lemma search_at_shift (d : nat) (r : regex) (s : string) :
  forall adv p i,
    search_at r adv p (i + d) s
    = option_map (shift_match d) (search_at r adv p i s).
Proof.
  induction s as [|a s IH]; intros adv p i; cbn [search_at].
  - change (Cursor p (i + d) "") with (shift d (Cursor p i "")).
    rewrite (rmatch_shift d r _ [] _ _ (accept_shifted d adv _)).
    destruct (rmatch r _ [] _) as [[c' g]|]; reflexivity.
  - change (Cursor p (i + d) (String a s)) with (shift d (Cursor p i (String a s))).
    rewrite (rmatch_shift d r _ [] _ _ (accept_shifted d adv _)).
    destruct (rmatch r _ [] _) as [[c' g]|]; [reflexivity|].
    apply (IH false (Some a) (S i)).
Qed.

(** *** Literals *)

Lemma last_char_word (pre : string) (p : option ascii) :
  Str.is_word_char (last_char p pre)
  = match pre with
    | EmptyString => Str.is_word_char p
    | _ => Str.ends_with_word pre
    end.
Proof.
  revert p. induction pre as [|a pre IH]; intros p; [reflexivity|].
  simpl. rewrite IH. destruct pre; reflexivity.
Qed.

(** A literal matches the text that begins with it, and goes on after it. *)
Lemma rmatch_lit_prefix (w : string) :
  forall (s : string) (p : option ascii) (i : nat) (g : caps) (k : kont),
    rmatch (lit w) (Cursor p i s) g k
    = if String.prefix w s
      then k (Cursor (last_char p w) (i + String.length w)
                (Str.drop (String.length w) s)) g
      else None.
Proof.
  induction w as [|a w IH]; intros s p i g k.
  - simpl. rewrite Nat.add_0_r. destruct s; reflexivity.
  - assert (Hone : rmatch (Seq (chr a) (lit w)) (Cursor p i s) g k
                   = if String.prefix (String a w) s
                     then k (Cursor (last_char p (String a w))
                               (i + String.length (String a w))
                               (Str.drop (String.length (String a w)) s)) g
                     else None).
    { cbn [rmatch chr]. unfold step. cbn [c_rest c_pos].
      destruct s as [|b s]; [reflexivity|]. cbn [String.prefix].
      destruct (ascii_dec a b) as [->|Hab].
      - rewrite Ascii.eqb_refl, IH. cbn [last_char String.length Str.drop].
        rewrite Nat.add_succ_r. reflexivity.
      - destruct (Ascii.eqb_spec a b); [contradiction | reflexivity]. }
    destruct w as [|b w']; [|exact Hone].
    rewrite <- Hone. cbn [lit rmatch chr]. unfold step. cbn [c_rest c_pos].
    destruct s as [|c s]; [reflexivity|].
    destruct (Ascii.eqb a c); reflexivity.
Qed.

Lemma drop_app (w post : string) : Str.drop (String.length w) (w ++ post) = post.
Proof. induction w as [|a w IH]; [destruct post; reflexivity | exact IH]. Qed.

Lemma prefix_app (w post : string) : String.prefix w (w ++ post) = true.
Proof.
  induction w as [|a w IH]; [destruct post; reflexivity|].
  simpl. destruct (ascii_dec a a); [exact IH | contradiction].
Qed.

Lemma rmatch_lit (w post : string) (p : option ascii) (i : nat) (g : caps)
  (k : kont) :
  rmatch (lit w) (Cursor p i (w ++ post)) g k
  = k (Cursor (last_char p w) (i + String.length w) post) g.
Proof. rewrite rmatch_lit_prefix, prefix_app, drop_app. reflexivity. Qed.

(** Where the text does not begin with the literal, a pattern that begins
    with it does not match. *)
Lemma rmatch_lit_first (w : string) (r : regex) (s : string) (p : option ascii)
  (i : nat) (g : caps) (k : kont) :
  String.prefix w s = false -> rmatch (Seq (lit w) r) (Cursor p i s) g k = None.
Proof. intros H. cbn [rmatch]. rewrite rmatch_lit_prefix, H. reflexivity. Qed.


(** *** Searching *)

Lemma search_at_later (r : regex) (pre s : string) :
  forall (p : option ascii) (i : nat),
    search_at r false (last_char p pre) (i + String.length pre) s <> None ->
    search_at r false p i (pre ++ s) <> None.
Proof.
  induction pre as [|a pre IH]; intros p i H.
  - simpl in *. rewrite Nat.add_0_r in H. exact H.
  - simpl. destruct (rmatch r _ _ _) as [[c' g]|]; [discriminate|].
    apply IH. simpl in H. rewrite Nat.add_succ_r in H. exact H.
Qed.

(** An alternation of literals matches when one of them is at the cursor
    and the rest of the pattern matches after it. *)
Lemma rmatch_alt_lit (l : list string) (w post : string) (p : option ascii)
  (i : nat) (g : caps) (k : kont) :
  In w l ->
  k (Cursor (last_char p w) (i + String.length w) post) g <> None ->
  rmatch (alt (map lit l)) (Cursor p i (w ++ post)) g k <> None.
Proof.
  intros Hin Hk. induction l as [|a l IH]; [destruct Hin|].
  destruct l as [|b l'].
  - destruct Hin as [->|[]]. simpl. rewrite rmatch_lit. exact Hk.
  - change (alt (map lit (a :: b :: l')))
      with (Alt (lit a) (alt (map lit (b :: l')))).
    cbn [rmatch].
    destruct Hin as [->|Hin].
    + rewrite rmatch_lit.
      destruct (k _ g) as [x|]; [discriminate | congruence].
    + destruct (rmatch (lit a) _ g k); [discriminate | apply IH, Hin].
Qed.

(** A pattern \b(w1|...|wn)\b is found in a text that contains one of the
    words as a word. *)
Lemma word_of_found (l : list string) (w s : string) :
  In w l ->
  Str.starts_with_word w = true -> Str.ends_with_word w = true ->
  has_word w s ->
  re_found (word_of l) s = true.
Proof.
  intros Hin Hfirst Hlast [pre [post [-> [Hpre Hpost]]]].
  unfold re_found, re_search.
  pose proof (search_at_later (word_of l) pre (w ++ post) None 0) as Hlater.
  destruct (search_at (word_of l) false None 0 (pre ++ w ++ post));
    [reflexivity|].
  exfalso. apply Hlater; [|reflexivity]. clear Hlater.
  simpl (0 + _).
  remember (last_char None pre) as p eqn:Hp.
  assert (Hbefore : Str.is_word_char p = false).
  { subst p. rewrite last_char_word. destruct pre; [reflexivity | exact Hpre]. }
  destruct w as [|a w']; [discriminate Hfirst|].
  remember (String a w') as w eqn:Hw.
  assert (Hstart : Str.starts_with_word (w ++ post) = true)
    by (subst w; exact Hfirst).
  assert (Hgo : rmatch (word_of l) (Cursor p (String.length pre) (w ++ post)) []
                  (accept false (Cursor p (String.length pre) (w ++ post)))
                <> None).
  { unfold word_of.
    change (seq [WordB; Group 1 (alt (map lit l)); WordB])
      with (Seq WordB (Seq (Group 1 (alt (map lit l))) WordB)).
    cbn [rmatch]. unfold word_before, word_after. cbn [c_prev c_rest].
    rewrite Hbefore, Hstart. cbn [xorb].
    apply rmatch_alt_lit; [exact Hin|].
    unfold word_before, word_after. cbn [c_prev c_rest].
    rewrite last_char_word, Hpost. subst w. rewrite Hlast. cbn [xorb].
    unfold accept. discriminate. }
  subst w.
  change (String a w' ++ post) with (String a (w' ++ post)) in *.
  cbn [search_at].
  destruct (rmatch (word_of l) _ [] _) as [[c' g]|]; [discriminate|].
  exfalso. apply Hgo. reflexivity.
Qed.

(** *** Lowercase *)

Lemma is_word_lower_char (a : ascii) :
  Str.is_word (Str.lower_char a) = Str.is_word a.
Proof. destruct a as [[] [] [] [] [] [] [] []]; reflexivity. Qed.

Lemma lower_app (s t : string) :
  Str.lower (s ++ t) = Str.lower s ++ Str.lower t.
Proof. induction s as [|a s IH]; simpl; [|rewrite IH]; reflexivity. Qed.

Lemma starts_with_word_lower (s : string) :
  Str.starts_with_word (Str.lower s) = Str.starts_with_word s.
Proof. destruct s; [reflexivity | apply is_word_lower_char]. Qed.

Lemma ends_with_word_lower (s : string) :
  Str.ends_with_word (Str.lower s) = Str.ends_with_word s.
Proof.
  induction s as [|a s IH]; [reflexivity|].
  destruct s as [|b s']; [apply is_word_lower_char | exact IH].
Qed.

(** A text that contains a lowercase word contains it once lowercased. *)
Lemma has_word_lower (w s : string) :
  Str.lower w = w -> has_word w s -> has_word w (Str.lower s).
Proof.
  intros Hw [pre [post [-> [Hpre Hpost]]]].
  exists (Str.lower pre), (Str.lower post).
  rewrite !lower_app, Hw, ends_with_word_lower, starts_with_word_lower.
  auto.
Qed.

(** *** Lists and lookups *)

Lemma collect_In {A B : Type} (f : A -> option B) (l : list A) (b : B) :
  In b (collect f l) <-> exists a, In a l /\ f a = Some b.
Proof.
  induction l as [|a l IH]; simpl.
  - split; [tauto | intros [a [[] _]]].
  - destruct (f a) as [b'|] eqn:E; simpl; rewrite IH; split.
    + intros [->|[a' [Hin Ha']]]; [exists a | exists a']; auto.
    + intros [a' [[->|Hin] Ha']].
      * left; congruence.
      * right; exists a'; auto.
    + intros [a' [Hin Ha']]; exists a'; auto.
    + intros [a' [[->|Hin] Ha']]; [congruence | exists a'; auto].
Qed.

Lemma lookup_update (key : string) (v x : json) (fields : list (string * json)) :
  lookup key fields = Some x -> lookup key (update key v fields) = Some v.
Proof.
  induction fields as [|[k y] fields IH]; simpl; [discriminate|].
  destruct (String.eqb k key) eqn:E; simpl; rewrite E; auto.
Qed.

Lemma lookup_update_other (key k : string) (v : json) (fields : list (string * json)) :
  k <> key -> lookup k (update key v fields) = lookup k fields.
Proof.
  intros Hk. induction fields as [|[k' y] fields IH]; simpl; [reflexivity|].
  destruct (String.eqb k' key) eqn:E; simpl.
  - destruct (String.eqb k' k) eqn:E'; [|reflexivity].
    apply String.eqb_eq in E, E'. congruence.
  - rewrite IH. reflexivity.
Qed.

Lemma nonempty_true (s : string) : s <> "" -> Str.nonempty s = true.
Proof. destruct s; [congruence | reflexivity]. Qed.


Lemma contains_prefix (p v : string) :
  Str.contains p v = false -> String.prefix p v = false.
Proof.
  intros H. destruct v; simpl in H; apply orb_false_iff in H; apply H.
Qed.


(** ** What the matcher consumes *)

Lemma last_char_app (p : option ascii) (u v : string) :
  last_char p (u ++ v) = last_char (last_char p u) v.
Proof. revert p. induction u as [|a u IH]; intros p; simpl; auto. Qed.

Lemma take_app (u rest : string) : Str.take (String.length u) (u ++ rest) = u.
Proof.
  induction u as [|a u IH]; simpl; [destruct rest; reflexivity|].
  rewrite IH. reflexivity.
Qed.

Lemma advance_nil (c : cursor) : advance c "" (c_rest c) = c.
Proof. destruct c. unfold advance. simpl. rewrite Nat.add_0_r. reflexivity. Qed.

Lemma advance_app (c : cursor) (u1 u2 rest : string) :
  advance (advance c u1 (u2 ++ rest)) u2 rest = advance c (u1 ++ u2) rest.
Proof.
  unfold advance. cbn [c_prev c_pos].
  rewrite last_char_app, append_length, Nat.add_assoc. reflexivity.
Qed.

Lemma star_loop_sound (greedy : bool) (r : regex) body (Hbody : sound r body)
  (fuel : nat) :
  sound (Star greedy r) (fun c g k => star_loop body greedy k fuel c g).
Proof.
  unfold sound in *. induction fuel as [|fuel IH]; intros c g k x H; simpl in H.
  - exists "", (c_rest c), []. rewrite advance_nil.
    repeat split; [constructor | exact H].
  - assert (Hstop : k c g = Some x ->
              exists u rest cs,
                c_rest c = u ++ rest /\ den (Star greedy r) (c_prev c) u rest cs
                /\ k (advance c u rest) (cs ++ g)%list = Some x).
    { intros Hk. exists "", (c_rest c), []. rewrite advance_nil.
      repeat split; [constructor | exact Hk]. }
    assert (Hagain : body c g (fun c' g' =>
                       if Nat.ltb (c_pos c) (c_pos c')
                       then star_loop body greedy k fuel c' g' else None)
                     = Some x ->
              exists u rest cs,
                c_rest c = u ++ rest /\ den (Star greedy r) (c_prev c) u rest cs
                /\ k (advance c u rest) (cs ++ g)%list = Some x).
    { intros Hb. apply Hbody in Hb.
      destruct Hb as [u1 [rest1 [cs1 [Hc [Hd Hk]]]]].
      destruct (Nat.ltb_spec (c_pos c) (c_pos (advance c u1 rest1)));
        [|discriminate Hk].
      apply IH in Hk. destruct Hk as [u2 [rest [cs2 [Hc2 [Hd2 Hk]]]]].
      cbn [advance c_rest c_prev c_pos] in *. subst rest1.
      exists (u1 ++ u2), rest, (cs2 ++ cs1)%list.
      rewrite append_assoc. split; [exact Hc|]. split.
      - apply DStarCons; [|exact Hd|exact Hd2].
        intros ->. simpl in *. lia.
      - rewrite <- List.app_assoc.
        change (Cursor (last_char (last_char (c_prev c) u1) u2)
                  (c_pos c + String.length u1 + String.length u2) rest)
          with (advance (advance c u1 (u2 ++ rest)) u2 rest) in Hk.
        rewrite advance_app in Hk. exact Hk. }
    destruct greedy.
    + destruct (body c g _) as [y|] eqn:E.
      * injection H as <-. apply Hagain. reflexivity.
      * apply Hstop, H.
    + destruct (k c g) as [y|] eqn:E.
      * injection H as <-. apply Hstop. reflexivity.
      * apply Hagain, H.
Qed.

(** Every match of [rmatch] consumes a text that the pattern denotes, and
    records the groups of that text. *)
Lemma rmatch_den (r : regex) : sound r (rmatch r).
Proof.
  unfold sound.
  induction r as [|f|r1 IH1 r2 IH2|r1 IH1 r2 IH2|greedy r1 IH1|n r1 IH1|r1 IH1| | |];
    intros c g k x H; cbn [rmatch] in H.
  - exists "", (c_rest c), []. rewrite advance_nil.
    repeat split; [constructor | exact H].
  - unfold step in H. destruct (c_rest c) as [|a s] eqn:E; [discriminate H|].
    destruct (f a) eqn:Hf; [|discriminate H].
    exists (String a ""), s, []. unfold advance. cbn [last_char String.length].
    rewrite Nat.add_1_r. repeat split; [constructor; exact Hf | exact H].
  - apply IH1 in H. destruct H as [u1 [rest1 [cs1 [Hc [Hd H]]]]].
    apply IH2 in H. destruct H as [u2 [rest [cs2 [Hc2 [Hd2 H]]]]].
    cbn [advance c_rest c_prev] in Hc2, Hd2. subst rest1.
    exists (u1 ++ u2), rest, (cs2 ++ cs1)%list. rewrite append_assoc.
    split; [exact Hc|]. split; [constructor; assumption|].
    rewrite advance_app, List.app_assoc in H. exact H.
  - destruct (rmatch r1 c g k) as [y|] eqn:E.
    + injection H as <-. apply IH1 in E.
      destruct E as [u [rest [cs [Hc [Hd E]]]]].
      exists u, rest, cs. repeat split; [exact Hc | apply DAltL, Hd | exact E].
    + apply IH2 in H. destruct H as [u [rest [cs [Hc [Hd H]]]]].
      exists u, rest, cs. repeat split; [exact Hc | apply DAltR, Hd | exact H].
  - exact (star_loop_sound greedy r1 (rmatch r1) IH1 _ c g k x H).
  - apply IH1 in H. destruct H as [u [rest [cs [Hc [Hd H]]]]].
    exists u, rest, ((n, u) :: cs). split; [exact Hc|].
    split; [constructor; exact Hd|].
    cbn [advance c_pos] in H.
    replace (c_pos c + String.length u - c_pos c) with (String.length u) in H
      by lia.
    rewrite Hc, take_app in H. exact H.
  - destruct (rmatch r1 c g _) as [[c1 g1]|] eqn:E; [|discriminate H].
    apply IH1 in E. destruct E as [u [rest [cs [Hc [Hd E]]]]].
    injection E as _ <-.
    exists "", (c_rest c), cs. rewrite advance_nil. split; [reflexivity|].
    split; [rewrite Hc; constructor; exact Hd | exact H].
  - destruct (xorb _ _) eqn:E; [|discriminate H].
    exists "", (c_rest c), []. rewrite advance_nil.
    repeat split; [constructor; exact E | exact H].
  - exists "", (c_rest c), []. rewrite advance_nil.
    destruct (c_rest c) eqn:E; [|discriminate H].
    repeat split; [constructor | exact H].
  - exists "", (c_rest c), []. rewrite advance_nil.
    assert (Hrest : (c_rest c = "" \/ c_rest c = String Str.nl "")
                    /\ k c g = Some x).
    { destruct (c_rest c) as [|a [|b s]]; try discriminate H; [auto|].
      destruct (Ascii.eqb_spec a Str.nl); [subst; auto | discriminate H]. }
    destruct Hrest as [Hr Hk].
    repeat split; [constructor; exact Hr | exact Hk].
Qed.

Lemma search_at_den (r : regex) (s : string) :
  forall adv p i m,
    search_at r adv p i s = Some m ->
    exists pre u rest,
      s = pre ++ u ++ rest
      /\ den r (last_char p pre) u rest (m_caps m)
      /\ m_start m = i + String.length pre
      /\ m_end m = Cursor (last_char p (pre ++ u))
                     (i + String.length pre + String.length u) rest.
Proof.
  assert (Hhere : forall adv p i s' m c' g,
             rmatch r (Cursor p i s') [] (accept adv (Cursor p i s')) = Some (c', g) ->
             m = Match i c' g ->
             exists pre u rest,
               s' = pre ++ u ++ rest
               /\ den r (last_char p pre) u rest (m_caps m)
               /\ m_start m = i + String.length pre
               /\ m_end m = Cursor (last_char p (pre ++ u))
                              (i + String.length pre + String.length u) rest).
  { intros adv p i s' m c' g E ->. apply rmatch_den in E.
    destruct E as [u [rest [cs [Hc [Hd E]]]]]. unfold accept in E.
    destruct (adv && _); [discriminate E|]. injection E as <- <-.
    exists "", u, rest. cbn [c_rest c_prev] in *.
    rewrite List.app_nil_r. unfold advance. simpl.
    rewrite Nat.add_0_r. auto. }
  induction s as [|a s IH]; intros adv p i m H; cbn [search_at] in H.
  - destruct (rmatch r _ [] _) as [[c' g]|] eqn:E; [|discriminate H].
    injection H as <-. eapply Hhere; eauto.
  - destruct (rmatch r _ [] _) as [[c' g]|] eqn:E.
    + injection H as <-. eapply Hhere; eauto.
    + apply IH in H. destruct H as [pre [u [rest [Hs [Hd [Hstart Hend]]]]]].
      exists (String a pre), u, rest. subst s. simpl.
      rewrite Hstart, Hend. repeat split; auto; f_equal; lia.
Qed.

Lemma finditer_from_den (r : regex) (fuel : nat) :
  forall adv c done m,
    c_prev c = last_char None done ->
    In m (finditer_from fuel r adv c) -> match_in r (done ++ c_rest c) m.
Proof.
  induction fuel as [|fuel IH]; intros adv c done m Hp H; simpl in H;
    [destruct H|].
  destruct (search_at r adv (c_prev c) (c_pos c) (c_rest c)) as [m0|] eqn:E;
    [|destruct H].
  apply search_at_den in E. destruct E as [pre [u [rest [Hs [Hd [_ Hend]]]]]].
  destruct H as [<-|H].
  - exists (done ++ pre), u, rest. rewrite Hs, append_assoc, last_char_app, <- Hp.
    auto.
  - apply (IH _ _ (done ++ pre ++ u)) in H.
    + rewrite Hend in H. cbn [c_rest] in H.
      rewrite Hs, <- !append_assoc. rewrite <- !append_assoc in H. exact H.
    + rewrite Hend. cbn [c_prev]. rewrite Hp, <- last_char_app. reflexivity.
Qed.

(** Every match that [re.finditer], [re.findall], [re.sub] and [re.split]
    work on is a match of the pattern at an occurrence in the text. *)
Lemma re_finditer_den (r : regex) (s : string) (m : rmatch_result) :
  In m (re_finditer r s) -> match_in r s m.
Proof.
  intros H. apply (finditer_from_den r _ false _ "") in H; [exact H | reflexivity].
Qed.

Lemma re_search_den (r : regex) (s : string) (m : rmatch_result) :
  re_search r s = Some m -> match_in r s m.
Proof.
  intros H. apply search_at_den in H.
  destruct H as [pre [u [rest [Hs [Hd _]]]]]. exists pre, u, rest. auto.
Qed.

Lemma re_found_den (r : regex) (s : string) :
  re_found r s = true -> exists m, match_in r s m.
Proof.
  unfold re_found. destruct (re_search r s) as [m|] eqn:E; [|discriminate].
  intros _. exists m. apply re_search_den, E.
Qed.

(** *** Shapes *)

Lemma subclass_spec (h f : ascii -> bool) :
  subclass h f = true -> forall a, h a = true -> f a = true.
Proof.
  unfold subclass. rewrite forallb_forall. intros H a Ha.
  specialize (H (nat_of_ascii a)). rewrite ascii_nat_embedding, Ha in H.
  apply H. apply in_seq. pose proof (nat_ascii_bounded a). lia.
Qed.

Lemma str_all_app (f : ascii -> bool) (u v : string) :
  str_all f (u ++ v) = str_all f u && str_all f v.
Proof. induction u as [|a u IH]; simpl; [|rewrite IH, andb_assoc]; reflexivity. Qed.

Lemma str_any_app (f : ascii -> bool) (u v : string) :
  str_any f (u ++ v) = str_any f u || str_any f v.
Proof. induction u as [|a u IH]; simpl; [|rewrite IH, orb_assoc]; reflexivity. Qed.

Lemma ends_in_app (f : ascii -> bool) (u v : string) :
  ends_in f (u ++ v) = if Str.nonempty v then ends_in f v else ends_in f u.
Proof.
  unfold ends_in. rewrite last_char_app.
  destruct v as [|a v]; [reflexivity|]. cbn [Str.nonempty last_char].
  generalize (Some a). clear a. induction v as [|b v IH]; intros o; simpl; auto.
Qed.

Ltac split_andb :=
  repeat match goal with
         | H : _ && _ = true |- _ => apply andb_prop in H; destruct H
         end.

Lemma den_no_group (r : regex) p u rest cs :
  den r p u rest cs -> no_group r = true -> cs = [].
Proof.
  induction 1; cbn [no_group]; intros Hn; split_andb;
    try discriminate; try reflexivity; auto;
    rewrite IHden1, IHden2 by assumption; reflexivity.
Qed.

Ltac class_fact :=
  match goal with
  | Hs : subclass ?h ?f = true, Ha : ?h ?a = true |- _ =>
      pose proof (subclass_spec _ _ Hs a Ha)
  end.

Lemma den_consumes_in (f : ascii -> bool) (r : regex) p u rest cs :
  den r p u rest cs -> consumes_in f r = true -> str_all f u = true.
Proof.
  induction 1; cbn [consumes_in]; intros Hn; split_andb;
    try reflexivity; auto.
  - class_fact. simpl. rewrite H0. reflexivity.
  - rewrite str_all_app, IHden1, IHden2 by assumption. reflexivity.
  - rewrite str_all_app, IHden1, IHden2 by assumption. reflexivity.
Qed.

Lemma den_first_in (f : ascii -> bool) (r : regex) p u rest cs :
  den r p u rest cs -> first_in f r = true -> begins_in f u = true.
Proof.
  induction 1; cbn [first_in]; intros Hn; split_andb;
    try discriminate; auto.
  - class_fact. assumption.
  - specialize (IHden1 Hn). destruct u1; [discriminate IHden1 | exact IHden1].
Qed.

Lemma den_last_shape (f : ascii -> bool) (r : regex) p u rest cs :
  den r p u rest cs ->
  (fst (last_shape f r) = true -> ends_in f u = true)
  /\ (snd (last_shape f r) = true -> u = "" \/ ends_in f u = true).
Proof.
  assert (Hnon : forall v, ends_in f v = true -> Str.nonempty v = true).
  { intros v. destruct v; [discriminate | reflexivity]. }
  induction 1; cbn [last_shape]; try (split; [discriminate | auto]).
  - split; intros Hn; cbn [fst snd] in Hn; class_fact; auto.
  - destruct (last_shape f r1) as [a1 o1], (last_shape f r2) as [a2 o2].
    cbn [fst snd] in *. destruct IHden1 as [A1 O1], IHden2 as [A2 O2].
    rewrite ends_in_app.
    split; intros Hn; apply orb_prop in Hn; destruct Hn as [Hn|Hn].
    + rewrite (Hnon _ (A2 Hn)). auto.
    + split_andb. destruct (O2 H2) as [->|E]; [auto | rewrite (Hnon _ E); auto].
    + right. rewrite (Hnon _ (A2 Hn)). auto.
    + split_andb. destruct (O2 H2) as [->|E].
      * destruct (O1 H1) as [->|E1]; auto.
      * right. rewrite (Hnon _ E). exact E.
  - destruct (last_shape f r1) as [a1 o1], (last_shape f r2) as [a2 o2].
    cbn [fst snd] in *. destruct IHden as [A1 O1].
    split; intros Hn; split_andb; auto.
  - destruct (last_shape f r1) as [a1 o1], (last_shape f r2) as [a2 o2].
    cbn [fst snd] in *. destruct IHden as [A2 O2].
    split; intros Hn; split_andb; auto.
  - cbn [last_shape fst snd] in *. destruct IHden1 as [_ O1], IHden2 as [_ O2].
    intros Hn. rewrite ends_in_app.
    destruct (O2 Hn) as [->|E].
    + destruct (O1 Hn) as [->|E1]; auto.
    + right. rewrite (Hnon _ E). exact E.
  - exact IHden.
Qed.

Lemma den_last_in (f : ascii -> bool) (r : regex) p u rest cs :
  den r p u rest cs -> last_in f r = true -> ends_in f u = true.
Proof. intros Hd. apply (den_last_shape f _ _ _ _ _ Hd). Qed.

Lemma den_some_in (f : ascii -> bool) (r : regex) p u rest cs :
  den r p u rest cs -> some_in f r = true -> str_any f u = true.
Proof.
  induction 1; cbn [some_in]; intros Hn; try discriminate; split_andb; auto.
  - class_fact. simpl. rewrite H0. reflexivity.
  - rewrite str_any_app. apply orb_prop in Hn. destruct Hn as [Hn|Hn].
    + rewrite IHden1; auto.
    + rewrite IHden2; auto. apply orb_true_r.
Qed.

(** *** Inversions *)

Lemma den_seq_inv r1 r2 p u rest cs :
  den (Seq r1 r2) p u rest cs ->
  exists u1 u2 cs1 cs2,
    u = u1 ++ u2 /\ cs = (cs2 ++ cs1)%list
    /\ den r1 p u1 (u2 ++ rest) cs1 /\ den r2 (last_char p u1) u2 rest cs2.
Proof. inversion 1; subst. eexists _, _, _, _. eauto. Qed.

Lemma den_alt_inv r1 r2 p u rest cs :
  den (Alt r1 r2) p u rest cs -> den r1 p u rest cs \/ den r2 p u rest cs.
Proof. inversion 1; subst; auto. Qed.

Lemma den_group_inv n r p u rest cs :
  den (Group n r) p u rest cs ->
  exists cs', cs = (n, u) :: cs' /\ den r p u rest cs'.
Proof. inversion 1; subst. eauto. Qed.

Lemma den_chr_inv f p u rest cs :
  den (Chr f) p u rest cs -> exists a, u = String a "" /\ f a = true /\ cs = [].
Proof. inversion 1; subst. eauto. Qed.

Lemma den_eps_inv p u rest cs : den Eps p u rest cs -> u = "" /\ cs = [].
Proof. inversion 1; subst. auto. Qed.

Lemma den_wordb_inv p u rest cs :
  den WordB p u rest cs ->
  u = "" /\ cs = []
  /\ xorb (Str.is_word_char p) (Str.starts_with_word rest) = true.
Proof. inversion 1; subst. auto. Qed.

Lemma den_min_len (r : regex) p u rest cs :
  den r p u rest cs -> min_len r <= String.length u.
Proof.
  induction 1; cbn [min_len]; simpl; try lia.
  - rewrite append_length. lia.
Qed.

Lemma str_all_ends (f : ascii -> bool) (u : string) :
  str_all f u = true -> u <> "" -> begins_in f u = true /\ ends_in f u = true.
Proof.
  intros Hall Hne. split.
  - destruct u; [congruence|]. simpl in *. apply andb_prop in Hall. apply Hall.
  - unfold ends_in. destruct u as [|a u]; [congruence|]. clear Hne.
    cbn [last_char]. simpl in Hall. apply andb_prop in Hall.
    destruct Hall as [Ha Hu]. revert a Ha. induction u as [|b u IH]; intros a Ha.
    + exact Ha.
    + simpl in Hu. apply andb_prop in Hu. destruct Hu as [Hb Hu].
      cbn [last_char]. apply IH; assumption.
Qed.

Lemma lstrip_begins (f : ascii -> bool) (u : string) :
  begins_in (fun a => negb (f a)) u = true -> Str.lstrip_by f u = u.
Proof.
  destruct u as [|a u]; [discriminate|]. simpl. intros H.
  apply negb_true_iff in H. rewrite H. reflexivity.
Qed.

Lemma rstrip_ends (f : ascii -> bool) (u : string) :
  ends_in (fun a => negb (f a)) u = true -> Str.rstrip_by f u = u.
Proof.
  unfold ends_in. destruct u as [|a u]; [discriminate|]. cbn [last_char].
  revert a. induction u as [|b u IH]; intros a H.
  - simpl in *. apply negb_true_iff in H. rewrite H. reflexivity.
  - cbn [last_char] in H. specialize (IH b H).
    change (Str.rstrip_by f (String a (String b u)))
      with (match Str.rstrip_by f (String b u) with
            | EmptyString => if f a then EmptyString else String a EmptyString
            | t => String a t
            end).
    rewrite IH. reflexivity.
Qed.

(** A text that begins and ends with characters that are not whitespace is
    left as it is by [strip]. *)
Lemma strip_clean (u : string) :
  begins_in not_space u = true -> ends_in not_space u = true -> Str.strip u = u.
Proof.
  intros Hb He. unfold Str.strip. rewrite (lstrip_begins _ _ Hb).
  apply rstrip_ends, He.
Qed.

Lemma findall_head (r : regex) (s t : string) (ts : list string) :
  re_findall1 r s = t :: ts ->
  exists m, match_in r s m /\ t = group_text 1 m.
Proof.
  unfold re_findall1. intros H.
  destruct (re_finditer r s) as [|m ms] eqn:E; [discriminate H|].
  injection H as <- _. exists m. split; [|reflexivity].
  apply re_finditer_den. rewrite E. left. reflexivity.
Qed.

Lemma findall_In (r : regex) (s t : string) :
  In t (re_findall1 r s) -> exists m, match_in r s m /\ t = group_text 1 m.
Proof.
  unfold re_findall1. intros H. apply in_map_iff in H.
  destruct H as [m [<- Hm]]. exists m. split; [|reflexivity].
  apply re_finditer_den, Hm.
Qed.

(** *** The tokens of the option pattern *)

Lemma option_pattern_token (s : string) (m : rmatch_result) :
  match_in option_pattern s m ->
  begins_in is_dash (group_text 1 m) = true
  /\ ends_in not_space (group_text 1 m) = true
  /\ 2 <= String.length (group_text 1 m).
Proof.
  intros [pre [u [rest [_ Hd]]]]. unfold option_pattern in Hd.
  apply den_group_inv in Hd. destruct Hd as [cs [Hcs Hin]].
  unfold group_text, group. rewrite Hcs. cbn [lookup_group Nat.eqb].
  split; [|split].
  - apply (den_first_in _ _ _ _ _ _ Hin). vm_compute. reflexivity.
  - apply (den_last_in _ _ _ _ _ _ Hin). vm_compute. reflexivity.
  - apply den_min_len in Hin. exact Hin.
Qed.

(** *** The tokens of the positional pattern *)

Lemma positional_pattern_token (s : string) (m : rmatch_result) :
  match_in positional_pattern s m ->
  begins_in Str.is_word (group_text 1 m) = true
  /\ str_all word_or_dot (group_text 1 m) = true.
Proof.
  intros [pre [u [rest [_ Hd]]]]. unfold positional_pattern in Hd.
  change (seq [?a; ?b; ?c; ?d]) with (Seq a (Seq b (Seq c d))) in Hd.
  apply den_seq_inv in Hd.
  destruct Hd as [u1 [u2 [cs1 [cs2 [_ [Hcs [Hopen Hmore]]]]]]].
  apply den_seq_inv in Hmore.
  destruct Hmore as [ug [u3 [csg [cs3 [_ [Hcs2 [Hgroup Htail]]]]]]].
  apply den_group_inv in Hgroup. destruct Hgroup as [cs [Hcsg Hin]].
  apply den_no_group in Hopen; [|reflexivity].
  apply den_no_group in Htail; [|reflexivity].
  unfold group_text, group. rewrite Hcs, Hcs2, Hcsg, Hopen, Htail.
  cbn [app lookup_group Nat.eqb].
  split.
  - apply (den_first_in _ _ _ _ _ _ Hin). vm_compute. reflexivity.
  - apply (den_consumes_in _ _ _ _ _ _ Hin). vm_compute. reflexivity.
Qed.

(** *** Literals *)

Lemma den_lit (w : string) :
  forall p u rest cs, den (lit w) p u rest cs -> u = w /\ cs = [].
Proof.
  induction w as [|a w IH]; intros p u rest cs H.
  - apply den_eps_inv in H. exact H.
  - destruct w as [|b w'].
    + apply den_chr_inv in H. destruct H as [c [-> [Hc ->]]].
      apply Ascii.eqb_eq in Hc. subst. auto.
    + change (lit (String a (String b w')))
        with (Seq (chr a) (lit (String b w'))) in H.
      apply den_seq_inv in H.
      destruct H as [u1 [u2 [cs1 [cs2 [-> [-> [H1 H2]]]]]]].
      apply den_chr_inv in H1. destruct H1 as [c [-> [Hc ->]]].
      apply Ascii.eqb_eq in Hc. subst c.
      apply IH in H2. destruct H2 as [-> ->]. auto.
Qed.

Lemma den_alt_lit (l : list string) :
  forall p u rest cs,
    l <> [] -> den (alt (map lit l)) p u rest cs -> In u l /\ cs = [].
Proof.
  induction l as [|a l IH]; intros p u rest cs Hl H; [congruence|].
  destruct l as [|b l'].
  - apply den_lit in H. destruct H as [-> ->]. simpl. auto.
  - change (alt (map lit (a :: b :: l')))
      with (Alt (lit a) (alt (map lit (b :: l')))) in H.
    apply den_alt_inv in H. destruct H as [H|H].
    + apply den_lit in H. destruct H as [-> ->]. simpl. auto.
    + apply IH in H; [|discriminate]. destruct H as [H ->].
      split; [right; exact H | reflexivity].
Qed.

(** A pattern \b(w1|...|wn)\b is found only in a text that contains one of
    the words as a word. *)

(** *** The form of a positional token *)

Lemma rstrip_app_all (f : ascii -> bool) (u v : string) :
  str_all f v = true -> Str.rstrip_by f (u ++ v) = Str.rstrip_by f u.
Proof.
  intros Hv.
  assert (Hnil : Str.rstrip_by f v = "").
  { induction v as [|a v IH]; [reflexivity|]. simpl in *.
    apply andb_prop in Hv. destruct Hv as [Ha Hv]. rewrite (IH Hv), Ha.
    reflexivity. }
  induction u as [|a u IH]; simpl; [exact Hnil|]. rewrite IH. reflexivity.
Qed.

Lemma rstrip_none (f : ascii -> bool) (u : string) :
  str_all (fun a => negb (f a)) u = true -> Str.rstrip_by f u = u.
Proof.
  intros H. destruct u as [|a u]; [reflexivity|].
  apply rstrip_ends. apply str_all_ends; [exact H | discriminate].
Qed.

Lemma lower_word (w : string) :
  str_all Str.is_word w = true ->
  str_all ident_char (Str.lower w) = true
  /\ str_all (fun a => negb (Ascii.eqb "." a)) (Str.lower w) = true.
Proof.
  induction w as [|a w IH]; [split; reflexivity|].
  cbn [str_all Str.lower]. intros H.
  apply andb_prop in H. destruct H as [Ha Hw]. destruct (IH Hw) as [H1 H2].
  rewrite H1, H2, !andb_true_r.
  revert Ha. clear. destruct a as [[] [] [] [] [] [] [] []]; vm_compute; auto.
Qed.

Lemma positional_token_form (s : string) (m : rmatch_result) :
  match_in positional_pattern s m ->
  exists w,
    str_all Str.is_word w = true
    /\ (group_text 1 m = w \/ group_text 1 m = w ++ "...").
Proof.
  intros [pre [u [rest [_ Hd]]]]. unfold positional_pattern in Hd.
  change (seq [?a; ?b; ?c; ?d]) with (Seq a (Seq b (Seq c d))) in Hd.
  apply den_seq_inv in Hd.
  destruct Hd as [u1 [u2 [cs1 [cs2 [_ [Hcs [Hopen Hmore]]]]]]].
  apply den_seq_inv in Hmore.
  destruct Hmore as [ug [u3 [csg [cs3 [_ [Hcs2 [Hgroup Htail]]]]]]].
  apply den_group_inv in Hgroup. destruct Hgroup as [cs [Hcsg Hin]].
  apply den_no_group in Hopen; [|reflexivity].
  apply den_no_group in Htail; [|reflexivity].
  unfold group_text, group. rewrite Hcs, Hcs2, Hcsg, Hopen, Htail.
  cbn [app lookup_group Nat.eqb].
  apply den_alt_inv in Hin. destruct Hin as [Hin|Hin].
  - exists ug. split; [|left; reflexivity].
    apply (den_consumes_in _ _ _ _ _ _ Hin). vm_compute. reflexivity.
  - apply den_seq_inv in Hin.
    destruct Hin as [w [d [csw [csd [-> [_ [Hw Hdots]]]]]]].
    apply den_lit in Hdots. destruct Hdots as [-> _].
    exists w. split; [|right; reflexivity].
    apply (den_consumes_in _ _ _ _ _ _ Hw). vm_compute. reflexivity.
Qed.



Lemma rstrip_keeps_first (f : ascii -> bool) (a : ascii) (s : string) :
  f a = false -> Str.rstrip_by f (String a s) <> "".
Proof.
  intros Ha. simpl. destruct (Str.rstrip_by f s); [rewrite Ha|]; discriminate.
Qed.

Lemma positional_value_type_nonempty (t : string) :
  begins_in Str.is_word t = true -> positional_value_type t <> "".
Proof.
  intros Hb. unfold positional_value_type.
  repeat match goal with
         | |- context [if ?b then _ else _] => destruct b
         end; try discriminate.
  destruct t as [|a t]; [discriminate Hb|]. simpl in Hb.
  unfold Str.rstrip_dots. cbn [Str.lower]. apply rstrip_keeps_first.
  rewrite <- is_word_lower_char in Hb.
  destruct (Ascii.eqb_spec "." (Str.lower_char a)) as [E|E]; [|reflexivity].
  rewrite <- E in Hb. discriminate Hb.
Qed.

Lemma word_or_dot_not_space (u : string) :
  str_all word_or_dot u = true -> str_all not_space u = true.
Proof.
  induction u as [|a u IH]; [reflexivity|]. simpl. intros H.
  apply andb_prop in H. destruct H as [Ha Hu]. rewrite (IH Hu), andb_true_r.
  revert Ha. clear. destruct a as [[] [] [] [] [] [] [] []]; vm_compute; auto.
Qed.

(** ** The runs of whitespace *)

Lemma star_space_run (ws rest : string) (k : kont) (g : caps) (x : result) :
  str_all Str.is_space ws = true ->
  begins_in Str.is_space rest = false ->
  forall p i fuel,
    String.length ws < fuel ->
    k (Cursor (last_char p ws) (i + String.length ws) rest) g = Some x ->
    star_loop (rmatch space) true k fuel (Cursor p i (ws ++ rest)) g = Some x.
Proof.
  intros Hws Hrest. induction ws as [|a ws IH]; intros p i fuel Hfuel Hk;
    (destruct fuel as [|fuel]; [simpl in Hfuel; lia|]).
  - cbn [star_loop String.append]. cbn [last_char String.length] in Hk.
    rewrite Nat.add_0_r in Hk.
    assert (Hbody : forall again, rmatch space (Cursor p i rest) g again = None).
    { intros again. unfold space. cbn [rmatch]. unfold step. cbn [c_rest].
      destruct rest as [|b rest]; [reflexivity|].
      simpl in Hrest. rewrite Hrest. reflexivity. }
    rewrite Hbody. exact Hk.
  - simpl in Hws. apply andb_prop in Hws. destruct Hws as [Ha Hws].
    cbn [star_loop]. change (String a ws ++ rest) with (String a (ws ++ rest)).
    unfold space at 1. cbn [rmatch]. unfold step. cbn [c_rest c_pos].
    rewrite Ha. rewrite (proj2 (Nat.ltb_lt i (S i))) by lia.
    rewrite (IH Hws (Some a) (S i) fuel); [reflexivity | simpl in Hfuel; lia |].
    cbn [last_char String.length] in Hk.
    replace (S i + String.length ws) with (i + S (String.length ws)) by lia.
    exact Hk.
Qed.

Lemma spaces_at_run (ws rest : string) (k : kont) (g : caps) (x : result)
  (p : option ascii) (i : nat) :
  ws <> "" ->
  str_all Str.is_space ws = true ->
  begins_in Str.is_space rest = false ->
  k (Cursor (last_char p ws) (i + String.length ws) rest) g = Some x ->
  rmatch spaces_re (Cursor p i (ws ++ rest)) g k = Some x.
Proof.
  intros Hne Hws Hrest Hk. destruct ws as [|a ws]; [congruence|].
  simpl in Hws. apply andb_prop in Hws. destruct Hws as [Ha Hws].
  unfold spaces_re, plus. cbn [rmatch]. unfold space at 1. cbn [rmatch].
  unfold step. cbn [c_rest c_pos String.append]. rewrite Ha.
  apply star_space_run; auto.
  - cbn [c_rest]. rewrite append_length. lia.
  - cbn [last_char String.length] in Hk.
    replace (S i + String.length ws) with (i + S (String.length ws)) by lia.
    exact Hk.
Qed.

Lemma spaces_not_here (s : string) (p : option ascii) (i : nat) (g : caps)
  (k : kont) :
  begins_in Str.is_space s = false -> rmatch spaces_re (Cursor p i s) g k = None.
Proof.
  intros H. unfold spaces_re, plus. cbn [rmatch]. unfold space at 1.
  cbn [rmatch]. unfold step. cbn [c_rest].
  destruct s as [|a s]; [reflexivity|]. simpl in H. rewrite H. reflexivity.
Qed.

Lemma not_space_begins (a : ascii) (s : string) :
  not_space a = true -> begins_in Str.is_space (String a s) = false.
Proof. unfold not_space. simpl. intros H. apply negb_true_iff, H. Qed.

Lemma search_spaces_none (n : string) :
  str_all not_space n = true ->
  forall adv p i, search_at spaces_re adv p i n = None.
Proof.
  induction n as [|a n IH]; intros H adv p i.
  - cbn [search_at]. rewrite spaces_not_here; reflexivity.
  - simpl in H. apply andb_prop in H. destruct H as [Ha Hn].
    cbn [search_at]. rewrite spaces_not_here by (apply not_space_begins, Ha).
    apply IH, Hn.
Qed.

Lemma search_spaces_run (n ws rest : string) :
  str_all not_space n = true ->
  ws <> "" ->
  str_all Str.is_space ws = true ->
  begins_in Str.is_space rest = false ->
  forall adv p i,
    search_at spaces_re adv p i (n ++ ws ++ rest)
    = Some (Match (i + String.length n)
              (Cursor (last_char p (n ++ ws))
                 (i + String.length n + String.length ws) rest) []).
Proof.
  intros Hn Hne Hws Hrest. induction n as [|a n IH]; intros adv p i.
  - cbn [String.append String.length]. rewrite Nat.add_0_r.
    assert (Hhere : rmatch spaces_re (Cursor p i (ws ++ rest)) []
                      (accept adv (Cursor p i (ws ++ rest)))
                    = Some (Cursor (last_char p ws) (i + String.length ws) rest, [])).
    { apply spaces_at_run; auto. unfold accept. cbn [c_pos].
      assert (Hlen : 0 < String.length ws) by (destruct ws; [congruence | simpl; lia]).
      rewrite (proj2 (Nat.eqb_neq _ _)) by lia. rewrite andb_false_r. reflexivity. }
    destruct (ws ++ rest) eqn:E; cbn [search_at]; rewrite Hhere; reflexivity.
  - simpl in Hn. apply andb_prop in Hn. destruct Hn as [Ha Hn].
    change (String a n ++ ws ++ rest) with (String a (n ++ ws ++ rest)).
    cbn [search_at]. rewrite spaces_not_here by (apply not_space_begins, Ha).
    rewrite (IH Hn). cbn [String.length last_char String.append].
    rewrite <- !plus_n_Sm. reflexivity.
Qed.

Lemma space_run (s : string) :
  exists ws rest,
    s = ws ++ rest /\ str_all Str.is_space ws = true
    /\ begins_in Str.is_space rest = false.
Proof.
  induction s as [|a s [ws [rest [-> [Hws Hrest]]]]].
  - exists "", "". auto.
  - destruct (Str.is_space a) eqn:Ha.
    + exists (String a ws), rest. simpl. rewrite Ha, Hws. auto.
    + exists "", (String a (ws ++ rest)). simpl. auto.
Qed.

Lemma split_run (s : string) :
  str_all not_space s = true
  \/ exists n ws rest,
       s = n ++ ws ++ rest /\ str_all not_space n = true /\ ws <> ""
       /\ str_all Str.is_space ws = true /\ begins_in Str.is_space rest = false.
Proof.
  induction s as [|a s IH]; [left; reflexivity|].
  destruct (Str.is_space a) eqn:Ha.
  - right. destruct (space_run s) as [ws [rest [-> [Hws Hrest]]]].
    exists "", (String a ws), rest. simpl. rewrite Ha, Hws.
    repeat split; auto. discriminate.
  - destruct IH as [IH|[n [ws [rest [-> [Hn H]]]]]].
    + left. simpl. unfold not_space at 1. rewrite Ha, IH. reflexivity.
    + right. exists (String a n), ws, rest. simpl.
      unfold not_space at 1. rewrite Ha, Hn. auto.
Qed.

Lemma collapse_words (n t : string) :
  str_all not_space n = true -> n <> "" ->
  forall b, collapse_from b (n ++ t) = n ++ collapse_from false t.
Proof.
  induction n as [|a n IH]; intros Hn Hne b; [congruence|].
  simpl in Hn. apply andb_prop in Hn. destruct Hn as [Ha Hn].
  unfold not_space in Ha. apply negb_true_iff in Ha.
  cbn [String.append collapse_from]. rewrite Ha. f_equal.
  destruct n as [|c n]; [reflexivity|]. apply IH; [exact Hn | discriminate].
Qed.

Lemma collapse_plain (n : string) (b : bool) :
  str_all not_space n = true -> collapse_from b n = n.
Proof.
  revert b. induction n as [|a n IH]; intros b Hn; [reflexivity|].
  simpl in Hn. apply andb_prop in Hn. destruct Hn as [Ha Hn].
  unfold not_space in Ha. apply negb_true_iff in Ha.
  cbn [collapse_from]. rewrite Ha, (IH false Hn). reflexivity.
Qed.

Lemma collapse_in_run (ws t : string) :
  str_all Str.is_space ws = true ->
  collapse_from true (ws ++ t) = collapse_from true t.
Proof.
  induction ws as [|a ws IH]; intros H; [reflexivity|].
  simpl in H. apply andb_prop in H. destruct H as [Ha Hws].
  cbn [String.append collapse_from]. rewrite Ha. apply IH, Hws.
Qed.

Lemma collapse_after_run (rest : string) :
  begins_in Str.is_space rest = false ->
  collapse_from true rest = collapse_from false rest.
Proof.
  destruct rest as [|a rest]; [reflexivity|]. simpl. intros H. rewrite H.
  reflexivity.
Qed.

Lemma collapse_run (n ws rest : string) :
  str_all not_space n = true -> ws <> "" ->
  str_all Str.is_space ws = true -> begins_in Str.is_space rest = false ->
  collapse (n ++ ws ++ rest) = n ++ " " ++ collapse rest.
Proof.
  intros Hn Hne Hws Hrest. unfold collapse.
  assert (Hrun : collapse_from false (ws ++ rest)
                 = " " ++ collapse_from false rest).
  { destruct ws as [|a ws]; [congruence|].
    simpl in Hws. apply andb_prop in Hws. destruct Hws as [Ha Hws].
    cbn [String.append collapse_from]. rewrite Ha.
    rewrite (collapse_in_run _ _ Hws), (collapse_after_run _ Hrest).
    reflexivity. }
  destruct n as [|a n]; [exact Hrun|].
  rewrite collapse_words by (auto; discriminate). rewrite Hrun. reflexivity.
Qed.

Lemma slice_app (done n t : string) :
  Str.slice (String.length done) (String.length done + String.length n)
    (done ++ n ++ t) = n.
Proof.
  unfold Str.slice. rewrite drop_app.
  replace (String.length done + String.length n - String.length done)
    with (String.length n) by lia.
  apply take_app.
Qed.

Lemma sub_spaces_from (fuel : nat) :
  forall cur done adv p,
    String.length cur < fuel ->
    splice " " (done ++ cur) (String.length done)
      (finditer_from fuel spaces_re adv (Cursor p (String.length done) cur))
    = collapse cur.
Proof.
  induction fuel as [|fuel IH]; intros cur done adv p Hfuel; [lia|].
  cbn [finditer_from c_prev c_pos c_rest].
  destruct (split_run cur) as [Hn|[n [ws [rest [-> [Hn [Hne [Hws Hrest]]]]]]]].
  - rewrite (search_spaces_none _ Hn). cbn [splice].
    rewrite drop_app. unfold collapse. rewrite collapse_plain; auto.
  - rewrite (search_spaces_run _ _ _ Hn Hne Hws Hrest).
    cbn [splice m_start m_end]. unfold m_stop. cbn [m_end c_pos].
    rewrite slice_app, collapse_run by assumption. f_equal. f_equal.
    assert (Hdone : String.length (done ++ n ++ ws)
                    = String.length done + String.length n + String.length ws).
    { rewrite !append_length. lia. }
    rewrite <- Hdone.
    replace (done ++ n ++ ws ++ rest) with ((done ++ n ++ ws) ++ rest)
      by (rewrite !append_assoc; reflexivity).
    apply IH. rewrite !append_length in Hfuel.
    assert (Hlen : 0 < String.length ws) by (destruct ws; [congruence | simpl; lia]).
    lia.
Qed.

(** [re.sub(r'\s+', ' ', s)] turns every run of whitespace of [s] into one
    space and leaves the rest as it is. *)
Lemma sub_spaces (s : string) : re_sub spaces_re " " s 0 = collapse s.
Proof.
  unfold re_sub, re_finditer.
  apply (sub_spaces_from _ s "" false None). lia.
Qed.
(** * The properties of the specification *)

(** ** C1: the grep synopsis *)

Lemma grep_synopsis_run (compile : string -> command_pattern) :
  parse_positional_args compile grep_synopsis "grep"
  = Some [options_arg; pattern_arg; file_arg].
Proof. vm_compute. reflexivity. Qed.

(** C1, as amended: on the grep synopsis with the command [grep],
    [parse_positional_args] returns exactly three positional records,
    OPTIONS, PATTERN and FILE, with the positions 1, 2 and 3 in their order
    of appearance; the value type of the third is [file-path], that of the
    second is [pattern].  The bracketed placeholder [OPTIONS] is an all-caps
    word like the others, and nothing removes it. *)
Theorem grep_synopsis_positionals (compile : string -> command_pattern) :
  parse_positional_args compile grep_synopsis "grep"
  = Some [options_arg; pattern_arg; file_arg].
Proof. apply grep_synopsis_run. Qed.

(** C1, as stated, fails: the records are not two, and the second one does
    not have the value type [file-path]. *)
Lemma grep_synopsis_not_two_positionals :
  ~ (exists (compile : string -> command_pattern) (p1 p2 : param),
        parse_positional_args compile grep_synopsis "grep" = Some [p1; p2]
        /\ position p1 = Some 1 /\ position p2 = Some 2
        /\ value_type p2 = Some "file-path").
Proof.
  intros [compile [p1 [p2 [H _]]]].
  rewrite grep_synopsis_run in H. discriminate H.
Qed.

(** ** The runs of [main] *)

Lemma written (w : world) (path : string) :
  can_write w path = true -> writing w path = Written.
Proof. unfold can_write. destruct (writing w path); congruence. Qed.

Lemma main_record (compile : string -> command_pattern) (src : sources)
  (a : args) (w : world) (result : tool) :
  man_to_json compile (retrieve src) (command a) = Some (Some result) ->
  main compile src a w
  = said_before (retrieval_lines src (command a)) (handle_output a result w).
Proof. intros H. unfold main. rewrite H. reflexivity. Qed.

Lemma handle_output_to_file (a : args) (result : tool) (w : world) (path : string) :
  output_file a = Some path -> path <> "" ->
  handle_output a result w = write_tool path a result w.
Proof.
  intros Hout Hpath. unfold handle_output. rewrite Hout.
  destruct path; [congruence | reflexivity].
Qed.

Lemma parse_positional_compiled (compile : string -> command_pattern)
  (man_content command : string) (sub : string -> string) :
  command_re compile command = Compiled sub ->
  exists positional,
    parse_positional_args compile man_content command = Some positional.
Proof.
  intros H. unfold parse_positional_args. rewrite H.
  destruct (re_search synopsis_re man_content); eauto.
Qed.

(** A command name without pattern operators makes a pattern. *)
Lemma no_operators_compiled (compile : string -> command_pattern)
  (command : string) :
  no_operators command = true ->
  exists sub, command_re compile command = Compiled sub.
Proof. intros H. unfold command_re. rewrite H. eauto. Qed.

Lemma man_to_json_no_operators (compile : string -> command_pattern)
  (get_man_page : string -> option string) (command : string) :
  no_operators command = true ->
  man_to_json compile get_man_page command <> None.
Proof.
  intros H. unfold man_to_json.
  destruct (get_man_page command) as [man_content|]; [|discriminate].
  destruct (negb (Str.nonempty man_content)); [discriminate|].
  destruct (no_operators_compiled compile command H) as [sub Hsub].
  destruct (parse_positional_compiled compile man_content command sub Hsub)
    as [ps ->].
  discriminate.
Qed.

Lemma no_traceback_retrieved (src : sources) (command : string) :
  ~ In Traceback (retrieval_lines src command).
Proof.
  unfold retrieval_lines. intros H. apply in_map_iff in H.
  destruct H as [e [He _]]. discriminate He.
Qed.

(** ** C2: an output file without a [tools] key *)

Lemma handle_output_fresh (a : args) (result : tool) (w : world)
  (path : string) (existing : content) (fields : list (string * json)) :
  output_file a = Some path -> path <> "" ->
  files w path = Some existing ->
  json_load existing = Loaded (JObj fields) ->
  has_key "tools" fields = false ->
  can_read w path = true -> can_write w path = true ->
  handle_output a result w
  = {| exit_code := 0;
       after := write_file path
                  (json_dump (JObj [("tools", JList [tool_json result])])
                     (indent_of a)) w;
       stderr := [Appended (command a) path];
       stdout := [] |}.
Proof.
  intros Hout Hpath Hfile Hload Hkey Hread Hwrite.
  rewrite (handle_output_to_file _ _ _ _ Hout Hpath).
  unfold write_tool. rewrite Hfile, Hread. simpl.
  rewrite Hload. unfold append_tool, tools_in. rewrite Hkey.
  unfold write_document. rewrite (written _ _ Hwrite). reflexivity.
Qed.

(** C2, as amended: when the output file exists and parses to a mapping
    without a [tools] key, and the file can be read and written, a run of
    [main] that retrieved a page returns 0 and rewrites the file to the
    document whose only entry is [tools], a sequence holding the new tool
    record alone; after the lines of the retrieval it prints the line of
    the append, and nothing else. *)
Theorem missing_tools_starts_fresh
  (compile : string -> command_pattern) (src : sources) (a : args) (w : world)
  (path : string) (existing : content) (fields : list (string * json))
  (result : tool) :
  output_file a = Some path -> path <> "" ->
  files w path = Some existing ->
  json_load existing = Loaded (JObj fields) ->
  has_key "tools" fields = false ->
  can_read w path = true -> can_write w path = true ->
  man_to_json compile (retrieve src) (command a) = Some (Some result) ->
  main compile src a w
  = {| exit_code := 0;
       after := write_file path
                  (json_dump (JObj [("tools", JList [tool_json result])])
                     (indent_of a)) w;
       stderr := (retrieval_lines src (command a)
                  ++ [Appended (command a) path])%list;
       stdout := [] |}.
Proof.
  intros Hout Hpath Hfile Hload Hkey Hread Hwrite Hres.
  rewrite (main_record _ _ _ _ _ Hres).
  rewrite (handle_output_fresh a result w path existing fields); auto.
Qed.

Lemma versioned_run :
  main no_patterns foo_sources (to_file "foo" "tools.json") versioned_world
  = {| exit_code := 0;
       after := write_file "tools.json"
                  (Encoded None (JObj [("tools", JList [tool_json foo_tool])]))
                  versioned_world;
       stderr := [Appended "foo" "tools.json"];
       stdout := [] |}.
Proof. reflexivity. Qed.

Lemma missing_tools_witness :
  main no_patterns foo_sources (to_file "foo" "tools.json") versioned_world
  = {| exit_code := 0;
       after := write_file "tools.json"
                  (Encoded None (JObj [("tools", JList [tool_json foo_tool])]))
                  versioned_world;
       stderr := [Appended "foo" "tools.json"];
       stdout := [] |}.
Proof.
  exact (missing_tools_starts_fresh no_patterns foo_sources
           (to_file "foo" "tools.json")
           versioned_world "tools.json" (Encoded None versioned_document)
           [("version", JInt 1)] foo_tool
           eq_refl ltac:(discriminate) eq_refl eq_refl eq_refl eq_refl eq_refl
           eq_refl).
Defined.

(** C2, as stated, fails: on the file holding [{"version": 1}], the run
    returns 0 and the rewritten document is not the original mapping with a
    [tools] sequence added, for its [version] entry is gone. *)
Lemma missing_tools_drops_entries :
  ~ (exists (r : run) (written : list (string * json)),
        main no_patterns foo_sources (to_file "foo" "tools.json")
          versioned_world = r
        /\ files (after r) "tools.json" = Some (Encoded None (JObj written))
        /\ lookup "tools" written = Some (JList [tool_json foo_tool])
        /\ lookup "version" written = Some (JInt 1)).
Proof.
  intros [r [written [Hrun [Hfile [_ Hversion]]]]].
  rewrite versioned_run in Hrun. subst r.
  simpl in Hfile. injection Hfile as <-.
  discriminate Hversion.
Qed.

(** ** C3: an output file whose [tools] is not a list *)

Lemma handle_output_not_a_list (a : args) (result : tool) (w : world)
  (path : string) (existing : content) (fields : list (string * json)) (v : json) :
  output_file a = Some path -> path <> "" ->
  files w path = Some existing ->
  json_load existing = Loaded (JObj fields) ->
  lookup "tools" fields = Some v ->
  is_list v = false ->
  handle_output a result w
  = failed w [if can_read w path then NotAnArrayError else WriteError].
Proof.
  intros Hout Hpath Hfile Hload Htools Hlist.
  rewrite (handle_output_to_file _ _ _ _ Hout Hpath).
  unfold write_tool. rewrite Hfile.
  destruct (can_read w path); simpl; [|reflexivity].
  rewrite Hload. unfold append_tool, tools_in, has_key. rewrite Htools.
  destruct v; try reflexivity. discriminate Hlist.
Qed.

(** C3: when the output file exists and parses to a mapping whose [tools]
    value is not a list, every run of the program ends with the status 1
    and leaves the files as they were, whatever the page retrieval gave and
    whatever the command name is; with a page retrieved and the file
    readable, the run is the one that, after the lines of the retrieval,
    only prints the not-an-array error; for a command name without pattern
    operators the run never ends with a traceback. *)
Theorem tools_not_a_list_fails
  (compile : string -> command_pattern) (src : sources) (a : args) (w : world)
  (path : string) (existing : content) (fields : list (string * json)) (v : json) :
  output_file a = Some path -> path <> "" ->
  files w path = Some existing ->
  json_load existing = Loaded (JObj fields) ->
  lookup "tools" fields = Some v ->
  is_list v = false ->
  (exit_code (main compile src a w) = 1 /\ after (main compile src a w) = w)
  /\ (forall result,
         man_to_json compile (retrieve src) (command a) = Some (Some result) ->
         can_read w path = true ->
         main compile src a w
         = failed w (retrieval_lines src (command a) ++ [NotAnArrayError]))
  /\ (no_operators (command a) = true ->
      ~ In Traceback (stderr (main compile src a w))).
Proof.
  intros Hout Hpath Hfile Hload Htools Hlist.
  split; [|split].
  3:{ intros Hplain.
      pose proof (man_to_json_no_operators compile (retrieve src) _ Hplain)
        as Hrun.
      unfold main.
      destruct (man_to_json compile (retrieve src) (command a))
        as [[result|]|]; [| |congruence]; cbn [said_before stderr].
      - rewrite (handle_output_not_a_list a result w path existing fields v);
          auto.
        cbn [failed stderr]. intros H. apply in_app_or in H.
        destruct H as [H|[H|[]]]; [apply (no_traceback_retrieved _ _ H)|].
        destruct (can_read w path); discriminate H.
      - cbn [failed stderr]. rewrite app_nil_r.
        apply no_traceback_retrieved. }
  - unfold main.
    destruct (man_to_json compile (retrieve src) (command a)) as [[result|]|];
      [|auto..].
    rewrite (handle_output_not_a_list a result w path existing fields v);
      auto.
  - intros result Hres Hread. rewrite (main_record _ _ _ _ _ Hres).
    rewrite (handle_output_not_a_list a result w path existing fields v);
      auto.
    rewrite Hread. reflexivity.
Qed.

Lemma tools_not_a_list_witness :
  main no_patterns foo_sources (to_file "foo" "tools.json")
    (one_file "tools.json" (Encoded None not_a_list_document))
  = failed (one_file "tools.json" (Encoded None not_a_list_document))
      [NotAnArrayError].
Proof.
  destruct (tools_not_a_list_fails no_patterns foo_sources
              (to_file "foo" "tools.json")
              (one_file "tools.json" (Encoded None not_a_list_document))
              "tools.json" (Encoded None not_a_list_document)
              [("tools", JStr "not-a-list")] (JStr "not-a-list")
              eq_refl ltac:(discriminate) eq_refl eq_refl eq_refl eq_refl)
    as [_ [H _]].
  exact (H foo_tool eq_refl eq_refl).
Defined.

(** ** C4: the flag words decide first *)

Lemma flag_words_shape (w : string) :
  In w flag_words ->
  Str.starts_with_word w = true /\ Str.ends_with_word w = true
  /\ Str.lower w = w.
Proof.
  unfold flag_words. simpl.
  intros [<-|[<-|[<-|[<-|[]]]]]; repeat split.
Qed.

Lemma classify_flag_word (w param_name description first_line : string) :
  In w flag_words ->
  has_word w (Str.lower description) ->
  classify_parameter_type param_name description first_line = Flag.
Proof.
  intros Hw Hhas. unfold classify_parameter_type.
  destruct (flag_words_shape w Hw) as [Hfirst [Hlast _]].
  unfold flag_word_re.
  rewrite (word_of_found flag_words w _ Hw Hfirst Hlast Hhas). reflexivity.
Qed.

Lemma parse_options_entry (man_content : string) (options_match : rmatch_result)
  (entry : string) (e : entry_parts) :
  re_search options_re man_content = Some options_match ->
  In entry (option_entries (group_text 1 options_match)) ->
  split_entry entry = Some e ->
  In (entry_param e) (parse_options man_content).
Proof.
  intros Hsearch Hin Hsplit. unfold parse_options. rewrite Hsearch.
  apply collect_In. exists entry. split; [exact Hin|].
  unfold parse_entry. rewrite Hsplit. reflexivity.
Qed.

(** C4: when the description of an option contains one of the words
    [toggle], [enable], [disable], [flag] as a word, as written or in any
    other case, [classify_parameter_type] gives [flag] whatever the option
    name and the first line are, so no other rule is consulted; every entry
    of an OPTIONS section with such a description gets a record of type
    [flag]; and the entry [-v, --verbose    enable verbose output] gets the
    record [-v] of type [flag]. *)
Theorem flag_words_decide_first :
  (forall w param_name description first_line,
      In w flag_words ->
      has_word w description \/ has_word w (Str.lower description) ->
      classify_parameter_type param_name description first_line = Flag)
  /\ (forall w man_content options_match entry e,
         In w flag_words ->
         re_search options_re man_content = Some options_match ->
         In entry (option_entries (group_text 1 options_match)) ->
         split_entry entry = Some e ->
         has_word w (e_description e) ->
         In (entry_param e) (parse_options man_content)
         /\ param_type (entry_param e) = Flag)
  /\ parse_options (options_section verbose_entry) = [verbose_param].
Proof.
  split; [|split].
  - intros w param_name description first_line Hw [Hhas|Hhas].
    + apply (classify_flag_word w); [exact Hw|].
      apply has_word_lower; [apply flag_words_shape, Hw | exact Hhas].
    + apply (classify_flag_word w); assumption.
  - intros w man_content options_match entry e Hw Hsearch Hin Hsplit Hhas.
    split; [apply (parse_options_entry _ options_match entry); assumption|].
    unfold entry_param. cbn [param_type].
    apply (classify_flag_word w); [exact Hw|].
    apply has_word_lower; [apply flag_words_shape, Hw | exact Hhas].
  - vm_compute. reflexivity.
Qed.

Lemma flag_words_witness :
  classify_parameter_type "-v" ", enable verbose output" verbose_entry = Flag.
Proof.
  destruct flag_words_decide_first as [H _].
  apply (H "enable").
  - unfold flag_words. simpl. auto.
  - left. exists ", ", " verbose output". repeat split.
Defined.

(** ** C5: the name=value options *)




(** ** C6: the NAME line *)



(** *** Greedy runs *)




(** *** The line break after the header *)




(** *** The dash *)



(** *** The description *)








(** *** The match of the NAME pattern *)









(** ** C7: pages without an OPTIONS or a SYNOPSIS section *)

Lemma parse_options_without_section (man_content : string) :
  re_search options_re man_content = None -> parse_options man_content = [].
Proof. unfold parse_options. intros ->. reflexivity. Qed.

Lemma parse_positional_without_section (compile : string -> command_pattern)
  (man_content command : string) :
  re_search synopsis_re man_content = None ->
  parse_positional_args compile man_content command = Some [].
Proof. unfold parse_positional_args. intros ->. reflexivity. Qed.

(** A literal under re.IGNORECASE does not match where the lowercased text
    does not begin with the lowercased literal. *)
Lemma rmatch_lit_i_none (w : string) :
  forall (s : string) (p : option ascii) (i : nat) (g : caps) (k : kont),
    String.prefix (Str.lower w) (Str.lower s) = false ->
    rmatch (lit_i w) (Cursor p i s) g k = None.
Proof.
  induction w as [|a w IH]; intros s p i g k H.
  - destruct s; discriminate H.
  - assert (Hone : rmatch (Seq (chr_i a) (lit_i w)) (Cursor p i s) g k = None).
    { cbn [rmatch chr_i]. unfold step. cbn [c_rest c_pos].
      destruct s as [|b s]; [reflexivity|].
      cbn [Str.lower String.prefix] in H.
      destruct (Ascii.eqb_spec (Str.lower_char b) (Str.lower_char a)) as [E|E];
        [|reflexivity].
      rewrite E in H.
      destruct (ascii_dec (Str.lower_char a) (Str.lower_char a));
        [|contradiction].
      apply IH, H. }
    destruct w as [|b w']; [|exact Hone].
    cbn [lit_i rmatch chr_i]. unfold step. cbn [c_rest c_pos].
    destruct s as [|c s]; [reflexivity|].
    cbn [Str.lower String.prefix] in H.
    destruct (Ascii.eqb_spec (Str.lower_char c) (Str.lower_char a)) as [E|E];
      [|reflexivity].
    rewrite E in H.
    destruct (ascii_dec (Str.lower_char a) (Str.lower_char a));
      [|contradiction].
    destruct (Str.lower s); discriminate H.
Qed.

Lemma prefix_contains (u p v s : string) :
  String.prefix (u ++ p ++ v) s = true -> Str.contains p s = true.
Proof.
  revert s. induction u as [|a u IH]; intros s H.
  - assert (Hp : String.prefix p s = true).
    { revert s H. induction p as [|b p IHp]; intros s H;
        [destruct s; reflexivity|].
      destruct s as [|c s]; [discriminate H|].
      cbn [String.append String.prefix] in *.
      destruct (ascii_dec b c); [apply IHp, H | discriminate H]. }
    destruct s; cbn [Str.contains]; rewrite Hp; reflexivity.
  - destruct s as [|c s]; [discriminate H|].
    cbn [String.append String.prefix] in H.
    destruct (ascii_dec a c); [|discriminate H].
    cbn [Str.contains]. rewrite (IH s H). apply orb_true_r.
Qed.

(** A text in which the word [options] does not occur, in any case, has no
    OPTIONS section. *)
Lemma no_options_word (man_content : string) :
  Str.contains "options" (Str.lower man_content) = false ->
  re_search options_re man_content = None.
Proof.
  unfold re_search. generalize (@None ascii) as p, 0 as i.
  induction man_content as [|a s IH]; intros p i H.
  - reflexivity.
  - assert (Hhere : forall g k,
               rmatch options_re (Cursor p i (String a s)) g k = None).
    { intros g k. unfold options_re.
      change (seq (?x :: ?l)) with (Seq x (seq l)). cbn [rmatch].
      rewrite rmatch_lit_i_none; [|apply contains_prefix, H].
      rewrite rmatch_lit_i_none; [reflexivity|].
      destruct (String.prefix _ (Str.lower (String a s))) eqn:E;
        [|reflexivity].
      change (Str.lower "The following options are available")
        with ("the following " ++ "options" ++ " are available") in E.
      apply prefix_contains in E. congruence. }
    cbn [search_at]. rewrite Hhere. apply IH.
    cbn [Str.lower] in H. simpl in H. apply orb_false_iff in H. apply H.
Qed.

(** A text in which SYNOPSIS does not occur has no SYNOPSIS section. *)
Lemma no_synopsis_word (man_content : string) :
  Str.contains "SYNOPSIS" man_content = false ->
  re_search synopsis_re man_content = None.
Proof.
  unfold re_search. generalize (@None ascii) as p, 0 as i.
  induction man_content as [|a s IH]; intros p i H.
  - reflexivity.
  - cbn [search_at]. unfold synopsis_re at 1.
    change (seq (?x :: ?l)) with (Seq x (seq l)).
    rewrite rmatch_lit_first; [|apply contains_prefix, H].
    apply IH. simpl in H. apply orb_false_iff in H. apply H.
Qed.

Lemma test_synopsis_found :
  exists m, re_search synopsis_re test_synopsis = Some m.
Proof. eexists. vm_compute. reflexivity. Qed.

(** C7: the claim fails on the command name "[", which is a command with
    a manual page.  The name is put into a pattern as it is, and Python's
    [re] refuses the pattern, in which the bracket opens a character set
    that nothing closes.  On a page with a SYNOPSIS section and without an
    OPTIONS section, [parse_options] returns the empty list, but
    [man_to_json] returns no record: [parse_positional_args] raises
    [re.error], and the program ends with a traceback and the status 1,
    with nothing on the standard output and no file written. *)
Theorem bracket_command_raises (compile : string -> command_pattern) :
  re_search options_re test_synopsis = None
  /\ parse_options test_synopsis = []
  /\ parse_positional_args compile test_synopsis "[" = None
  /\ man_to_json compile (fun _ => Some test_synopsis) "[" = None
  /\ main compile (local_only test_synopsis) (to_stdout "[") no_files
     = failed no_files [Traceback]
  /\ main compile (local_only test_synopsis) (to_file "[" "tools.json")
       no_files
     = failed no_files [Traceback].
Proof.
  assert (Hargs : parse_positional_args compile test_synopsis "[" = None).
  { unfold parse_positional_args.
    destruct test_synopsis_found as [m ->]. reflexivity. }
  assert (Hraise : forall get_man_page,
             get_man_page "[" = Some test_synopsis ->
             man_to_json compile get_man_page "[" = None).
  { intros get_man_page Hpage. unfold man_to_json. rewrite Hpage.
    assert (Hne : test_synopsis <> "") by discriminate.
    rewrite (nonempty_true _ Hne). cbn [negb]. rewrite Hargs. reflexivity. }
  split; [vm_compute; reflexivity|]. split; [vm_compute; reflexivity|].
  split; [exact Hargs|]. split; [apply Hraise; reflexivity|].
  split; unfold main; cbn [command to_stdout to_file];
    rewrite Hraise; reflexivity.
Qed.

(** ** C8: appending keeps the records and their order *)

Lemma handle_output_append (a : args) (result : tool) (w : world)
  (path : string) (tools : list json) :
  output_file a = Some path -> path <> "" ->
  can_read w path = true -> can_write w path = true ->
  tools_at w path = Some tools ->
  exists r,
    handle_output a result w = r
    /\ exit_code r = 0
    /\ stderr r = [Appended (command a) path]
    /\ can_read (after r) = can_read w
    /\ writing (after r) = writing w
    /\ tools_at (after r) path = Some (tools ++ [tool_json result])%list
    /\ (forall key, key <> "tools" ->
          entry_at (after r) path key = entry_at w path key)
    /\ (forall p, p <> path -> files (after r) p = files w p).
Proof.
  intros Hout Hpath Hread Hwrite Htools.
  rewrite (handle_output_to_file _ _ _ _ Hout Hpath).
  unfold tools_at in Htools. unfold write_tool, entry_at.
  rewrite Hread. cbn [negb].
  destruct (files w path) as [existing|]; [|discriminate Htools].
  destruct (json_load existing) as [[| | | | | |fields]| |];
    try discriminate Htools.
  unfold append_tool, tools_in, has_key.
  destruct (lookup "tools" fields) as [[| | | | |l|]|] eqn:Hlook;
    try discriminate Htools.
  injection Htools as ->.
  unfold write_document. rewrite (written _ _ Hwrite).
  eexists. split; [reflexivity|].
  unfold tools_at, write_file, json_dump.
  cbn [exit_code stderr after files can_read writing json_load].
  rewrite String.eqb_refl. cbn [json_load].
  rewrite (lookup_update _ _ _ _ Hlook).
  repeat split; try reflexivity.
  - intros key Hkey. apply lookup_update_other, Hkey.
  - intros p Hp. destruct (String.eqb p path) eqn:E; [|reflexivity].
    apply String.eqb_eq in E. congruence.
Qed.

(** C8: when the file holds a document whose [tools] sequence is [tools]
    (in particular [[A]]), and the file can be read and written, a run of
    [main] for a tool B returns 0 and leaves the sequence [tools ++ [B]];
    a second run for a tool C, reading what the first wrote, returns 0 and
    leaves [tools ++ [B; C]].  The other entries of the document and the
    other files stay as they were. *)
Theorem appending_keeps_order
  (compile : string -> command_pattern) (src : sources) (w : world)
  (path : string) (aB aC : args) (B C : tool) (tools : list json) :
  path <> "" ->
  output_file aB = Some path -> output_file aC = Some path ->
  can_read w path = true -> can_write w path = true ->
  tools_at w path = Some tools ->
  man_to_json compile (retrieve src) (command aB) = Some (Some B) ->
  man_to_json compile (retrieve src) (command aC) = Some (Some C) ->
  exists r1 r2,
    main compile src aB w = r1
    /\ exit_code r1 = 0
    /\ tools_at (after r1) path = Some (tools ++ [tool_json B])%list
    /\ main compile src aC (after r1) = r2
    /\ exit_code r2 = 0
    /\ tools_at (after r2) path = Some (tools ++ [tool_json B; tool_json C])%list
    /\ (forall key, key <> "tools" ->
          entry_at (after r2) path key = entry_at w path key)
    /\ (forall p, p <> path -> files (after r2) p = files w p).
Proof.
  intros Hpath HoutB HoutC Hread Hwrite Htools HB HC.
  destruct (handle_output_append aB B w path tools HoutB Hpath Hread Hwrite Htools)
    as [r1 [Hr1 [Hexit1 [_ [Hread1 [Hwrite1 [Htools1 [Hkeys1 Hfiles1]]]]]]]].
  assert (Hread' : can_read (after r1) path = true) by (rewrite Hread1; exact Hread).
  assert (Hwrite' : can_write (after r1) path = true).
  { unfold can_write in *. rewrite Hwrite1. exact Hwrite. }
  destruct (handle_output_append aC C (after r1) path _ HoutC Hpath Hread' Hwrite' Htools1)
    as [r2 [Hr2 [Hexit2 [_ [_ [_ [Htools2 [Hkeys2 Hfiles2]]]]]]]].
  exists (said_before (retrieval_lines src (command aB)) r1),
         (said_before (retrieval_lines src (command aC)) r2).
  rewrite (main_record _ _ _ _ _ HB), Hr1. cbn [said_before after exit_code].
  rewrite (main_record _ _ _ _ _ HC), Hr2. cbn [said_before after exit_code].
  rewrite <- app_assoc in Htools2. simpl in Htools2.
  repeat split; auto.
  - intros key Hkey. rewrite Hkeys2, Hkeys1; auto.
  - intros p Hp. rewrite Hfiles2, Hfiles1; auto.
Qed.

Lemma appending_witness :
  exists r1 r2,
    main no_patterns foo_sources (to_file "foo" "tools.json")
      (one_file "tools.json" (Encoded None (tools_document [tool_A]))) = r1
    /\ tools_at (after r1) "tools.json" = Some [tool_A; tool_json foo_tool]
    /\ main no_patterns foo_sources (to_file "bar" "tools.json") (after r1) = r2
    /\ tools_at (after r2) "tools.json"
       = Some [tool_A; tool_json foo_tool; tool_json bar_tool].
Proof.
  destruct (appending_keeps_order no_patterns foo_sources
              (one_file "tools.json" (Encoded None (tools_document [tool_A])))
              "tools.json" (to_file "foo" "tools.json")
              (to_file "bar" "tools.json") foo_tool bar_tool [tool_A]
              ltac:(discriminate) eq_refl eq_refl eq_refl eq_refl eq_refl
              eq_refl eq_refl)
    as [r1 [r2 [H1 [_ [T1 [H2 [_ [T2 _]]]]]]]].
  exists r1, r2. repeat split; assumption.
Defined.

(** ** C9: flags carry no value type *)

Lemma entry_param_flag (e : entry_parts) :
  param_type (entry_param e) = Flag -> value_type (entry_param e) = None.
Proof.
  unfold entry_param; simpl.
  destruct (classify_parameter_type _ _ _); intros H; try discriminate H.
  reflexivity.
Qed.

Lemma parse_options_In (man_content : string) (p : param) :
  In p (parse_options man_content) ->
  exists entry e, split_entry entry = Some e /\ p = entry_param e.
Proof.
  unfold parse_options.
  destruct (re_search options_re man_content) as [m|]; [|intros []].
  intros Hin. apply collect_In in Hin. destruct Hin as [entry [_ Hp]].
  unfold parse_entry in Hp.
  destruct (split_entry entry) as [e|] eqn:He; [|discriminate Hp].
  exists entry, e. split; [exact He|]. simpl in Hp. congruence.
Qed.

(** C9: a record that [parse_options] emits with the parameter type [flag]
    has no [value-type] field: for a flag, [extract_value_type] is not
    called. *)
Theorem flag_records_have_no_value_type (man_content : string) (p : param) :
  In p (parse_options man_content) ->
  param_type p = Flag ->
  value_type p = None.
Proof.
  intros Hin Hflag.
  destruct (parse_options_In _ _ Hin) as [entry [e [_ ->]]].
  apply entry_param_flag, Hflag.
Qed.

Lemma flag_records_witness :
  In verbose_param (parse_options (options_section verbose_entry))
  /\ value_type verbose_param = None.
Proof.
  assert (Hin : In verbose_param (parse_options (options_section verbose_entry))).
  { vm_compute. left. reflexivity. }
  split; [exact Hin|].
  exact (flag_records_have_no_value_type _ _ Hin eq_refl).
Defined.

(** ** C10: positional records always carry a value type *)

Lemma positional_loop_In (p : param) (l : list string) (idx : nat) :
  In p (positional_loop idx l) ->
  exists i pos_arg, In pos_arg l /\ p = positional_param i pos_arg.
Proof.
  revert idx. induction l as [|a l IH]; simpl; intros idx Hin; [destruct Hin|].
  apply in_app_or in Hin. destruct Hin as [Hin|Hin].
  - destruct (Str.nonempty (Str.strip a)); [|destruct Hin].
    destruct Hin as [<-|[]]. exists idx, a. auto.
  - destruct (IH _ Hin) as [i [x [Hx Hp]]]. exists i, x. auto.
Qed.

Lemma positional_tokens (compile : string -> command_pattern)
  (man_content command : string) (positional : list param) (p : param) :
  parse_positional_args compile man_content command = Some positional ->
  In p positional ->
  exists i m s,
    match_in positional_pattern s m /\ p = positional_param i (group_text 1 m).
Proof.
  unfold parse_positional_args. intros Hrun Hin.
  destruct (re_search synopsis_re man_content);
    [|injection Hrun as <-; destruct Hin].
  destruct (command_re compile command) as [|sub]; [discriminate Hrun|].
  injection Hrun as <-.
  apply positional_loop_In in Hin. destruct Hin as [i [t [Ht ->]]].
  apply findall_In in Ht. destruct Ht as [m [Hm ->]].
  eexists i, m, _. split; [exact Hm | reflexivity].
Qed.





(** * Further properties of the code *)

(** ** The runs of [main] *)

Lemma target_output (a : args) (path : string) :
  target a = Some path -> output_file a = Some path /\ path <> "".
Proof.
  unfold target. destruct (output_file a) as [[|c s]|]; try discriminate.
  intros H. injection H as <-. split; [reflexivity | discriminate].
Qed.

Lemma handle_output_target (a : args) (result : tool) (w : world) :
  handle_output a result w
  = match target a with
    | Some path => write_tool path a result w
    | None => {| exit_code := 0; after := w; stderr := [];
                 stdout := [json_dump (result_json result) (indent_of a)] |}
    end.
Proof.
  unfold handle_output, target. destruct (output_file a) as [[|c s]|]; reflexivity.
Qed.

Lemma tools_at_written (path : string) (doc : list (string * json))
  (indent : option nat) (w : world) :
  tools_at (write_file path (json_dump (JObj doc) indent) w) path
  = match lookup "tools" doc with
    | Some (JList tools) => Some tools
    | _ => None
    end.
Proof.
  unfold tools_at, write_file, json_dump. cbn [files].
  rewrite String.eqb_refl. reflexivity.
Qed.

Lemma write_document_cases (path : string) (a : args) (result : tool)
  (w : world) (doc : list (string * json)) (done : message) :
  is_report done = true ->
  lookup "tools" doc = Some (JList (tools_before w path ++ [tool_json result])) ->
  write_case path a result w
    (write_document path (JObj doc) (indent_of a) done w).
Proof.
  intros Hdone Hdoc. unfold write_document.
  destruct (writing w path) eqn:Hw.
  - apply WroteDocument; auto. unfold can_write. rewrite Hw. reflexivity.
  - apply WroteNothing. reflexivity.
  - apply LeftTruncated. exact Hw.
Qed.

Lemma write_tool_cases (path : string) (a : args) (result : tool) (w : world) :
  write_case path a result w (write_tool path a result w).
Proof.
  assert (Hbefore : forall tools,
             tools_at w path = tools -> tools_before w path
             = match tools with Some l => l | None => [] end).
  { intros tools <-. reflexivity. }
  unfold write_tool. fold (indent_of a).
  destruct (files w path) as [existing|] eqn:Hf.
  - destruct (can_read w path); cbn [negb]; [|apply WroteNothing; reflexivity].
    destruct (json_load existing) as [existing_data| |] eqn:Hj;
      try (apply WroteNothing; reflexivity).
    unfold append_tool, tools_in, has_key.
    destruct existing_data as [|b|n|digits|s|items|fields];
      try (apply WroteNothing; reflexivity).
    + destruct (Str.contains "tools" s);
        [apply WroteNothing; reflexivity|].
      apply write_document_cases; [reflexivity|].
      rewrite (Hbefore None); [reflexivity|].
      unfold tools_at. rewrite Hf, Hj. reflexivity.
    + destruct (existsb (is_str "tools") items);
        [apply WroteNothing; reflexivity|].
      apply write_document_cases; [reflexivity|].
      rewrite (Hbefore None); [reflexivity|].
      unfold tools_at. rewrite Hf, Hj. reflexivity.
    + destruct (lookup "tools" fields) as [v|] eqn:Hl.
      * destruct v as [|b|n|digits|s|tools|fields'];
          try (apply WroteNothing; reflexivity).
        apply write_document_cases; [reflexivity|].
        rewrite (Hbefore (Some tools));
          [apply (lookup_update _ _ _ _ Hl)|].
        unfold tools_at. rewrite Hf, Hj, Hl. reflexivity.
      * apply write_document_cases; [reflexivity|].
        rewrite (Hbefore None); [reflexivity|].
        unfold tools_at. rewrite Hf, Hj, Hl. reflexivity.
  - apply write_document_cases; [reflexivity|].
    rewrite (Hbefore None); [reflexivity|].
    unfold tools_at. rewrite Hf. reflexivity.
Qed.

(** A run of the program is the retrieval's lines followed by one of three
    things: the traceback of [re.error], a silent failure when there is no
    page, or the output of the record. *)
Lemma main_run (compile : string -> command_pattern) (src : sources)
  (a : args) (w : world) :
  exists r,
    main compile src a w = said_before (retrieval_lines src (command a)) r
    /\ ((man_to_json compile (retrieve src) (command a) = None
         /\ r = failed w [Traceback])
        \/ (man_to_json compile (retrieve src) (command a) = Some None
            /\ r = failed w [])
        \/ (exists result,
              man_to_json compile (retrieve src) (command a)
              = Some (Some result)
              /\ r = handle_output a result w)).
Proof.
  unfold main.
  destruct (man_to_json compile (retrieve src) (command a)) as [[result|]|];
    eexists; (split; [reflexivity|]); eauto.
Qed.



(** X2: when a run of [main] with an output file returns 0, the page was
    retrieved and the file then holds a document whose [tools] sequence is
    the one found in the file before the run (empty when the file or its
    [tools] key was not there) followed by the new tool record; nothing is
    printed on the standard output. *)
Theorem success_appends_the_tool
  (compile : string -> command_pattern) (src : sources) (a : args) (w : world)
  (r : run) (path : string) :
  main compile src a w = r ->
  target a = Some path ->
  exit_code r = 0 ->
  exists result,
    man_to_json compile (retrieve src) (command a) = Some (Some result)
    /\ tools_at (after r) path
       = Some (tools_before w path ++ [tool_json result])%list
    /\ stdout r = [].
Proof.
  intros <- Htarget Hexit. destruct (main_run compile src a w) as [r [Hmain Hr]].
  rewrite Hmain in *. cbn [said_before exit_code after stdout] in *.
  destruct Hr as [[_ ->]|[[_ ->]|[result [Hres ->]]]];
    [discriminate Hexit | discriminate Hexit |].
  exists result. split; [exact Hres|].
  rewrite handle_output_target, Htarget in *.
  destruct (write_tool_cases path a result w)
    as [doc done Hw Hdone Hdoc|m Hm|doc Hw];
    [|discriminate Hexit | discriminate Hexit].
  cbn [after stdout]. rewrite tools_at_written, Hdoc. auto.
Qed.

Lemma success_appends_witness :
  exists result,
    man_to_json no_patterns (retrieve foo_sources) "foo" = Some (Some result)
    /\ tools_at (write_file "tools.json"
                   (Encoded None (JObj [("tools", JList [tool_json foo_tool])]))
                   versioned_world) "tools.json"
       = Some ([] ++ [tool_json result])%list.
Proof.
  destruct (success_appends_the_tool no_patterns foo_sources
              (to_file "foo" "tools.json")
              versioned_world _ "tools.json" versioned_run eq_refl eq_refl)
    as [result [H1 [H2 _]]].
  exists result. split; [exact H1 | exact H2].
Defined.

(** X3: a run of [main] changes no file other than its output file, and
    never whether a file can be opened or written; without an output file
    (no [-o], or an empty name) it changes no file at all. *)
Theorem other_files_untouched
  (compile : string -> command_pattern) (src : sources) (a : args) (w : world)
  (r : run) :
  main compile src a w = r ->
  can_read (after r) = can_read w
  /\ writing (after r) = writing w
  /\ (forall p, target a <> Some p -> files (after r) p = files w p)
  /\ (target a = None -> after r = w).
Proof.
  intros <-. destruct (main_run compile src a w) as [r [-> Hr]].
  cbn [said_before after].
  destruct Hr as [[_ ->]|[[_ ->]|[result [_ ->]]]]; [simpl; auto..|].
  rewrite handle_output_target. destruct (target a) as [path|].
  - destruct (write_tool_cases path a result w)
      as [doc done Hw Hdone _|m Hm|doc Hw];
      simpl; repeat split; auto; try discriminate;
      intros p Hp; destruct (String.eqb_spec p path); congruence.
  - simpl. auto.
Qed.

Lemma other_files_witness :
  files (write_file "tools.json"
           (Encoded None (JObj [("tools", JList [tool_json foo_tool])]))
           versioned_world) "other.json"
  = files versioned_world "other.json".
Proof.
  destruct (other_files_untouched no_patterns foo_sources
              (to_file "foo" "tools.json")
              versioned_world _ versioned_run) as [_ [_ [H _]]].
  apply (H "other.json"). discriminate.
Defined.



Lemma write_tool_created (path : string) (a : args) (result : tool) (w : world) :
  files w path = None -> can_write w path = true ->
  write_tool path a result w
  = {| exit_code := 0;
       after := write_file path
                  (json_dump (JObj [("tools", JList [tool_json result])])
                     (indent_of a)) w;
       stderr := [Created path (command a)];
       stdout := [] |}.
Proof.
  intros Hf Hw. unfold write_tool, write_document.
  rewrite Hf, (written _ _ Hw). reflexivity.
Qed.

(** X5: when the output file does not exist and can be created, a run of
    [main] for a tool A creates it with the [tools] sequence [[A]] and
    reports the creation; a second run for a tool B, on the file so
    created, reports an append and leaves the sequence [[A; B]].  When the
    file cannot be opened for writing, the run returns 1 with the write
    error and there is still no file.  When the write fails after the file
    was opened, the run returns 1 with the write error and leaves a file
    that is not a document. *)
Theorem create_then_append
  (compile : string -> command_pattern) (src : sources) (w : world)
  (path : string) (aA aB : args) (A B : tool) :
  target aA = Some path -> target aB = Some path ->
  files w path = None ->
  man_to_json compile (retrieve src) (command aA) = Some (Some A) ->
  man_to_json compile (retrieve src) (command aB) = Some (Some B) ->
  (can_write w path = true -> can_read w path = true ->
   exists r1 r2,
     main compile src aA w = r1
     /\ exit_code r1 = 0
     /\ stderr r1 = (retrieval_lines src (command aA)
                     ++ [Created path (command aA)])%list
     /\ tools_at (after r1) path = Some [tool_json A]
     /\ main compile src aB (after r1) = r2
     /\ exit_code r2 = 0
     /\ stderr r2 = (retrieval_lines src (command aB)
                     ++ [Appended (command aB) path])%list
     /\ tools_at (after r2) path = Some [tool_json A; tool_json B])
  /\ (writing w path = OpenFails ->
      main compile src aA w
      = failed w (retrieval_lines src (command aA) ++ [WriteError]))
  /\ (writing w path = DumpFails ->
      main compile src aA w
      = {| exit_code := 1;
           after := write_file path
                      (Truncated (indent_of aA)
                         (JObj [("tools", JList [tool_json A])])) w;
           stderr := (retrieval_lines src (command aA) ++ [WriteError])%list;
           stdout := [] |}).
Proof.
  intros HtA HtB Hf HA HB. split; [|split].
  - intros Hw Hr.
    destruct (target_output _ _ HtA) as [HoA Hpath].
    destruct (target_output _ _ HtB) as [HoB _].
    pose (r1 := write_tool path aA A w).
    assert (Hr1 : r1 = {| exit_code := 0;
                          after := write_file path
                                     (json_dump (JObj [("tools", JList [tool_json A])])
                                        (indent_of aA)) w;
                          stderr := [Created path (command aA)];
                          stdout := [] |})
      by (apply write_tool_created; assumption).
    assert (Ht1 : tools_at (after r1) path = Some [tool_json A]).
    { rewrite Hr1. cbn [after]. apply tools_at_written. }
    assert (Hw1 : can_write (after r1) path = true).
    { rewrite Hr1. exact Hw. }
    destruct (handle_output_append aB B (after r1) path [tool_json A] HoB Hpath)
      as [r2 [Hr2 [He2 [Hm2 [_ [_ [Ht2 _]]]]]]]; try assumption;
      try (rewrite Hr1; exact Hr).
    exists (said_before (retrieval_lines src (command aA)) r1),
           (said_before (retrieval_lines src (command aB)) r2).
    rewrite (main_record _ _ _ _ _ HA), handle_output_target, HtA.
    fold r1. cbn [said_before exit_code after stderr].
    rewrite (main_record _ _ _ _ _ HB), Hr2.
    cbn [said_before exit_code after stderr]. rewrite Hm2.
    repeat split; auto; rewrite Hr1; reflexivity.
  - intros Hw. rewrite (main_record _ _ _ _ _ HA), handle_output_target, HtA.
    unfold write_tool, write_document. rewrite Hf, Hw. reflexivity.
  - intros Hw. rewrite (main_record _ _ _ _ _ HA), handle_output_target, HtA.
    unfold write_tool, write_document. rewrite Hf, Hw. reflexivity.
Qed.

Lemma create_then_append_witness :
  exists r1 r2,
    main no_patterns foo_sources (to_file "foo" "tools.json") no_files = r1
    /\ tools_at (after r1) "tools.json" = Some [tool_json foo_tool]
    /\ main no_patterns foo_sources (to_file "bar" "tools.json") (after r1) = r2
    /\ tools_at (after r2) "tools.json"
       = Some [tool_json foo_tool; tool_json bar_tool].
Proof.
  destruct (create_then_append no_patterns foo_sources no_files "tools.json"
              (to_file "foo" "tools.json") (to_file "bar" "tools.json")
              foo_tool bar_tool eq_refl eq_refl eq_refl eq_refl eq_refl)
    as [H _].
  destruct (H eq_refl eq_refl) as [r1 [r2 [H1 [_ [_ [T1 [H2 [_ [_ T2]]]]]]]]].
  exists r1, r2. repeat split; assumption.
Defined.





(** ** The records of the two parsers *)

Lemma split_entry_primary (entry : string) (e : entry_parts) :
  split_entry entry = Some e ->
  exists m,
    match_in option_pattern (e_first_line e) m
    /\ e_primary_option e = group_text 1 m.
Proof.
  unfold split_entry.
  destruct (negb (Str.nonempty (Str.strip entry))); [discriminate|].
  destruct (Str.split_char Str.nl (Str.strip entry)) as [|first rest];
    [discriminate|].
  destruct (negb (Str.startswith "-" (Str.strip first))); [discriminate|].
  destruct (re_findall1 option_pattern (Str.strip first)) as [|primary more] eqn:E;
    [discriminate|].
  intros H. injection H as <-. cbn [e_first_line e_primary_option].
  apply (findall_head _ _ _ _ E).
Qed.

Lemma classify_not_positional (param_name description first_line : string) :
  classify_parameter_type param_name description first_line <> Positional.
Proof.
  unfold classify_parameter_type.
  repeat match goal with
         | |- context [if ?b then _ else _] => destruct b
         end; discriminate.
Qed.

Lemma is_dash_not_space (u : string) :
  begins_in is_dash u = true -> begins_in not_space u = true.
Proof.
  destruct u as [|a u]; [discriminate|]. simpl. unfold is_dash.
  intros H. apply Ascii.eqb_eq in H. subst a. reflexivity.
Qed.

(** X8: every record that [parse_options] emits is of the option family:
    its parameter type is not [positional], it has no [position], and its
    name is a token of the first line that begins with a dash, has at least
    two characters and has no whitespace at either end. *)
Theorem option_records_shape (man_content : string) (p : param) :
  In p (parse_options man_content) ->
  param_type p <> Positional
  /\ position p = None
  /\ begins_in is_dash (name p) = true
  /\ 2 <= String.length (name p)
  /\ Str.strip (name p) = name p.
Proof.
  intros Hin. destruct (parse_options_In _ _ Hin) as [entry [e [Hsplit ->]]].
  destruct (split_entry_primary _ _ Hsplit) as [m [Hm Hprimary]].
  destruct (option_pattern_token _ _ Hm) as [Hb [He Hlen]].
  assert (Hstrip : Str.strip (e_primary_option e) = e_primary_option e).
  { rewrite Hprimary. apply strip_clean; [apply is_dash_not_space, Hb | exact He]. }
  unfold entry_param. cbn [param_type position name].
  rewrite !Hstrip, Hprimary.
  split; [apply classify_not_positional|]. auto.
Qed.

Lemma option_records_witness :
  begins_in is_dash (name verbose_param) = true
  /\ 2 <= String.length (name verbose_param).
Proof.
  assert (Hin : In verbose_param (parse_options (options_section verbose_entry))).
  { vm_compute. left. reflexivity. }
  destruct (option_records_shape _ _ Hin) as [_ [_ [H1 [H2 _]]]].
  split; assumption.
Defined.

Lemma positional_loop_all (l : list string) :
  (forall t, In t l -> Str.strip t = t /\ t <> "") ->
  forall idx,
    positional_loop idx l
    = map (fun it => positional_param (fst it) (snd it))
        (combine (List.seq idx (List.length l)) l).
Proof.
  induction l as [|t l IH]; intros Hl idx; [reflexivity|].
  cbn [positional_loop List.length List.seq combine map fst snd].
  destruct (Hl t (or_introl eq_refl)) as [Hs Hne].
  rewrite Hs, (nonempty_true _ Hne). cbn [app]. f_equal.
  apply IH. intros t' Ht'. apply Hl. right. exact Ht'.
Qed.

Lemma map_position_combine (l : list string) (idx : nat) :
  map position
    (map (fun it => positional_param (fst it) (snd it))
       (combine (List.seq idx (List.length l)) l))
  = map Some (List.seq idx (List.length l)).
Proof.
  revert idx. induction l as [|t l IH]; intros idx; [reflexivity|].
  simpl. rewrite IH. reflexivity.
Qed.

(** X9: the records that [parse_positional_args] emits are numbered 1, 2,
    ... without a gap, in their order.  Each has the parameter type
    [positional], no description, a name that is a token made of word
    characters and dots and beginning with a word character, and a
    [value-type] that is not empty. *)
Theorem positional_records_shape (compile : string -> command_pattern)
  (man_content command : string) (positional : list param) :
  parse_positional_args compile man_content command = Some positional ->
  map position positional = map Some (List.seq 1 (List.length positional))
  /\ (forall p, In p positional ->
        param_type p = Positional
        /\ description p = None
        /\ begins_in Str.is_word (name p) = true
        /\ str_all word_or_dot (name p) = true
        /\ exists v, value_type p = Some v /\ v <> "").
Proof.
  unfold parse_positional_args.
  destruct (re_search synopsis_re man_content) as [sm|];
    [|intros H; injection H as <-; split; [reflexivity | intros p []]].
  destruct (command_re compile command) as [|sub]; [discriminate|].
  intros H. injection H as <-.
  set (tokens := re_findall1 positional_pattern _).
  assert (Htok : forall t, In t tokens ->
             begins_in Str.is_word t = true /\ str_all word_or_dot t = true).
  { intros t Ht. apply findall_In in Ht. destruct Ht as [m [Hm ->]].
    apply (positional_pattern_token _ _ Hm). }
  assert (Hclean : forall t, In t tokens -> Str.strip t = t /\ t <> "").
  { intros t Ht. destruct (Htok t Ht) as [Hb Ha].
    assert (Hne : t <> "") by (destruct t; [discriminate Hb | discriminate]).
    split; [|exact Hne].
    destruct (str_all_ends _ _ (word_or_dot_not_space _ Ha) Hne).
    apply strip_clean; assumption. }
  rewrite (positional_loop_all _ Hclean 1). split.
  - rewrite map_position_combine, length_map, length_combine, length_seq,
      Nat.min_id. reflexivity.
  - intros p Hp. apply in_map_iff in Hp. destruct Hp as [[i t] [<- Hit]].
    apply in_combine_r in Hit. cbn [fst snd].
    destruct (Htok t Hit) as [Hb Ha]. destruct (Hclean t Hit) as [Hs _].
    unfold positional_param. cbn [param_type description name value_type].
    rewrite Hs. repeat split; auto.
    exists (positional_value_type t). split; [reflexivity|].
    apply positional_value_type_nonempty, Hb.
Qed.

Lemma positional_shape_witness :
  map position [options_arg; pattern_arg; file_arg] = [Some 1; Some 2; Some 3].
Proof.
  exact (proj1 (positional_records_shape no_patterns grep_synopsis "grep" _
                  (grep_synopsis_run no_patterns))).
Defined.

(** ** The classification of an option, further *)

Lemma has_char_any (a : ascii) (s : string) :
  Str.has_char a s = str_any (Ascii.eqb a) s.
Proof. induction s as [|b s IH]; simpl; [|rewrite IH]; reflexivity. Qed.

Lemma found_some_in (f : ascii -> bool) (r : regex) (s : string) :
  some_in f r = true -> re_found r s = true -> str_any f s = true.
Proof.
  intros Hshape H. apply re_found_den in H.
  destruct H as [m [pre [u [rest [-> Hd]]]]].
  rewrite !str_any_app, (den_some_in f _ _ _ _ _ Hd Hshape).
  rewrite orb_true_r. reflexivity.
Qed.

Lemma has_char_combined (a : ascii) (n d fl : string) :
  Ascii.eqb a " " = false ->
  Str.has_char a (combined_text n d fl)
  = Str.has_char a n || Str.has_char a fl || Str.has_char a d.
Proof.
  intros Ha. unfold combined_text. rewrite !has_char_any, !str_any_app.
  simpl. rewrite Ha. simpl. rewrite orb_assoc. reflexivity.
Qed.

(** X10: an option is classified [option-kv-equals] or [option-equals]
    only when an equals sign occurs in its entry: for [option-kv-equals],
    not in the name but in the first line or the description; for
    [option-equals], in the name or in the description.  It is classified
    [option-kv-colon] only when a colon occurs in the first line or the
    description and not in the name. *)
Theorem equals_kinds_need_an_equals_sign
  (param_name description first_line : string) :
  (classify_parameter_type param_name description first_line = OptKvEquals ->
   Str.has_char "=" param_name = false
   /\ Str.has_char "=" first_line || Str.has_char "=" description = true)
  /\ (classify_parameter_type param_name description first_line = OptEquals ->
      Str.has_char "=" param_name || Str.has_char "=" description = true)
  /\ (classify_parameter_type param_name description first_line = OptKvColon ->
      Str.has_char ":" param_name = false
      /\ Str.has_char ":" first_line || Str.has_char ":" description = true).
Proof.
  assert (Heq : re_found kv_equals_re
                  (combined_text param_name description first_line) = true ->
                Str.has_char "=" param_name = false ->
                Str.has_char "=" first_line || Str.has_char "=" description = true).
  { intros H Hn. apply (found_some_in (Ascii.eqb "=")) in H; [|reflexivity].
    rewrite <- has_char_any, has_char_combined, Hn in H by reflexivity.
    exact H. }
  assert (Hcolon : re_found kv_colon_re
                     (combined_text param_name description first_line) = true ->
                   Str.has_char ":" param_name = false ->
                   Str.has_char ":" first_line || Str.has_char ":" description
                   = true).
  { intros H Hn. apply (found_some_in (Ascii.eqb ":")) in H; [|reflexivity].
    rewrite <- has_char_any, has_char_combined, Hn in H by reflexivity.
    exact H. }
  assert (Hlong : re_found long_equals_re description = true ->
                  Str.has_char "=" description = true).
  { intros H. apply (found_some_in (Ascii.eqb "=")) in H; [|reflexivity].
    rewrite has_char_any. exact H. }
  unfold classify_parameter_type. cbv zeta.
  repeat match goal with
         | |- context [if ?b then _ else _] => destruct b eqn:?
         end;
    (split; [|split]); intros HK; try discriminate HK; split_andb;
    repeat match goal with
           | H : negb _ = true |- _ => apply negb_true_iff in H
           end.
  - split; [assumption | apply Heq; assumption].
  - split; [assumption | apply Hcolon; assumption].
  - match goal with
    | H : _ || _ = true |- _ =>
        apply orb_prop in H; destruct H as [H|H];
        [rewrite H; reflexivity | rewrite (Hlong H); apply orb_true_r]
    end.
Qed.

Lemma equals_kinds_witness :
  Str.has_char "=" "--cookie" = false
  /\ Str.has_char "=" cookie_entry
     || Str.has_char "=" "<name=value> pass cookie as name=value" = true.
Proof.
  destruct (equals_kinds_need_an_equals_sign "--cookie"
              "<name=value> pass cookie as name=value" cookie_entry) as [H _].
  apply H. vm_compute. reflexivity.
Defined.

Lemma word_of_sound (l : list string) (s : string) :
  l <> [] ->
  (forall w, In w l ->
     Str.starts_with_word w = true /\ Str.ends_with_word w = true) ->
  re_found (word_of l) s = true ->
  exists w, In w l /\ has_word w s.
Proof.
  intros Hl Hshape H. apply re_found_den in H.
  destruct H as [m [pre [u [rest [-> Hd]]]]]. unfold word_of in Hd.
  change (seq [?a; ?b; ?c]) with (Seq a (Seq b c)) in Hd.
  apply den_seq_inv in Hd.
  destruct Hd as [u1 [u2 [cs1 [cs2 [-> [_ [Hb Hd]]]]]]].
  apply den_wordb_inv in Hb. destruct Hb as [-> [_ Hb]].
  apply den_seq_inv in Hd.
  destruct Hd as [w [u3 [cs3 [cs4 [-> [_ [Hg He]]]]]]].
  apply den_wordb_inv in He. destruct He as [-> [_ He]].
  apply den_group_inv in Hg. destruct Hg as [cs' [_ Hg]].
  apply den_alt_lit in Hg; [|exact Hl]. destruct Hg as [Hw _].
  destruct (Hshape w Hw) as [Hfirst Hlast].
  exists w. split; [exact Hw|]. exists pre, rest.
  cbn [String.append last_char] in *.
  assert (Hnil : w ++ "" = w).
  { clear. induction w as [|a w IH]; simpl; [|rewrite IH]; reflexivity. }
  rewrite Hnil in *.
  assert (Hstart : Str.starts_with_word (w ++ rest) = true).
  { destruct w; [discriminate Hfirst | exact Hfirst]. }
  rewrite Hstart in Hb. rewrite last_char_word in Hb, He.
  assert (Hend : match w with
                 | "" => Str.is_word_char (last_char None pre)
                 | String _ _ => Str.ends_with_word w
                 end = true).
  { destruct w; [discriminate Hfirst | exact Hlast]. }
  rewrite Hend in He.
  split; [reflexivity|]. split.
  - destruct pre; [reflexivity|]. destruct (Str.ends_with_word _); [discriminate Hb | reflexivity].
  - destruct (Str.starts_with_word rest); [discriminate He | reflexivity].
Qed.

Lemma value_verbs_shape (w : string) :
  In w value_verbs ->
  Str.starts_with_word w = true /\ Str.ends_with_word w = true.
Proof.
  unfold value_verbs. simpl.
  intros [<-|[<-|[<-|[<-|[<-|[<-|[]]]]]]]; split; reflexivity.
Qed.

(** X11: [classify_parameter_type] gives [flag] in two cases only: the
    description, lowercased, contains one of the words [toggle], [enable],
    [disable], [flag] as a word; or the name has two characters, the first
    a dash, and the description, lowercased, contains none of the words
    [specify], [set], [use], [take], [accept], [require] as a word.  A
    longer name without a flag word in its description is never a flag. *)
Theorem flag_only_when
  (param_name description first_line : string) :
  classify_parameter_type param_name description first_line = Flag ->
  (exists w, In w flag_words /\ has_word w (Str.lower description))
  \/ (Str.startswith "-" param_name = true
      /\ String.length param_name = 2
      /\ forall w, In w value_verbs -> ~ has_word w (Str.lower description)).
Proof.
  unfold classify_parameter_type. cbv zeta.
  destruct (re_found flag_word_re (Str.lower description)) eqn:Eflag.
  - intros _. left. apply word_of_sound; [discriminate| |exact Eflag].
    intros w Hw. destruct (flag_words_shape w Hw) as [H1 [H2 _]]. auto.
  - repeat match goal with
           | |- context [if ?b then _ else _] => destruct b eqn:?
           end; intros HK; try discriminate HK.
    right. split_andb.
    match goal with
    | H : Nat.eqb _ 2 = true |- _ => apply Nat.eqb_eq in H
    end.
    repeat split; auto.
    intros w Hw Hhas.
    destruct (value_verbs_shape w Hw) as [H1 H2].
    pose proof (word_of_found value_verbs w _ Hw H1 H2 Hhas) as Hfound.
    unfold value_verb_re in *. congruence.
Qed.

Lemma flag_only_when_witness :
  (exists w, In w flag_words /\ has_word w (Str.lower ", enable verbose output"))
  \/ (Str.startswith "-" "-v" = true
      /\ String.length "-v" = 2
      /\ forall w, In w value_verbs ->
                   ~ has_word w (Str.lower ", enable verbose output")).
Proof.
  apply (flag_only_when "-v" ", enable verbose output" verbose_entry).
  vm_compute. reflexivity.
Defined.

(** ** The tool record *)

Lemma man_to_json_record (compile : string -> command_pattern)
  (get_man_page : string -> option string) (command : string) (t : tool) :
  man_to_json compile get_man_page command = Some (Some t) ->
  exists man_content positional,
    get_man_page command = Some man_content
    /\ man_content <> ""
    /\ parse_positional_args compile man_content command = Some positional
    /\ t = {| tool_name := command;
              tool_description := extract_description man_content;
              parameters := (positional ++ parse_options man_content)%list |}.
Proof.
  unfold man_to_json.
  destruct (get_man_page command) as [man_content|]; [|discriminate].
  destruct man_content as [|a s]; [discriminate|]. cbn [Str.nonempty negb].
  destruct (parse_positional_args compile (String a s) command) as [positional|] eqn:Hp;
    [|discriminate].
  intros H. injection H as <-.
  exists (String a s), positional. repeat split; try reflexivity; try discriminate; auto.
Qed.

(** *** The value types *)

Lemma lookup_group_In (n : nat) (g : caps) (t : string) :
  lookup_group n g = Some t -> In (n, t) g.
Proof.
  induction g as [|[i s] g IH]; simpl; [discriminate|].
  destruct (Nat.eqb_spec i n) as [->|_].
  - intros H. injection H as ->. left. reflexivity.
  - intros H. right. apply IH, H.
Qed.

Lemma den_captures_in (f : ascii -> bool) (r : regex) p u rest cs :
  den r p u rest cs -> captures_in f r = true ->
  forall n t, In (n, t) cs -> str_all f t = true.
Proof.
  induction 1; cbn [captures_in]; intros Hn n' t Hin; split_andb;
    try (destruct Hin; fail); eauto.
  - apply in_app_or in Hin. destruct Hin; eauto.
  - apply in_app_or in Hin. destruct Hin; eauto.
  - destruct Hin as [E|Hin]; [|eauto].
    injection E as _ <-. apply (den_consumes_in _ _ _ _ _ _ H). assumption.
Qed.

Lemma group_text_in (f : ascii -> bool) (r : regex) (s : string)
  (m : rmatch_result) (n : nat) :
  captures_in f r = true -> match_in r s m -> str_all f (group_text n m) = true.
Proof.
  intros Hshape [pre [u [rest [_ Hd]]]]. unfold group_text, group.
  destruct (lookup_group n (m_caps m)) as [t|] eqn:E; [|reflexivity].
  apply (den_captures_in f _ _ _ _ _ Hd Hshape n), lookup_group_In, E.
Qed.

Lemma lower_ident (u : string) :
  str_all word_or_dash u = true -> str_all ident_char (Str.lower u) = true.
Proof.
  induction u as [|a u IH]; [reflexivity|]. simpl. intros H.
  apply andb_prop in H. destruct H as [Ha Hu]. rewrite (IH Hu), andb_true_r.
  revert Ha. clear. destruct a as [[] [] [] [] [] [] [] []]; vm_compute; auto.
Qed.

Lemma normalize_ident (v : string) :
  str_all ident_char v = true ->
  str_all ident_char (normalize_value_type v) = true.
Proof.
  intros H. unfold normalize_value_type.
  repeat match goal with
         | |- context [if ?b then _ else _] => destruct b
         end; try reflexivity; exact H.
Qed.

Lemma first_value_match_some (patterns : list regex) (param_text v : string) :
  first_value_match patterns param_text = Some v ->
  exists pattern m,
    In pattern patterns /\ re_search pattern param_text = Some m
    /\ v = normalize_value_type (Str.lower (group_text 1 m)).
Proof.
  induction patterns as [|pattern rest IH]; simpl; [discriminate|].
  destruct (re_search pattern param_text) as [m|] eqn:E.
  - intros H. injection H as <-. exists pattern, m. auto.
  - intros H. destruct (IH H) as [r [m [Hr Hm]]]. exists r, m. auto.
Qed.

Lemma extract_value_type_ident (param_text description v : string) :
  extract_value_type param_text description = Some v ->
  str_all ident_char v = true.
Proof.
  unfold extract_value_type.
  destruct (first_value_match value_patterns param_text) as [w|] eqn:E.
  - intros H. injection H as <-.
    apply first_value_match_some in E.
    destruct E as [pattern [m [Hin [Hm ->]]]].
    apply normalize_ident, lower_ident.
    apply (group_text_in _ pattern param_text); [|apply re_search_den, Hm].
    unfold value_patterns in Hin. simpl in Hin.
    destruct Hin as [<-|[<-|[<-|[<-|[]]]]]; vm_compute; reflexivity.
  - unfold description_hint.
    repeat match goal with
           | |- context [if ?b then _ else _] => destruct b
           end; intros H; try discriminate H; injection H as <-; reflexivity.
Qed.

Lemma truthy_some (o : option string) (v : string) :
  truthy o = Some v -> o = Some v /\ v <> "".
Proof.
  destruct o as [s|]; [|discriminate]. simpl.
  destruct s; [discriminate|]. intros H. injection H as <-.
  split; [reflexivity | discriminate].
Qed.

Lemma entry_value_type (e : entry_parts) (v : string) :
  value_type (entry_param e) = Some v ->
  v <> "" /\ str_all ident_char v = true.
Proof.
  unfold entry_param. cbn [value_type]. intros H.
  apply truthy_some in H. destruct H as [H Hne]. split; [exact Hne|].
  destruct (classify_parameter_type _ _ _); try discriminate H;
    apply (extract_value_type_ident _ _ _ H).
Qed.

Lemma positional_value_type_ident (s : string) (m : rmatch_result) :
  match_in positional_pattern s m ->
  str_all ident_char (positional_value_type (group_text 1 m)) = true.
Proof.
  intros Hm. destruct (positional_token_form _ _ Hm) as [w [Hw Hform]].
  destruct (lower_word _ Hw) as [Hident Hdots].
  unfold positional_value_type.
  repeat match goal with
         | |- context [if ?b then _ else _] => destruct b
         end; try reflexivity.
  unfold Str.rstrip_dots. destruct Hform as [->| ->].
  - rewrite (rstrip_none _ _ Hdots). exact Hident.
  - rewrite lower_app, rstrip_app_all by reflexivity.
    rewrite (rstrip_none _ _ Hdots). exact Hident.
Qed.

(** X12: in the record that [man_to_json] returns, the name is the command
    name and the parameters are the positional records, all of them,
    followed by the option records: every record before the split has the
    parameter type [positional] and a position, every record after it has
    another parameter type and no position. *)
Theorem positionals_come_first (compile : string -> command_pattern)
  (get_man_page : string -> option string) (command : string) (t : tool) :
  man_to_json compile get_man_page command = Some (Some t) ->
  tool_name t = command
  /\ exists positional options,
       parameters t = (positional ++ options)%list
       /\ (forall p, In p positional ->
             param_type p = Positional /\ position p <> None)
       /\ (forall p, In p options ->
             param_type p <> Positional /\ position p = None).
Proof.
  intros H. apply man_to_json_record in H.
  destruct H as [man_content [positional [_ [_ [Hpos ->]]]]].
  split; [reflexivity|].
  exists positional, (parse_options man_content). cbn [parameters].
  split; [reflexivity|]. split.
  - intros p Hp.
    destruct (positional_tokens _ _ _ _ _ Hpos Hp) as [i [m [s [_ ->]]]].
    split; [reflexivity | discriminate].
  - intros p Hp. destruct (parse_options_In _ _ Hp) as [entry [e [_ ->]]].
    split; [apply classify_not_positional | reflexivity].
Qed.

Lemma positionals_first_witness :
  exists positional options,
    parameters grep_tool = (positional ++ options)%list
    /\ (forall p, In p positional ->
          param_type p = Positional /\ position p <> None)
    /\ (forall p, In p options ->
          param_type p <> Positional /\ position p = None).
Proof.
  apply (positionals_come_first no_patterns grep_page "grep" grep_tool). reflexivity.
Defined.

(** X13: every [value-type] of the record that [man_to_json] returns is an
    identifier in small letters: it is not empty and is made of small
    letters, digits, underscores and hyphens only. *)
Theorem value_types_are_identifiers (compile : string -> command_pattern)
  (get_man_page : string -> option string) (command : string) (t : tool)
  (p : param) (v : string) :
  man_to_json compile get_man_page command = Some (Some t) ->
  In p (parameters t) ->
  value_type p = Some v ->
  v <> "" /\ str_all ident_char v = true.
Proof.
  intros H Hp Hv. apply man_to_json_record in H.
  destruct H as [man_content [positional [_ [_ [Hpos ->]]]]].
  cbn [parameters] in Hp. apply in_app_or in Hp. destruct Hp as [Hp|Hp].
  - destruct (positional_tokens _ _ _ _ _ Hpos Hp) as [i [m [s [Hm ->]]]].
    cbn [positional_param value_type] in Hv. injection Hv as <-. split.
    + apply positional_value_type_nonempty.
      apply (positional_pattern_token _ _ Hm).
    + apply (positional_value_type_ident _ _ Hm).
  - destruct (parse_options_In _ _ Hp) as [entry [e [_ ->]]].
    apply (entry_value_type e), Hv.
Qed.

Lemma value_types_witness :
  "file-path" <> "" /\ str_all ident_char "file-path" = true.
Proof.
  apply (value_types_are_identifiers no_patterns grep_page "grep" grep_tool
           file_arg);
    [reflexivity | simpl; auto | reflexivity].
Defined.

(** ** One-line descriptions *)

Lemma collapse_single (s : string) :
  forall b,
    single_spaced (collapse_from b s) = true
    /\ (b = true -> begins_in Str.is_space (collapse_from b s) = false).
Proof.
  induction s as [|a s IH]; intros b; [split; reflexivity|].
  cbn [collapse_from]. destruct (Str.is_space a) eqn:Ha.
  - destruct (IH true) as [H1 H2]. destruct b.
    + split; [exact H1 | exact H2].
    + split; [|discriminate]. cbn [single_spaced].
      rewrite (H2 eq_refl), H1. reflexivity.
  - destruct (IH false) as [H1 _]. cbn [single_spaced begins_in].
    rewrite Ha, H1. split; reflexivity.
Qed.

Lemma single_spaced_app (u v : string) :
  single_spaced (u ++ v) = true ->
  single_spaced u = true /\ single_spaced v = true.
Proof.
  induction u as [|a u IH]; [auto|]. cbn [String.append single_spaced].
  intros H. apply andb_prop in H. destruct H as [Ha H].
  destruct (IH H) as [Hu Hv]. split; [|exact Hv]. rewrite Hu, andb_true_r.
  destruct (Str.is_space a); [|reflexivity].
  destruct u; [rewrite andb_true_r in *|exact Ha].
  apply andb_prop in Ha. apply Ha.
Qed.

Lemma lstrip_suffix (f : ascii -> bool) (s : string) :
  exists t, s = t ++ Str.lstrip_by f s.
Proof.
  induction s as [|a s [t Ht]]; [exists ""; reflexivity|]. simpl.
  destruct (f a); [|exists ""; reflexivity].
  exists (String a t). simpl. rewrite <- Ht. reflexivity.
Qed.

Lemma rstrip_prefix (f : ascii -> bool) (s : string) :
  exists t, s = Str.rstrip_by f s ++ t.
Proof.
  induction s as [|a s [t Ht]]; [exists ""; reflexivity|]. simpl.
  destruct (Str.rstrip_by f s) as [|b r].
  - destruct (f a); [exists (String a s) | exists s]; reflexivity.
  - exists t. simpl in *. rewrite <- Ht. reflexivity.
Qed.

Lemma take_prefix (k : nat) (s : string) : exists t, s = Str.take k s ++ t.
Proof.
  revert k. induction s as [|a s IH]; intros k.
  - exists "". destruct k; reflexivity.
  - destruct k as [|k]; [exists (String a s); reflexivity|].
    destruct (IH k) as [t Ht]. exists t. simpl. rewrite <- Ht. reflexivity.
Qed.

Lemma take_length (k : nat) (s : string) : String.length (Str.take k s) <= k.
Proof.
  revert k. induction s as [|a s IH]; intros k; destruct k; simpl; try lia.
  specialize (IH k). lia.
Qed.

Lemma strip_single (s : string) :
  single_spaced s = true -> single_spaced (Str.strip s) = true.
Proof.
  intros H. unfold Str.strip.
  destruct (lstrip_suffix Str.is_space s) as [t Ht]. rewrite Ht in H.
  apply single_spaced_app in H. destruct H as [_ H].
  destruct (rstrip_prefix Str.is_space (Str.lstrip_by Str.is_space s)) as [t' Ht'].
  rewrite Ht' in H. apply single_spaced_app in H. apply H.
Qed.

Lemma lstrip_shape (f : ascii -> bool) (s : string) :
  Str.lstrip_by f s = ""
  \/ begins_in (fun a => negb (f a)) (Str.lstrip_by f s) = true.
Proof.
  induction s as [|a s IH]; [left; reflexivity|]. simpl.
  destruct (f a) eqn:Ha; [exact IH|]. right. simpl. rewrite Ha. reflexivity.
Qed.

Lemma rstrip_keeps_begin (f : ascii -> bool) (s : string) :
  begins_in (fun a => negb (f a)) s = true ->
  begins_in (fun a => negb (f a)) (Str.rstrip_by f s) = true.
Proof.
  destruct s as [|a s]; [discriminate|]. simpl. intros Ha.
  destruct (Str.rstrip_by f s).
  - apply negb_true_iff in Ha. rewrite Ha. simpl. rewrite Ha. reflexivity.
  - simpl. exact Ha.
Qed.

Lemma rstrip_shape (f : ascii -> bool) (s : string) :
  Str.rstrip_by f s = ""
  \/ ends_in (fun a => negb (f a)) (Str.rstrip_by f s) = true.
Proof.
  induction s as [|a s IH]; [left; reflexivity|]. simpl.
  destruct (Str.rstrip_by f s) as [|b r].
  - destruct (f a) eqn:Ha; [left; reflexivity|]. right.
    unfold ends_in. simpl. rewrite Ha. reflexivity.
  - right. destruct IH as [IH|IH]; [discriminate IH|].
    change (String a (String b r)) with (String a "" ++ String b r).
    rewrite ends_in_app. exact IH.
Qed.

(** What [strip] gives is empty or has no whitespace at either end. *)
Lemma strip_shape (s : string) :
  Str.strip s = ""
  \/ (begins_in not_space (Str.strip s) = true
      /\ ends_in not_space (Str.strip s) = true).
Proof.
  unfold Str.strip.
  destruct (rstrip_shape Str.is_space (Str.lstrip_by Str.is_space s)) as [H|H];
    [left; exact H|].
  right. split; [|exact H].
  destruct (lstrip_shape Str.is_space s) as [E|E].
  - rewrite E in H. discriminate H.
  - apply rstrip_keeps_begin, E.
Qed.

Lemma strip_strip (s : string) : Str.strip (Str.strip s) = Str.strip s.
Proof.
  destruct (strip_shape s) as [E|[Hb He]]; [rewrite E; reflexivity|].
  apply strip_clean; assumption.
Qed.

Lemma take_begins (f : ascii -> bool) (k : nat) (s : string) :
  begins_in f s = true -> begins_in f (Str.take (S k) s) = true.
Proof. destruct s; [discriminate | auto]. Qed.

Lemma split_entry_description (entry : string) (e : entry_parts) :
  split_entry entry = Some e ->
  exists text, e_description e = Str.strip (collapse text).
Proof.
  unfold split_entry.
  destruct (negb (Str.nonempty (Str.strip entry))); [discriminate|].
  destruct (Str.split_char Str.nl (Str.strip entry)) as [|first rest];
    [discriminate|].
  destruct (negb (Str.startswith "-" (Str.strip first))); [discriminate|].
  destruct (re_findall1 option_pattern (Str.strip first)) as [|primary more];
    [discriminate|].
  intros H. injection H as <-. cbn [e_description].
  rewrite sub_spaces. eexists. reflexivity.
Qed.

(** X14: a [description] of a record of [parse_options] is one line of at
    most 200 characters: it is not empty, it begins with a character that
    is not whitespace, and its only whitespace is single spaces (no tab, no
    line break, no two spaces in a row). *)
Theorem option_descriptions_are_one_line (man_content : string) (p : param)
  (d : string) :
  In p (parse_options man_content) ->
  description p = Some d ->
  d <> ""
  /\ String.length d <= 200
  /\ begins_in not_space d = true
  /\ single_spaced d = true.
Proof.
  intros Hin Hd. destruct (parse_options_In _ _ Hin) as [entry [e [Hsplit ->]]].
  destruct (split_entry_description _ _ Hsplit) as [text Htext].
  unfold entry_param in Hd. cbn [description] in Hd.
  destruct (e_description e) as [|a full] eqn:E; [discriminate Hd|].
  cbn [Str.nonempty] in Hd.
  assert (Hd' : d = Str.take 200 (String a full)) by congruence.
  clear Hd. subst d.
  assert (Hb : begins_in not_space (String a full) = true).
  { rewrite Htext. destruct (strip_shape (collapse text)) as [H|[H _]];
      [congruence | exact H]. }
  assert (Hs : single_spaced (String a full) = true).
  { rewrite Htext. apply strip_single, collapse_single. }
  split; [cbn [Str.take]; discriminate|]. split; [apply take_length|].
  split; [apply take_begins, Hb|].
  destruct (take_prefix 200 (String a full)) as [t Ht]. rewrite Ht in Hs.
  apply single_spaced_app in Hs. apply Hs.
Qed.

Lemma option_descriptions_witness :
  String.length "<name=value> pass cookie as name=value" <= 200
  /\ single_spaced "<name=value> pass cookie as name=value" = true.
Proof.
  assert (Hin : In cookie_param (parse_options (options_section cookie_entry))).
  { vm_compute. left. reflexivity. }
  destruct (option_descriptions_are_one_line _ _ _ Hin eq_refl)
    as [_ [H1 [_ H2]]].
  split; assumption.
Defined.

(** *** The description of the tool *)

Lemma collapse_begins (s : string) :
  begins_in not_space s = true -> begins_in not_space (collapse s) = true.
Proof.
  destruct s as [|a s]; [discriminate|]. unfold collapse, not_space. simpl.
  intros H. apply negb_true_iff in H. rewrite H. simpl. rewrite H. reflexivity.
Qed.

Lemma ends_in_cons (f : ascii -> bool) (a : ascii) (t : string) :
  ends_in f t = true -> ends_in f (String a t) = true.
Proof.
  intros H. change (String a t) with (String a "" ++ t). rewrite ends_in_app.
  destruct t; [discriminate H | exact H].
Qed.

Lemma collapse_ends (s : string) :
  ends_in not_space s = true ->
  forall b, ends_in not_space (collapse_from b s) = true.
Proof.
  induction s as [|a s IH]; [discriminate|]. intros H b.
  destruct s as [|c s].
  - unfold ends_in in H. simpl in H. unfold not_space in H.
    pose proof H as Ha. apply negb_true_iff in Ha.
    cbn [collapse_from]. rewrite Ha. unfold ends_in. simpl. exact H.
  - assert (Hs : ends_in not_space (String c s) = true).
    { change (String a (String c s)) with (String a "" ++ String c s) in H.
      rewrite ends_in_app in H. exact H. }
    remember (String c s) as t eqn:Et. clear Et H.
    cbn [collapse_from]. destruct (Str.is_space a).
    + destruct b; [apply IH, Hs | apply ends_in_cons, IH, Hs].
    + apply ends_in_cons, IH, Hs.
Qed.

Lemma collapse_clean (s : string) :
  Str.strip (collapse (Str.strip s)) = collapse (Str.strip s).
Proof.
  destruct (strip_shape s) as [E|[Hb He]]; [rewrite E; reflexivity|].
  apply strip_clean; [apply collapse_begins, Hb | apply collapse_ends, He].
Qed.

(** X15: the description that [extract_description] gives has no whitespace
    at either end, whichever way it was found; and when the page has a NAME
    section, its only whitespace is single spaces: the text of the section
    is put on one line. *)
Theorem tool_description_is_trimmed (man_content : string) :
  Str.strip (extract_description man_content) = extract_description man_content
  /\ (re_search name_re man_content <> None ->
      single_spaced (extract_description man_content) = true).
Proof.
  unfold extract_description.
  destruct (re_search name_re man_content) as [name_match|].
  - rewrite sub_spaces. split; [apply collapse_clean|].
    intros _. apply collapse_single.
  - split; [|congruence].
    destruct (re_search description_re man_content) as [desc_match|];
      [|reflexivity].
    destruct (re_split _ _) as [|first rest]; [reflexivity|].
    apply strip_strip.
Qed.

Lemma tool_description_witness :
  single_spaced (extract_description two_line_name) = true.
Proof.
  apply (tool_description_is_trimmed two_line_name). vm_compute. discriminate.
Defined.

(** ** Pages without the sections *)

(** A pattern that begins with a literal finds nothing in a text in which
    the literal does not occur. *)
Lemma search_lit_none (w : string) (r : regex) (s : string) :
  Str.contains w s = false -> re_search (Seq (lit w) r) s = None.
Proof.
  unfold re_search. generalize (@None ascii) as p, 0 as i.
  induction s as [|a s IH]; intros p i H.
  - cbn [search_at]. rewrite rmatch_lit_first; [reflexivity|].
    apply contains_prefix, H.
  - cbn [search_at]. rewrite rmatch_lit_first; [|apply contains_prefix, H].
    apply IH. simpl in H. apply orb_false_iff in H. apply H.
Qed.

Lemma no_section_words (man_content : string) :
  Str.contains "NAME" man_content = false ->
  Str.contains "DESCRIPTION" man_content = false ->
  extract_description man_content = no_description.
Proof.
  intros Hname Hdesc. unfold extract_description.
  unfold name_re, description_re.
  change (seq (?x :: ?l)) with (Seq x (seq l)).
  rewrite (search_lit_none _ _ _ Hname), (search_lit_none _ _ _ Hdesc).
  reflexivity.
Qed.

(** X16: a page that is not empty and has none of the words NAME,
    DESCRIPTION and SYNOPSIS, nor the word [options] in any case, still
    gives a record: the command name, the description
    "No description available" and no parameters. *)
Theorem page_without_sections (compile : string -> command_pattern)
  (get_man_page : string -> option string) (command man_content : string) :
  get_man_page command = Some man_content ->
  man_content <> "" ->
  Str.contains "NAME" man_content = false ->
  Str.contains "DESCRIPTION" man_content = false ->
  Str.contains "SYNOPSIS" man_content = false ->
  Str.contains "options" (Str.lower man_content) = false ->
  man_to_json compile get_man_page command
  = Some (Some {| tool_name := command;
                  tool_description := "No description available";
                  parameters := [] |}).
Proof.
  intros Hpage Hne Hname Hdesc Hsyn Hopt. unfold man_to_json.
  rewrite Hpage, (nonempty_true _ Hne). cbn [negb].
  unfold parse_positional_args, parse_options.
  rewrite (no_synopsis_word _ Hsyn), (no_options_word _ Hopt).
  rewrite (no_section_words _ Hname Hdesc). reflexivity.
Qed.

Lemma page_without_sections_witness :
  man_to_json no_patterns plain_page "foo"
  = Some (Some {| tool_name := "foo";
                  tool_description := "No description available";
                  parameters := [] |}).
Proof.
  apply (page_without_sections no_patterns plain_page "foo" "just some text");
    [reflexivity | discriminate | reflexivity | reflexivity | reflexivity
    | reflexivity].
Defined.

(** X23: a missing section is not an error.  On a page that was retrieved
    and is not empty, [man_to_json] raises exactly when the page has a
    SYNOPSIS section and the command name does not make a pattern; it
    never does for a command name without pattern operators.  When the
    search for the OPTIONS header (or the phrase "The following options
    are available:") finds nothing, [parse_options] returns the empty list,
    and for a command name that makes a pattern [man_to_json] returns the
    record with the parameters that [parse_positional_args] gives; when the
    search for the SYNOPSIS header finds nothing, [parse_positional_args]
    returns the empty list for every command name, and [man_to_json]
    returns the record with the parameters of [parse_options]. *)
Theorem missing_sections_are_not_errors
  (compile : string -> command_pattern)
  (get_man_page : string -> option string) (command man_content : string)
  (Hpage : get_man_page command = Some man_content)
  (Hnonempty : man_content <> "") :
  (man_to_json compile get_man_page command = None
   <-> re_search synopsis_re man_content <> None
       /\ command_re compile command = ReError)
  /\ (no_operators command = true ->
      command_re compile command <> ReError)
  /\ (re_search options_re man_content = None ->
      parse_options man_content = []
      /\ (command_re compile command <> ReError ->
          exists positional,
            parse_positional_args compile man_content command = Some positional
            /\ man_to_json compile get_man_page command
               = Some (Some {| tool_name := command;
                               tool_description := extract_description man_content;
                               parameters := positional |})))
  /\ (re_search synopsis_re man_content = None ->
        parse_positional_args compile man_content command = Some []
        /\ man_to_json compile get_man_page command
           = Some (Some {| tool_name := command;
                           tool_description := extract_description man_content;
                           parameters := parse_options man_content |})).
Proof.
  split; [|split; [|split]].
  - unfold man_to_json. rewrite Hpage, (nonempty_true _ Hnonempty).
    cbn [negb]. unfold parse_positional_args.
    destruct (re_search synopsis_re man_content) as [m|].
    + destruct (command_re compile command); split; try discriminate; auto.
      * intros _. split; [discriminate | reflexivity].
      * intros [_ H]. discriminate H.
    + split; [discriminate|]. intros [H _]. congruence.
  - intros Hplain.
    destruct (no_operators_compiled compile command Hplain) as [sub ->].
    discriminate.
  - intros Hnone. split; [apply parse_options_without_section, Hnone|].
    intros Hcompiled.
    destruct (command_re compile command) as [|sub] eqn:Hre; [congruence|].
    destruct (parse_positional_compiled compile man_content command sub Hre)
      as [ps Hps].
    exists ps. split; [exact Hps|].
    unfold man_to_json. rewrite Hpage, (nonempty_true _ Hnonempty), Hps. simpl.
    rewrite (parse_options_without_section _ Hnone), app_nil_r. reflexivity.
  - intros Hnone.
    pose proof (parse_positional_without_section compile man_content command
                  Hnone) as Hps.
    split; [exact Hps|].
    unfold man_to_json. rewrite Hpage, (nonempty_true _ Hnonempty), Hps.
    reflexivity.
Qed.

Lemma missing_sections_witness :
  man_to_json no_patterns (fun _ => Some ldso_synopsis) "ld.so"
  = Some (Some {| tool_name := "ld.so";
                  tool_description := "No description available";
                  parameters := [options_arg; program_arg] |}).
Proof.
  assert (Hne : ldso_synopsis <> "") by discriminate.
  destruct (missing_sections_are_not_errors no_patterns
              (fun _ => Some ldso_synopsis) "ld.so" ldso_synopsis eq_refl Hne)
    as [_ [Hplain [Hopt _]]].
  destruct (Hopt eq_refl) as [_ H].
  destruct (H (Hplain eq_refl)) as [positional [Hps Hrun]].
  assert (Hrecords : Some positional = Some [options_arg; program_arg]).
  { rewrite <- Hps. vm_compute. reflexivity. }
  rewrite Hrun. injection Hrecords as ->. reflexivity.
Defined.

(** ** The first sentence *)

Lemma sentence_end_here (a : ascii) (ws rest : string) (p : option ascii)
  (i : nat) (g : caps) (k : kont) (x : result) :
  Str.has_char a ".!?" = true ->
  ws <> "" ->
  str_all Str.is_space ws = true ->
  begins_in Str.is_space rest = false ->
  k (Cursor (last_char (Some a) ws) (S i + String.length ws) rest) g = Some x ->
  rmatch sentence_end_re (Cursor p i (String a (ws ++ rest))) g k = Some x.
Proof.
  intros Ha Hne Hws Hrest Hk. unfold sentence_end_re. cbn [rmatch].
  unfold step. cbn [c_rest c_pos]. rewrite Ha.
  apply (spaces_at_run ws rest k g x (Some a) (S i)); assumption.
Qed.

Lemma begins_in_app (f : ascii -> bool) (u v : string) :
  begins_in f u = true -> begins_in f (u ++ v) = true.
Proof. destruct u; [discriminate | auto]. Qed.

Lemma no_sentence_end_here (a : ascii) (s : string) (adv : bool)
  (p : option ascii) (i : nat) :
  rmatch sentence_end_re (Cursor p i (String a s)) []
    (accept adv (Cursor p i (String a s))) = None ->
  Str.has_char a ".!?" && begins_in Str.is_space s = false.
Proof.
  intros Hnone.
  destruct (Str.has_char a ".!?") eqn:Ha; [|reflexivity].
  destruct (begins_in Str.is_space s) eqn:Hs; [|reflexivity].
  destruct (space_run s) as [ws [rest [-> [Hws Hrest]]]].
  assert (Hne : ws <> "").
  { intros ->. simpl in Hs. congruence. }
  rewrite (sentence_end_here a ws rest p i [] _
             (Cursor (last_char (Some a) ws) (S i + String.length ws) rest, [])
             Ha Hne Hws Hrest) in Hnone; [discriminate Hnone|].
  unfold accept. cbn [c_pos].
  rewrite (proj2 (Nat.eqb_neq _ _)) by lia. rewrite andb_false_r. reflexivity.
Qed.

(** The search for the end of a sentence finds the first one: there is none
    in the text before the match, and none at all when nothing is found. *)
Lemma search_sentence_end (s : string) :
  forall adv p i,
    match search_at sentence_end_re adv p i s with
    | None => has_sentence_end s = false
    | Some m =>
        exists pre post,
          s = pre ++ post /\ m_start m = i + String.length pre
          /\ has_sentence_end pre = false
    end.
Proof.
  induction s as [|a s IH]; intros adv p i.
  - cbn [search_at]. destruct (rmatch _ _ _ _) as [[c' g]|]; [|reflexivity].
    exists "", "". cbn [m_start String.length]. rewrite Nat.add_0_r. auto.
  - cbn [search_at].
    destruct (rmatch _ _ _ _) as [[c' g]|] eqn:Hhere.
    + exists "", (String a s). cbn [m_start String.length].
      rewrite Nat.add_0_r. auto.
    + apply no_sentence_end_here in Hhere.
      specialize (IH false (Some a) (S i)).
      destruct (search_at sentence_end_re false (Some a) (S i) s) as [m|].
      * destruct IH as [pre [post [-> [Hstart Hpre]]]].
        exists (String a pre), post. cbn [String.append String.length has_sentence_end].
        split; [reflexivity|]. split; [lia|]. rewrite Hpre, orb_false_r.
        destruct (Str.has_char a ".!?"); [|reflexivity].
        destruct (begins_in Str.is_space pre) eqn:Hb; [|reflexivity].
        rewrite (begins_in_app _ _ post Hb) in Hhere. discriminate Hhere.
      * cbn [has_sentence_end]. rewrite Hhere, IH. reflexivity.
Qed.

Lemma drop_0 (s : string) : Str.drop 0 s = s.
Proof. destruct s; reflexivity. Qed.

Lemma split_first_sentence (s first : string) (rest : list string) :
  re_split sentence_end_re s = first :: rest -> has_sentence_end first = false.
Proof.
  unfold re_split, re_finditer.
  replace (2 * String.length s + 2) with (S (2 * String.length s + 1)) by lia.
  cbn [finditer_from c_prev c_pos c_rest].
  pose proof (search_sentence_end s false None 0) as H.
  destruct (search_at sentence_end_re false None 0 s) as [m|].
  - destruct H as [pre [post [-> [Hstart Hpre]]]]. cbn [pieces].
    intros E. injection E as <- _. unfold Str.slice.
    rewrite drop_0, Nat.sub_0_r, Hstart. cbn [Nat.add].
    rewrite take_app. exact Hpre.
  - cbn [pieces]. intros E. injection E as <- _. exact H.
Qed.

Lemma has_sentence_end_app (u v : string) :
  has_sentence_end (u ++ v) = false ->
  has_sentence_end u = false /\ has_sentence_end v = false.
Proof.
  induction u as [|a u IH]; [auto|].
  cbn [String.append has_sentence_end]. intros H.
  apply orb_false_iff in H. destruct H as [Ha H].
  destruct (IH H) as [Hu Hv]. split; [|exact Hv]. rewrite Hu, orb_false_r.
  destruct (Str.has_char a ".!?"); [|reflexivity].
  destruct (begins_in Str.is_space u) eqn:Hb; [|reflexivity].
  rewrite (begins_in_app _ _ v Hb) in Ha. discriminate Ha.
Qed.

Lemma strip_sentence (s : string) :
  has_sentence_end s = false -> has_sentence_end (Str.strip s) = false.
Proof.
  intros H. unfold Str.strip.
  destruct (lstrip_suffix Str.is_space s) as [t Ht]. rewrite Ht in H.
  apply has_sentence_end_app in H. destruct H as [_ H].
  destruct (rstrip_prefix Str.is_space (Str.lstrip_by Str.is_space s)) as [t' Ht'].
  rewrite Ht' in H. apply has_sentence_end_app in H. apply H.
Qed.

(** X17: when the page has no NAME section, the description that
    [extract_description] gives is at most one sentence: no full stop,
    exclamation mark or question mark in it is followed by whitespace. *)
Theorem fallback_is_one_sentence (man_content : string) :
  re_search name_re man_content = None ->
  has_sentence_end (extract_description man_content) = false.
Proof.
  intros Hname. unfold extract_description. rewrite Hname.
  destruct (re_search description_re man_content) as [desc_match|];
    [|reflexivity].
  destruct (re_split _ _) as [|first rest] eqn:E; [reflexivity|].
  apply strip_sentence, (split_first_sentence _ _ _ E).
Qed.

Lemma fallback_witness :
  has_sentence_end (extract_description two_sentences) = false.
Proof. apply (fallback_is_one_sentence two_sentences). reflexivity. Defined.

(** ** The retrieval of the page *)

Lemma web_result (src : sources) (command : string) :
  fst (get_man_page_from_web src command) = web_found src command.
Proof.
  unfold get_man_page_from_web, web_found.
  destruct (web_page src (man_url command)) as [| |status_code content_div];
    try reflexivity.
  destruct (Nat.eqb status_code 200), content_div; reflexivity.
Qed.

Lemma web_events (src : sources) (command : string) :
  exists tail,
    snd (get_man_page_from_web src command)
    = Fetching (man_url command) :: HttpGet (man_url command) :: tail
    /\ match web_found src command with
       | Some _ => tail = []
       | None => exists e, tail = [e] /\ is_web_error e = true
       end.
Proof.
  unfold get_man_page_from_web, web_found.
  destruct (web_page src (man_url command)) as [| |status_code content_div].
  - eexists. split; [reflexivity|]. eexists. split; reflexivity.
  - eexists. split; [reflexivity|]. eexists. split; reflexivity.
  - destruct (Nat.eqb status_code 200), content_div; cbn [negb];
      eexists; (split; [reflexivity|]); try reflexivity;
      eexists; split; reflexivity.
Qed.

Lemma local_found_page (src : sources) (command : string) :
  local_found src command = true ->
  exists stdout,
    local_page src command = Piped 0 stdout /\ Str.strip stdout <> ""
    /\ get_man_page src command = (Some stdout, []).
Proof.
  unfold local_found, get_man_page.
  destruct (local_page src command) as [returncode stdout| |]; try discriminate.
  intros H. apply andb_prop in H. destruct H as [Hrc Hout].
  rewrite Hrc, Hout. apply Z.eqb_eq in Hrc. subst returncode.
  exists stdout. repeat split. intros E. rewrite E in Hout. discriminate Hout.
Qed.

Lemma local_missing_page (src : sources) (command : string) :
  local_found src command = false ->
  exists notice,
    is_notice command notice
    /\ get_man_page src command
       = and_then notice (get_man_page_from_web src command).
Proof.
  unfold local_found, get_man_page.
  destruct (local_page src command) as [returncode stdout| |].
  - intros H. exists (LocalNotFound command). split; [left; reflexivity|].
    destruct (Z.eqb returncode 0); [|reflexivity].
    cbn [andb] in H. rewrite H. reflexivity.
  - intros _. exists (LocalNotFound command). split; [left|]; reflexivity.
  - intros _. exists ToolsNotFound. split; [right|]; reflexivity.
Qed.



(** X19: the page that [get_man_page] returns is the local output, when
    there is a local page, and otherwise the text of the content division
    of a response with status 200; in every other case it returns nothing. *)
Theorem page_comes_from_one_source (src : sources) (command text : string) :
  retrieve src command = Some text
  <-> (local_page src command = Piped 0 text /\ Str.strip text <> "")
      \/ (local_found src command = false
          /\ web_page src (man_url command) = Response 200 (Some text)).
Proof.
  unfold retrieve.
  assert (Hweb : web_found src command = Some text
                 <-> web_page src (man_url command) = Response 200 (Some text)).
  { unfold web_found.
    destruct (web_page src (man_url command)) as [| |status_code content_div];
      try (split; discriminate).
    destruct content_div as [page|]; [|split; discriminate].
    destruct (Nat.eqb_spec status_code 200) as [->|Hne]; split;
      congruence. }
  destruct (local_found src command) eqn:Hlocal.
  - destruct (local_found_page _ _ Hlocal) as [stdout [H1 [H2 H3]]].
    rewrite H3. cbn [fst]. split.
    + intros H. injection H as <-. left. auto.
    + intros [[H _]|[H _]]; [congruence | discriminate].
  - destruct (local_missing_page _ _ Hlocal) as [notice [_ ->]].
    unfold and_then. cbn [fst]. rewrite web_result, Hweb. split.
    + intros H. right. auto.
    + intros [[H Hne]|[_ H]]; [|exact H].
      unfold local_found in Hlocal. rewrite H in Hlocal. cbn in Hlocal.
      rewrite (nonempty_true _ Hne) in Hlocal. discriminate Hlocal.
Qed.

Lemma page_source_witness :
  retrieve (blank_local (Response 200 (Some foo_name))) "foo" = Some foo_name.
Proof.
  apply (page_comes_from_one_source
           (blank_local (Response 200 (Some foo_name))) "foo" foo_name).
  right. split; reflexivity.
Defined.

(** *** Pages that are blank *)

Lemma space_lower (s : string) :
  str_all Str.is_space s = true -> Str.lower s = s.
Proof.
  induction s as [|a s IH]; [reflexivity|]. cbn [str_all Str.lower].
  intros H. apply andb_prop in H. destruct H as [Ha Hs]. rewrite (IH Hs).
  f_equal. revert Ha. clear.
  destruct a as [[] [] [] [] [] [] [] []]; vm_compute; auto; discriminate.
Qed.

Lemma blank_contains (a : ascii) (w s : string) :
  Str.is_space a = false -> str_all Str.is_space s = true ->
  Str.contains (String a w) s = false.
Proof.
  intros Ha. induction s as [|b s IH]; intros H; [reflexivity|].
  simpl in H. apply andb_prop in H. destruct H as [Hb Hs].
  cbn [Str.contains String.prefix]. rewrite (IH Hs), orb_false_r.
  destruct (ascii_dec a b) as [->|_]; [congruence | reflexivity].
Qed.

(** X20: a blank output of the local commands is passed over, but a blank
    page of the site is taken: when the text of the content division is
    only whitespace, [man_to_json] gives the record with the description
    "No description available" and no parameters; only when the text is
    empty does it give nothing. *)
Theorem blank_web_page_gives_a_record (compile : string -> command_pattern)
  (src : sources) (command text : string) :
  local_found src command = false ->
  web_page src (man_url command) = Response 200 (Some text) ->
  str_all Str.is_space text = true ->
  man_to_json compile (retrieve src) command
  = if Str.nonempty text
    then Some (Some {| tool_name := command;
                       tool_description := "No description available";
                       parameters := [] |})
    else Some None.
Proof.
  intros Hlocal Hweb Hblank.
  assert (Hpage : retrieve src command = Some text).
  { unfold retrieve.
    destruct (local_missing_page _ _ Hlocal) as [notice [_ ->]].
    unfold and_then. cbn [fst]. rewrite web_result. unfold web_found.
    rewrite Hweb. reflexivity. }
  unfold man_to_json. rewrite Hpage.
  destruct text as [|a text]; [reflexivity|]. cbn [Str.nonempty negb].
  unfold parse_positional_args, parse_options.
  rewrite no_synopsis_word, no_options_word, no_section_words;
    try reflexivity;
    try (rewrite space_lower by exact Hblank);
    apply blank_contains; auto.
Qed.

Lemma blank_web_page_witness :
  man_to_json no_patterns
    (retrieve (blank_local (Response 200 (Some (line "   "))))) "foo"
  = Some (Some {| tool_name := "foo";
                  tool_description := "No description available";
                  parameters := [] |}).
Proof.
  apply (blank_web_page_gives_a_record no_patterns
           (blank_local (Response 200 (Some (line "   ")))) "foo" (line "   "));
    reflexivity.
Defined.

(** X21: when there is no local page and the site gives none either, the
    retrieval prints its notice, announces and sends the one request and
    prints one error line; [main] then returns 1, prints nothing more than
    the retrieval did, nothing on the standard output, and leaves every
    file as it was. *)
Theorem no_page_anywhere (compile : string -> command_pattern) (src : sources)
  (a : args) (w : world) :
  local_found src (command a) = false ->
  web_found src (command a) = None ->
  exists notice error,
    snd (get_man_page src (command a))
    = [notice; Fetching (man_url (command a));
       HttpGet (man_url (command a)); error]
    /\ is_notice (command a) notice
    /\ is_web_error error = true
    /\ main compile src a w
       = {| exit_code := 1; after := w;
            stderr := [Retrieval notice;
                       Retrieval (Fetching (man_url (command a)));
                       Retrieval error];
            stdout := [] |}.
Proof.
  intros Hlocal Hweb.
  destruct (local_missing_page _ _ Hlocal) as [notice [Hnotice Hrun]].
  destruct (web_events src (command a)) as [tail [Hev Htail]].
  rewrite Hweb in Htail. destruct Htail as [error [-> Herror]].
  assert (Hevents : snd (get_man_page src (command a))
                    = [notice; Fetching (man_url (command a));
                       HttpGet (man_url (command a)); error]).
  { rewrite Hrun. unfold and_then. cbn [snd]. rewrite Hev. reflexivity. }
  exists notice, error. split; [exact Hevents|]. split; [exact Hnotice|].
  split; [exact Herror|].
  unfold main, retrieval_lines. rewrite Hevents.
  unfold man_to_json, retrieve. rewrite Hrun. unfold and_then.
  cbn [fst]. rewrite web_result, Hweb.
  destruct Hnotice as [-> | ->];
    destruct error; try discriminate Herror; reflexivity.
Qed.

Lemma no_page_anywhere_witness :
  exists notice error,
    snd (get_man_page (blank_local (Response 404 None)) "foo")
    = [notice; Fetching (man_url "foo"); HttpGet (man_url "foo"); error]
    /\ is_notice "foo" notice
    /\ is_web_error error = true
    /\ main no_patterns (blank_local (Response 404 None))
         (to_file "foo" "tools.json") no_files
       = {| exit_code := 1; after := no_files;
            stderr := [Retrieval notice; Retrieval (Fetching (man_url "foo"));
                       Retrieval error];
            stdout := [] |}.
Proof.
  apply (no_page_anywhere no_patterns (blank_local (Response 404 None))
           (to_file "foo" "tools.json") no_files); reflexivity.
Defined.

(** ** The parameter objects *)

Lemma positional_token_clean (s : string) (m : rmatch_result) :
  match_in positional_pattern s m ->
  Str.strip (group_text 1 m) = group_text 1 m /\ group_text 1 m <> "".
Proof.
  intros Hm. destruct (positional_pattern_token _ _ Hm) as [Hb Ha].
  assert (Hne : group_text 1 m <> "").
  { destruct (group_text 1 m); [discriminate Hb | discriminate]. }
  split; [|exact Hne].
  destruct (str_all_ends _ _ (word_or_dot_not_space _ Ha) Hne).
  apply strip_clean; assumption.
Qed.

Lemma entry_name (entry : string) (e : entry_parts) :
  split_entry entry = Some e -> name (entry_param e) <> "".
Proof.
  intros Hsplit. destruct (split_entry_primary _ _ Hsplit) as [m [Hm Hprimary]].
  destruct (option_pattern_token _ _ Hm) as [Hb [He Hlen]].
  unfold entry_param. cbn [name]. rewrite Hprimary.
  rewrite strip_clean; [|apply is_dash_not_space, Hb | exact He].
  destruct (group_text 1 m); [simpl in Hlen; lia | discriminate].
Qed.

Ltac distinct_keys :=
  repeat (constructor; [simpl; intuition discriminate|]); constructor.

Lemma positional_schema (i : nat) (t : string) :
  Str.strip t <> "" -> exists fields,
    param_json (positional_param i t) = JObj fields /\ param_schema fields.
Proof.
  intros Hne. eexists. split; [reflexivity|].
  cbn [positional_param name param_type position value_type description
       option_map option_field app param_kind_text].
  split; [cbn [map fst]; distinct_keys|].
  exists (Str.strip t), "positional". unfold param_kinds.
  repeat split; auto; simpl; auto 10; discriminate.
Qed.

Lemma option_schema (p : param) :
  name p <> "" -> param_type p <> Positional -> position p = None ->
  (param_type p = Flag -> value_type p = None) ->
  exists fields, param_json p = JObj fields /\ param_schema fields.
Proof.
  destruct p as [n k pos v d]. cbn [name param_type position value_type].
  intros Hn Hk -> Hflag. eexists. split; [reflexivity|].
  cbn [name param_type position value_type description option_map option_field
       app].
  assert (Hkind : In (param_kind_text k) param_kinds
                  /\ param_kind_text k <> "positional"
                  /\ (param_kind_text k = "flag" -> v = None)).
  { unfold param_kinds.
    destruct k; try congruence; cbn [param_kind_text];
      (split; [simpl; auto 10|]); (split; [discriminate|]);
      try discriminate; auto. }
  destruct Hkind as [Hin [Hnot Hflag']].
  split.
  - destruct v, d; cbn [option_map option_field app map fst]; distinct_keys.
  - exists n, (param_kind_text k).
    destruct v as [v|], d as [d|]; cbn [option_map option_field app];
      (repeat split; auto; try (intros E; specialize (Hflag' E)); try congruence;
       try (simpl; discriminate)).
Qed.

(** X22: every parameter object of the record that [man_to_json] returns
    has its keys once each, a name that is not empty and one of the six
    parameter types; it has a position exactly when its parameter type is
    [positional], and then it has a value type and no description; a
    [flag] has no value type. *)
Theorem parameter_objects_schema (compile : string -> command_pattern)
  (get_man_page : string -> option string) (command : string) (t : tool)
  (item : json) :
  man_to_json compile get_man_page command = Some (Some t) ->
  In item (map param_json (parameters t)) ->
  exists fields, item = JObj fields /\ param_schema fields.
Proof.
  intros H Hitem. apply man_to_json_record in H.
  destruct H as [man_content [positional [_ [_ [Hpos ->]]]]].
  cbn [parameters] in Hitem. apply in_map_iff in Hitem.
  destruct Hitem as [p [<- Hp]]. apply in_app_or in Hp. destruct Hp as [Hp|Hp].
  - destruct (positional_tokens _ _ _ _ _ Hpos Hp) as [i [m [s [Hm ->]]]].
    destruct (positional_token_clean _ _ Hm) as [Hs Hne].
    apply positional_schema. rewrite Hs. exact Hne.
  - destruct (parse_options_In _ _ Hp) as [entry [e [Hsplit ->]]].
    apply option_schema.
    + apply (entry_name _ _ Hsplit).
    + apply classify_not_positional.
    + reflexivity.
    + unfold entry_param. cbn [param_type value_type]. intros ->. reflexivity.
Qed.

Lemma parameter_objects_witness :
  exists fields, param_json cookie_param = JObj fields /\ param_schema fields.
Proof.
  apply (parameter_objects_schema no_patterns grep_page "grep" grep_tool);
    [reflexivity | simpl; auto].
Defined.
